(** * A shallow embedding of [vector.h]: [RawMemory<T>] and [Vector<T>]

    The container works on raw storage, constructs and destroys elements in
    place, and transfers ownership of storage blocks by swapping.  The model
    therefore keeps an explicit store:

    - a heap of storage blocks, each a list of slots; a slot is either raw
      (no object lives there) or holds a live [T];
    - a store of [Vector] objects, addressed by their location, so that
      [this != &rhs] and the aliasing of two references are meaningful;
    - the state [W] of the world outside the container, which the element
      type's own operations may read and write (a counter of copies, for
      instance) and which the memory system consults, and the list of
      element operations executed so far.

    C++ exceptions are an outcome of a computation, next to normal return.
    A violated contract (dereferencing raw storage, an assertion of the
    source that fails, arithmetic on pointers into different blocks) is a
    third outcome.

    Storage comes from the memory system, which may refuse a request:
    [operator new] then throws.  The number of bytes asked for,
    [n * sizeof(T)], is computed in [size_t] and wraps; a request that
    wraps is granted, if at all, as a block of fewer than [n] slots.

    The counts [size_], [capacity_] and the indices are [nat].  A statement
    about an operation that asks for a block supposes that the bytes of the
    block fit [size_t] (the predicate [fits]); the count of its slots then
    fits as well, so that [size_ * 2] and [++size_] do not wrap.  What
    [Reserve] does when the bytes do not fit is the subject of
    [Reserve_overflow]. *)

From stdpp Require Import gmap list.

(** ** The element type and the memory system *)

(** [SIZE_MAX + 1]: a [size_t] has 64 bits. *)
Definition size_max : N := 2 ^ 64.

(** What [Vector<T>] asks of [T] and of the memory system: the four
    capability queries that [if constexpr] branches on, [sizeof(T)], the
    special member functions and [operator new].  Every operation runs in
    the state [W] of the world outside the container; [None] or [false]
    means that the operation throws. *)
Class Element (T W : Type) : Type := {
  is_nothrow_move_constructible : bool;
  is_copy_constructible : bool;
  is_nothrow_move_assignable : bool;
  is_copy_assignable : bool;
  (* T() *)
  T_default : W → option T * W;
  (* T(const T& src): the source is not modified *)
  T_copy : T → W → option T * W;
  (* T(T&& src): the new object, and what is left in the source *)
  T_move : T → W → option T * T * W;
  (* dst = src: the success flag and the new dst *)
  T_copy_assign : T → T → W → bool * T * W;
  (* dst = std::move(src): the success flag, the new dst and the new src *)
  T_move_assign : T → T → W → bool * T * T * W;
  (* ~T() *)
  T_destroy : T → W → W;
  (* sizeof(T): positive, and a size_t *)
  sizeof_T : positive;
  sizeof_fits : (N.pos sizeof_T < size_max)%N;
  (* operator new(bytes): whether the memory system grants the request;
     when it does not, std::bad_alloc is thrown.  No operation of the
     container asks for storage twice, so that a decision by the request
     and the state of the world describes every pattern of failures. *)
  operator_new : N → W → bool
}.

(** Two laws of a well-behaved element type.  An operation declared
    [noexcept] lets no exception out. *)
Class Noexcept (T W : Type) `{Element T W} : Prop := {
  nothrow_move_construct : is_nothrow_move_constructible = true →
    ∀ v w, (T_move v w).1.1 ≠ None;
  nothrow_move_assign : is_nothrow_move_assignable = true →
    ∀ d v w, (T_move_assign d v w).1.1.1 = true
}.

(** A copy or a move that succeeds yields the value of its source. *)
Class ValueSemantics (T W : Type) `{Element T W} : Prop := {
  copy_value : ∀ v w v' w', T_copy v w = (Some v', w') → v' = v;
  move_value : ∀ v w v' r w', T_move v w = (Some v', r, w') → v' = v;
  copy_assign_value : ∀ d v w d' w',
    T_copy_assign d v w = (true, d', w') → d' = v;
  move_assign_value : ∀ d v w d' r w',
    T_move_assign d v w = (true, d', r, w') → d' = v
}.

(** The arguments of a constructor call [T(std::forward<Args>(args)...)]. *)
Inductive args (T W : Type) : Type :=
  | ByCopy (v : T)                    (* T(value), value a const T& *)
  | ByMove (v : T)                    (* T(std::move(value)), value outside the array *)
  | ByCtor (c : W → option T * W).    (* any other constructor *)
Arguments ByCopy {T W} v.
Arguments ByMove {T W} v.
Arguments ByCtor {T W} c.

(** The element operations a run executes, in order. *)
Inductive event : Type :=
  | EvDefault | EvCtor | EvCopy | EvMove | EvCopyAssign | EvMoveAssign | EvDestroy.

#[global] Instance event_eq_dec : EqDecision event.
Proof. solve_decision. Defined.

(** ** Pointers, blocks and objects *)

Definition addr := nat.
Definition loc := nat.

(** A [T*]: null, or a slot of a block. *)
Inductive ptr : Type :=
  | Null
  | Ptr (b : addr) (off : nat).

#[global] Instance ptr_eq_dec : EqDecision ptr.
Proof. solve_decision. Defined.

(** [p + n]; adding to a null pointer is only meaningful for [n = 0], and
    a null pointer is never dereferenced. *)
Definition ptr_add (p : ptr) (n : nat) : ptr :=
  match p with
  | Null => Null
  | Ptr b off => Ptr b (off + n)
  end.

Record RawMemory : Type := mkRawMemory {
  buffer_ : ptr;
  capacity_ : nat
}.

Record Vector : Type := mkVector {
  data_ : RawMemory;
  size_ : nat
}.

Inductive outcome (A : Type) : Type :=
  | Ret (a : A)
  | Throw
  | Undef.
Arguments Ret {A} a.
Arguments Throw {A}.
Arguments Undef {A}.

Section Model.
Context {T W : Type} `{Element T W}.

Record state : Type := mkState {
  mem : gmap addr (list (option T));
  objs : gmap loc Vector;
  env : W;
  trace : list event
}.

Definition set_mem (f : gmap addr (list (option T)) → gmap addr (list (option T)))
    (s : state) : state :=
  mkState (f (mem s)) (objs s) (env s) (trace s).
Definition set_objs (f : gmap loc Vector → gmap loc Vector) (s : state) : state :=
  mkState (mem s) (f (objs s)) (env s) (trace s).
Definition set_env (w : W) (s : state) : state :=
  mkState (mem s) (objs s) w (trace s).
Definition log (e : event) (s : state) : state :=
  mkState (mem s) (objs s) (env s) (trace s ++ [e]).

(** ** The monad of computations *)

Definition M (A : Type) : Type := state → outcome A * state.

Definition ret {A} (a : A) : M A := λ s, (Ret a, s).
Definition bind {A B} (m : M A) (k : A → M B) : M B := λ s,
  match m s with
  | (Ret a, s') => k a s'
  | (Throw, s') => (Throw, s')
  | (Undef, s') => (Undef, s')
  end.
Definition throw {A} : M A := λ s, (Throw, s).
Definition undef {A} : M A := λ s, (Undef, s).
Definition modify (f : state → state) : M unit := λ s, (Ret tt, f s).
Definition gets {A} (f : state → A) : M A := λ s, (Ret (f s), s).

(** Stack unwinding: when [body] throws, the destructor of a local object
    ([cleanup]) runs and the exception travels on. *)
Definition unwind {A} (cleanup : M unit) (body : M A) : M A := λ s,
  match body s with
  | (Throw, s') =>
      match cleanup s' with
      | (Ret _, s'') => (Throw, s'')
      | (_, s'') => (Undef, s'')
      end
  | r => r
  end.

(** [assert(b)] of the source. *)
Definition assert (b : bool) : M unit := if b then ret tt else undef.

End Model.

Declare Scope vec_scope.
Delimit Scope vec_scope with vec.
Notation "x <- m ;; k" := (bind m (λ x, k))
  (at level 100, m at next level, right associativity) : vec_scope.
Notation "m ;;; k" := (bind m (λ _, k))
  (at level 100, right associativity) : vec_scope.
Local Open Scope vec_scope.

Section Primitives.
Context {T W : Type} `{Element T W}.
Local Abbreviation M := (@M T W).
Local Abbreviation state := (@state T W).

(** *** Slots *)

(** Read the live object at [p]. *)
Definition load (p : ptr) : M T := λ s,
  match p with
  | Ptr b i =>
      match mem s !! b with
      | Some l => match l !! i with
                  | Some (Some v) => (Ret v, s)
                  | _ => (Undef, s)
                  end
      | None => (Undef, s)
      end
  | Null => (Undef, s)
  end.

(** Write slot [p], which must lie inside its block. *)
Definition put_slot (p : ptr) (x : option T) : M unit := λ s,
  match p with
  | Ptr b i =>
      match mem s !! b with
      | Some l => if decide (i < length l)
                  then (Ret tt, set_mem (insert b (<[i:=x]> l)) s)
                  else (Undef, s)
      | None => (Undef, s)
      end
  | Null => (Undef, s)
  end.

(** Run an operation of the element type in its state. *)
Definition elem {A} (e : event) (f : W → A * W) : M A := λ s,
  let '(a, w) := f (env s) in (Ret a, log e (set_env w s)).

(** *** Storage *)

(** [n * sizeof(T)], a [size_t]: the product wraps. *)
Definition bytes_of (n : nat) : N :=
  ((N.of_nat n * N.pos sizeof_T) `mod` size_max)%N.

(** The slots of a block of that many bytes. *)
Definition slots_of (bytes : N) : nat :=
  N.to_nat (bytes `div` N.pos sizeof_T).

(** [n] elements take less than 2^64 bytes: [n * sizeof(T)] does not
    wrap. *)
Definition fits (n : nat) : Prop :=
  (N.of_nat n * N.pos sizeof_T < size_max)%N.

(** [Allocate(n)]: [operator new(n * sizeof(T))], or [nullptr] for [n = 0].
    [operator new] throws when the memory system refuses the request, and
    returns a new block of the bytes asked for otherwise. *)
Definition Allocate (n : nat) : M ptr := λ s,
  if decide (n = 0) then (Ret Null, s)
  else if operator_new (bytes_of n) (env s) then
         let b := fresh (dom (mem s)) in
         (Ret (Ptr b 0),
          set_mem (insert b (replicate (slots_of (bytes_of n)) None)) s)
       else (Throw, s).

(** [Deallocate(buf)]: [operator delete(buf)]; the block goes back to the
    memory system whatever its slots hold. *)
Definition Deallocate (buf : ptr) : M unit := λ s,
  match buf with
  | Null => (Ret tt, s)
  | Ptr b 0 =>
      match mem s !! b with
      | Some _ => (Ret tt, set_mem (delete b) s)
      | None => (Undef, s)
      end
  | Ptr _ _ => (Undef, s)
  end.

(** *** Pointer arithmetic *)

(** [last - first] for two pointers into one block, [first] not after
    [last] (what [std::distance] and the iterator ranges of the algorithms
    need). *)
Definition ptr_distance (first last : ptr) : M nat :=
  match first, last with
  | Null, Null => ret 0
  | Ptr b i, Ptr b' j =>
      if decide (b = b' ∧ i ≤ j) then ret (j - i) else undef
  | _, _ => undef
  end.

(** [p - n], which must stay inside the block. *)
Definition ptr_sub (p : ptr) (n : nat) : M ptr :=
  match p with
  | Null => if decide (n = 0) then ret Null else undef
  | Ptr b i => if decide (n ≤ i) then ret (Ptr b (i - n)) else undef
  end.

(** *** Element operations on slots *)

(** [new (dst) T(x) for the object x at src] through the copy constructor. *)
Definition construct_copy (dst src : ptr) : M unit :=
  v <- load src ;;
  o <- elem EvCopy (T_copy v) ;;
  match o with
  | Some v' => put_slot dst (Some v')
  | None => throw
  end.

(** [new (dst) T(std::move(x))] for the object x at src. *)
Definition construct_move (dst src : ptr) : M unit :=
  v <- load src ;;
  r <- elem EvMove (T_move v) ;;
  put_slot src (Some r.2) ;;;
  match r.1 with
  | Some v' => put_slot dst (Some v')
  | None => throw
  end.

(** [new (dst) T()]. *)
Definition construct_default (dst : ptr) : M unit :=
  o <- elem EvDefault T_default ;;
  match o with
  | Some v' => put_slot dst (Some v')
  | None => throw
  end.

(** The constructor that a call [T(std::forward<Args>(args)...)] selects. *)
Definition args_event (a : args T W) : event :=
  match a with
  | ByCopy _ => EvCopy
  | ByMove _ => EvMove
  | ByCtor _ => EvCtor
  end.

Definition args_run (a : args T W) (w : W) : option T * W :=
  match a with
  | ByCopy v => T_copy v w
  | ByMove v => ((T_move v w).1.1, (T_move v w).2)
  | ByCtor c => c w
  end.

(** [new (dst) T(std::forward<Args>(args)...)]. *)
Definition construct_args (dst : ptr) (a : args T W) : M unit :=
  o <- elem (args_event a) (args_run a) ;;
  match o with
  | Some v' => put_slot dst (Some v')
  | None => throw
  end.

(** Copy assignment [d = x] of the object at src to the one at dst. *)
Definition assign_copy (dst src : ptr) : M unit :=
  d <- load dst ;;
  v <- load src ;;
  r <- elem EvCopyAssign (T_copy_assign d v) ;;
  put_slot dst (Some r.2) ;;;
  if r.1 then ret tt else throw.

(** Move assignment [d = std::move(x)] of the object at src to the one at dst. *)
Definition assign_move (dst src : ptr) : M unit :=
  d <- load dst ;;
  v <- load src ;;
  r <- elem EvMoveAssign (T_move_assign d v) ;;
  put_slot src (Some r.2) ;;;
  put_slot dst (Some r.1.2) ;;;
  if r.1.1 then ret tt else throw.

(** [std::destroy_at(p)]. *)
Definition destroy_at (p : ptr) : M unit :=
  v <- load p ;;
  elem EvDestroy (λ w, (tt, T_destroy v w)) ;;;
  put_slot p None.

(** ** The algorithms of [<memory>] and [<algorithm>] the source calls *)

Fixpoint destroy_n (first : ptr) (n : nat) : M unit :=
  match n with
  | 0 => ret tt
  | S n' => destroy_at first ;;; destroy_n (ptr_add first 1) n'
  end.

(** The loop shared by the [std::uninitialized_*] algorithms: [k] objects
    are already constructed at [d_first]; when the construction of the next
    one throws, they are destroyed and the exception travels on. *)
Fixpoint uninitialized_loop (construct : nat → M unit) (d_first : ptr)
    (k n : nat) : M unit :=
  match n with
  | 0 => ret tt
  | S n' =>
      unwind (destroy_n d_first k) (construct k) ;;;
      uninitialized_loop construct d_first (S k) n'
  end.

Definition uninitialized_copy_n (first : ptr) (n : nat) (d_first : ptr) : M unit :=
  uninitialized_loop
    (λ k, construct_copy (ptr_add d_first k) (ptr_add first k)) d_first 0 n.

Definition uninitialized_move_n (first : ptr) (n : nat) (d_first : ptr) : M unit :=
  uninitialized_loop
    (λ k, construct_move (ptr_add d_first k) (ptr_add first k)) d_first 0 n.

(** [std::uninitialized_move_n] reading through a [const T*]:
    [std::move] of the source is then a [const T&&], which only the copy
    constructor accepts. *)
Definition uninitialized_move_n_const (first : ptr) (n : nat) (d_first : ptr)
    : M unit :=
  uninitialized_copy_n first n d_first.

Definition uninitialized_value_construct_n (first : ptr) (n : nat) : M unit :=
  uninitialized_loop (λ k, construct_default (ptr_add first k)) first 0 n.

Definition uninitialized_copy (first last d_first : ptr) : M unit :=
  n <- ptr_distance first last ;; uninitialized_copy_n first n d_first.

Definition uninitialized_move (first last d_first : ptr) : M unit :=
  n <- ptr_distance first last ;; uninitialized_move_n first n d_first.

(** [std::move(first, last, d_first)] and [std::copy]: assignments in
    increasing order. *)
Fixpoint assign_forward (assign : ptr → ptr → M unit) (first d_first : ptr)
    (n : nat) : M unit :=
  match n with
  | 0 => ret tt
  | S n' =>
      assign d_first first ;;;
      assign_forward assign (ptr_add first 1) (ptr_add d_first 1) n'
  end.

Definition std_move (first last d_first : ptr) : M unit :=
  n <- ptr_distance first last ;; assign_forward assign_move first d_first n.

Definition std_copy (first last d_first : ptr) : M unit :=
  n <- ptr_distance first last ;; assign_forward assign_copy first d_first n.

(** [std::move_backward(first, last, d_last)] and [std::copy_backward]:
    [while (first != last) *(--d_last) = *(--last)]. *)
Fixpoint assign_backward (assign : ptr → ptr → M unit) (last d_last : ptr)
    (n : nat) : M unit :=
  match n with
  | 0 => ret tt
  | S n' =>
      d <- ptr_sub d_last 1 ;;
      l <- ptr_sub last 1 ;;
      assign d l ;;;
      assign_backward assign l d n'
  end.

Definition move_backward (first last d_last : ptr) : M unit :=
  n <- ptr_distance first last ;; assign_backward assign_move last d_last n.

Definition copy_backward (first last d_last : ptr) : M unit :=
  n <- ptr_distance first last ;; assign_backward assign_copy last d_last n.

End Primitives.

(** ** [RawMemory<T>] *)

Section RawMemoryOps.
Context {T W : Type} `{Element T W}.
Local Abbreviation M := (@M T W).

(** [RawMemory() = default]: [buffer_ = nullptr], [capacity_ = 0]. *)
Definition RawMemory_default : RawMemory := mkRawMemory Null 0.

(** [explicit RawMemory(size_t capacity)]. *)
Definition RawMemory_new (capacity : nat) : M RawMemory :=
  buf <- Allocate capacity ;; ret (mkRawMemory buf capacity).

(** [~RawMemory()]. *)
Definition RawMemory_delete (r : RawMemory) : M unit :=
  Deallocate (buffer_ r).

(** [operator+(size_t offset)]. *)
Definition RawMemory_plus (r : RawMemory) (offset : nat) : M ptr :=
  assert (bool_decide (offset ≤ capacity_ r)) ;;;
  ret (ptr_add (buffer_ r) offset).

(** [operator[](size_t index)]; the reference is the address of the slot. *)
Definition RawMemory_at (r : RawMemory) (index : nat) : M ptr :=
  assert (bool_decide (index < capacity_ r)) ;;;
  ret (ptr_add (buffer_ r) index).

Definition GetAddress (r : RawMemory) : ptr := buffer_ r.

End RawMemoryOps.

(** ** [Vector<T>] *)

Section VectorOps.
Context {T W : Type} `{Element T W}.
Local Abbreviation M := (@M T W).

(** *** The object [*this] *)

Definition this_ (this : loc) : M Vector := λ s,
  match objs s !! this with
  | Some v => (Ret v, s)
  | None => (Undef, s)
  end.

Definition set_this (this : loc) (v : Vector) : M unit :=
  modify (set_objs (insert this v)).

(** The storage at [this] stops holding a [Vector]. *)
Definition drop_this (this : loc) : M unit :=
  modify (set_objs (delete this)).

Definition put_size (this : loc) (n : nat) : M unit :=
  v <- this_ this ;; set_this this (mkVector (data_ v) n).

Definition put_data (this : loc) (r : RawMemory) : M unit :=
  v <- this_ this ;; set_this this (mkVector r (size_ v)).

(** *** Accessors *)

Definition Size (this : loc) : M nat :=
  v <- this_ this ;; ret (size_ v).

Definition Capacity (this : loc) : M nat :=
  v <- this_ this ;; ret (capacity_ (data_ v)).

(** [operator[](size_t index)]. *)
Definition Vector_at (this : loc) (index : nat) : M ptr :=
  v <- this_ this ;;
  assert (bool_decide (index < size_ v)) ;;;
  RawMemory_at (data_ v) index.

(** [begin()], [cbegin()]. *)
Definition begin_ (this : loc) : M ptr :=
  v <- this_ this ;; ret (GetAddress (data_ v)).

(** [end()], [cend()]. *)
Definition end_ (this : loc) : M ptr :=
  v <- this_ this ;; ret (ptr_add (GetAddress (data_ v)) (size_ v)).

(** *** [Swap] *)

Definition Swap (this other : loc) : M unit :=
  (* std::swap(size_, other.size_) *)
  a <- this_ this ;;
  b <- this_ other ;;
  put_size this (size_ b) ;;;
  put_size other (size_ a) ;;;
  (* data_.Swap(other.data_) *)
  a <- this_ this ;;
  b <- this_ other ;;
  put_data this (data_ b) ;;;
  put_data other (data_ a).

(** *** Constructors and destructor *)

(** [Vector() = default]. *)
Definition Vector_default (this : loc) : M unit :=
  set_this this (mkVector RawMemory_default 0).

(** [explicit Vector(size_t size)].  When the body throws, the member
    [data_] is destroyed and no object comes to life at [this]. *)
Definition Vector_sized (this : loc) (size : nat) : M unit :=
  data <- RawMemory_new size ;;
  set_this this (mkVector data size) ;;;
  unwind (RawMemory_delete data ;;; drop_this this)
    (uninitialized_value_construct_n (GetAddress data) size).

(** [~Vector()], followed by the destructor of the member [data_]. *)
Definition Vector_destroy (this : loc) : M unit :=
  v <- this_ this ;;
  destroy_n (GetAddress (data_ v)) (size_ v) ;;;
  RawMemory_delete (data_ v) ;;;
  drop_this this.

(** [Vector(const Vector& other)]. *)
Definition Vector_copy (this other : loc) : M unit :=
  o <- this_ other ;;
  data <- RawMemory_new (size_ o) ;;
  set_this this (mkVector data (size_ o)) ;;;
  unwind (RawMemory_delete data ;;; drop_this this)
    (if is_nothrow_move_constructible || negb is_copy_constructible
     then uninitialized_move_n_const (GetAddress (data_ o)) (size_ o) (GetAddress data)
     else uninitialized_copy_n (GetAddress (data_ o)) (size_ o) (GetAddress data)).

(** [Vector(Vector&& other) noexcept]. *)
Definition Vector_move (this other : loc) : M unit :=
  set_this this (mkVector RawMemory_default 0) ;;;
  Swap this other.

(** *** Assignment *)

(** The loop [for (i = 0; i < copy_count; i++) operator[](i) = rhs[i]]. *)
Fixpoint assign_prefix (this rhs : loc) (i n : nat) : M unit :=
  match n with
  | 0 => ret tt
  | S n' =>
      d <- Vector_at this i ;;
      r <- Vector_at rhs i ;;
      assign_copy d r ;;;
      assign_prefix this rhs (S i) n'
  end.

(** [operator=(const Vector& rhs)].  The local [rhs_copy] lives at a
    location of its own until the end of its block. *)
Definition Vector_assign (this rhs : loc) : M unit :=
  if decide (this = rhs) then ret tt
  else
    v <- this_ this ;;
    r <- this_ rhs ;;
    if decide (capacity_ (data_ v) < size_ r) then
      rhs_copy <- gets (λ s, fresh (dom (objs s))) ;;
      Vector_copy rhs_copy rhs ;;;
      Swap this rhs_copy ;;;
      Vector_destroy rhs_copy
    else
      (if decide (size_ v < size_ r)
       then uninitialized_copy_n (ptr_add (GetAddress (data_ r)) (size_ v))
              (size_ r - size_ v) (ptr_add (GetAddress (data_ v)) (size_ v))
       else destroy_n (ptr_add (GetAddress (data_ v)) (size_ r))
              (size_ v - size_ r)) ;;;
      let copy_count := size_ v `min` size_ r in
      put_size this (size_ r) ;;;
      assign_prefix this rhs 0 copy_count.

(** [operator=(Vector&& rhs) noexcept]. *)
Definition Vector_assign_move (this rhs : loc) : M unit :=
  if decide (this = rhs) then ret tt
  else put_size this 0 ;;; Swap this rhs.

(** *** Capacity *)

(** The relocation of [n] elements into a new block, by the capability of
    [T]: [if constexpr (std::is_nothrow_move_constructible_v<T> ||
    !std::is_copy_constructible_v<T>)]. *)
Definition relocate_n (first : ptr) (n : nat) (d_first : ptr) : M unit :=
  if is_nothrow_move_constructible || negb is_copy_constructible
  then uninitialized_move_n first n d_first
  else uninitialized_copy_n first n d_first.

Definition Reserve (this : loc) (new_capacity : nat) : M unit :=
  v <- this_ this ;;
  if decide (new_capacity ≤ capacity_ (data_ v)) then ret tt
  else
    new_data <- RawMemory_new new_capacity ;;
    unwind (RawMemory_delete new_data)
      (relocate_n (GetAddress (data_ v)) (size_ v) (GetAddress new_data)) ;;;
    destroy_n (GetAddress (data_ v)) (size_ v) ;;;
    (* data_.Swap(new_data); new_data then dies with the old block *)
    put_data this new_data ;;;
    RawMemory_delete (data_ v).

Definition Resize (this : loc) (new_size : nat) : M unit :=
  v <- this_ this ;;
  (if decide (size_ v < new_size) then
     (if decide (capacity_ (data_ v) < new_size)
      then Reserve this new_size else ret tt) ;;;
     v <- this_ this ;;
     uninitialized_value_construct_n
       (ptr_add (GetAddress (data_ v)) (size_ v)) (new_size - size_ v)
   else
     destroy_n (ptr_add (GetAddress (data_ v)) new_size) (size_ v - new_size)) ;;;
  put_size this new_size.

(** *** Appending *)

(** The body shared by the two overloads of [PushBack], which differ in
    the constructor call only. *)
Definition PushBack_with (this : loc) (a : args T W) : M unit :=
  v <- this_ this ;;
  (if decide (size_ v = capacity_ (data_ v)) then
     new_data <- RawMemory_new (if decide (size_ v = 0) then 1 else size_ v * 2) ;;
     unwind (RawMemory_delete new_data)
       (p <- RawMemory_plus new_data (size_ v) ;;
        construct_args p a ;;;
        relocate_n (GetAddress (data_ v)) (size_ v) (GetAddress new_data)) ;;;
     (* data_.Swap(new_data) *)
     put_data this new_data ;;;
     destroy_n (GetAddress (data_ v)) (size_ v) ;;;
     RawMemory_delete (data_ v)
   else
     p <- RawMemory_plus (data_ v) (size_ v) ;;
     construct_args p a) ;;;
  put_size this (size_ v + 1).

(** [PushBack(const T& value)]. *)
Definition PushBack (this : loc) (value : T) : M unit :=
  PushBack_with this (ByCopy value).

(** [PushBack(T&& value)]. *)
Definition PushBack_rvalue (this : loc) (value : T) : M unit :=
  PushBack_with this (ByMove value).

Definition PopBack (this : loc) : M unit :=
  v <- this_ this ;;
  if decide (size_ v = 0) then ret tt
  else
    put_size this (size_ v - 1) ;;;
    destroy_n (ptr_add (GetAddress (data_ v)) (size_ v - 1)) 1.

Definition EmplaceBack (this : loc) (a : args T W) : M ptr :=
  v <- this_ this ;;
  (if decide (size_ v = capacity_ (data_ v)) then
     new_data <- RawMemory_new (if decide (size_ v = 0) then 1 else size_ v * 2) ;;
     unwind (RawMemory_delete new_data)
       (construct_args (ptr_add (GetAddress new_data) (size_ v)) a ;;;
        relocate_n (GetAddress (data_ v)) (size_ v) (GetAddress new_data)) ;;;
     put_data this new_data ;;;
     destroy_n (GetAddress (data_ v)) (size_ v) ;;;
     RawMemory_delete (data_ v)
   else
     p <- RawMemory_plus (data_ v) (size_ v) ;;
     construct_args p a) ;;;
  put_size this (size_ v + 1) ;;;
  v' <- this_ this ;;
  RawMemory_at (data_ v') (size_ v' - 1).

(** *** Insertion and removal *)

Definition Emplace (this : loc) (pos : ptr) (a : args T W) : M ptr :=
  b <- begin_ this ;;
  cursor <- ptr_distance b pos ;;
  e <- end_ this ;;
  d <- ptr_distance pos e ;;
  (if decide (d = 0) then
     _ <- EmplaceBack this a ;; ret tt
   else
     v <- this_ this ;;
     (if decide (size_ v = capacity_ (data_ v)) then
        new_data <- RawMemory_new (if decide (size_ v = 0) then 1 else size_ v * 2) ;;
        unwind (RawMemory_delete new_data)
          (construct_args (ptr_add (GetAddress new_data) cursor) a ;;;
           if is_nothrow_move_constructible || negb is_copy_constructible then
             uninitialized_move b pos (GetAddress new_data) ;;;
             uninitialized_move pos e (ptr_add (ptr_add (GetAddress new_data) cursor) 1)
           else
             uninitialized_copy b pos (GetAddress new_data) ;;;
             uninitialized_copy pos e (ptr_add (ptr_add (GetAddress new_data) cursor) 1)) ;;;
        put_data this new_data ;;;
        destroy_n (GetAddress (data_ v)) (size_ v) ;;;
        RawMemory_delete (data_ v)
      else
        new_value <- RawMemory_new 1 ;;
        unwind (RawMemory_delete new_value)
          (construct_args (GetAddress new_value) a ;;;
           last <- ptr_sub e 1 ;;
           if is_nothrow_move_assignable || negb is_copy_assignable then
             uninitialized_move_n last 1 e ;;;
             move_backward pos last e ;;;
             assign_move (ptr_add (GetAddress (data_ v)) cursor) (GetAddress new_value)
           else
             uninitialized_copy_n last 1 e ;;;
             copy_backward pos last e ;;;
             assign_copy (ptr_add (GetAddress (data_ v)) cursor) (GetAddress new_value)) ;;;
        destroy_n (GetAddress new_value) 1 ;;;
        RawMemory_delete new_value) ;;;
     put_size this (size_ v + 1)) ;;;
  v' <- this_ this ;;
  ret (ptr_add (GetAddress (data_ v')) cursor).

(** [Erase(pos)].  A [pos] that cannot be dereferenced, in particular any
    [pos] of an empty array, is already outside the contract of the
    assignment loop, so [--size_] never meets zero. *)
Definition Erase (this : loc) (pos : ptr) : M ptr :=
  e <- end_ this ;;
  (if is_nothrow_move_assignable
   then std_move (ptr_add pos 1) e pos
   else std_copy (ptr_add pos 1) e pos) ;;;
  v <- this_ this ;;
  put_size this (size_ v - 1) ;;;
  destroy_n (ptr_add (GetAddress (data_ v)) (size_ v - 1)) 1 ;;;
  ret pos.

(** [Insert(pos, const T& value)]. *)
Definition Insert (this : loc) (pos : ptr) (value : T) : M ptr :=
  Emplace this pos (ByCopy value).

(** [Insert(pos, T&& value)]. *)
Definition Insert_rvalue (this : loc) (pos : ptr) (value : T) : M ptr :=
  Emplace this pos (ByMove value).

End VectorOps.

(** ** What an array holds *)

Section Representation.
Context {T W : Type} `{Element T W}.
Local Abbreviation state := (@state T W).

(** The block a buffer pointer owns: none for the null pointer. *)
Definition block_at (m : gmap addr (list (option T))) (p : ptr)
    (slots : list (option T)) : Prop :=
  match p with
  | Null => slots = []
  | Ptr b off => off = 0 ∧ m !! b = Some slots
  end.

(** The heap after the block of [p] is overwritten, or given back. *)
Definition put_block (p : ptr) (l : list (option T))
    (m : gmap addr (list (option T))) : gmap addr (list (option T)) :=
  match p with
  | Null => m
  | Ptr b _ => <[b := l]> m
  end.

Definition drop_block (p : ptr) (m : gmap addr (list (option T)))
    : gmap addr (list (option T)) :=
  match p with
  | Null => m
  | Ptr b _ => delete b m
  end.

(** [p] does not point into block [bd]. *)
Definition other_block (p : ptr) (bd : addr) : Prop :=
  match p with
  | Null => True
  | Ptr b _ => b ≠ bd
  end.

(** The invariant of [Vector] and its abstraction in one predicate: the
    object at [this] has the elements [xs], in this order, in a buffer of
    [c] slots.  Slots [0 .. size) hold the live elements, slots
    [size .. capacity) are raw storage. *)
Definition Rep (s : state) (this : loc) (xs : list T) (c : nat) : Prop :=
  ∃ v, objs s !! this = Some v ∧
       size_ v = length xs ∧
       capacity_ (data_ v) = c ∧
       length xs ≤ c ∧
       block_at (mem s) (buffer_ (data_ v))
         ((Some <$> xs) ++ replicate (c - length xs) None).

(** The capacity [PushBack], [EmplaceBack] and [Emplace] ask for when the
    array is full: [size_ == 0 ? 1 : size_ * 2]. *)
Definition grown (size : nat) : nat := if decide (size = 0) then 1 else size * 2.

(** Relocating an element can fail: the copy constructor or the move
    constructor of [T] throws for some value. *)
Definition relocation_can_throw : Prop :=
  (∃ v w, (T_copy v w).1 = None) ∨ (∃ v w, (T_move v w).1.1 = None).

(** The memory system refuses the block of [n] elements that is asked for
    in state [s]: [operator new] throws [std::bad_alloc]. *)
Definition allocation_fails (n : nat) (s : state) : Prop :=
  operator_new (bytes_of n) (env s) = false.


(** The invariant alone. *)
Definition well_formed (s : state) (this : loc) : Prop :=
  ∃ xs c, Rep s this xs c.

(** The same, as a test that evaluates. *)
Definition slot_is_live (x : option T) : bool :=
  match x with Some _ => true | None => false end.

Definition well_formedb (s : state) (this : loc) : bool :=
  match objs s !! this with
  | None => false
  | Some v =>
      match buffer_ (data_ v) with
      | Null => bool_decide (size_ v = 0 ∧ capacity_ (data_ v) = 0)
      | Ptr b off =>
          match mem s !! b with
          | None => false
          | Some slots =>
              bool_decide (off = 0 ∧ size_ v ≤ capacity_ (data_ v) ∧
                           length slots = capacity_ (data_ v))
              && forallb slot_is_live (take (size_ v) slots)
              && forallb (negb ∘ slot_is_live) (drop (size_ v) slots)
          end
      end
  end.

End Representation.

(** ** Sample element types *)

(** Natural numbers that count their copies; no operation throws, moving
    leaves a zero behind. *)
Definition counted : Element nat nat := {|
  is_nothrow_move_constructible := true;
  is_copy_constructible := true;
  is_nothrow_move_assignable := true;
  is_copy_assignable := true;
  T_default := λ w, (Some 0, w);
  T_copy := λ v w, (Some v, S w);
  T_move := λ v w, (Some v, 0, w);
  T_copy_assign := λ _ v w, (true, v, S w);
  T_move_assign := λ _ v w, (true, v, 0, w);
  T_destroy := λ _ w, w;
  sizeof_T := 4;
  sizeof_fits := eq_refl;
  operator_new := λ _ _, true
|}.

(** A move-only type whose move constructor is not [noexcept]: moving the
    value 7 throws, moving anything else leaves a zero behind. *)
Definition move_only : Element nat unit := {|
  is_nothrow_move_constructible := false;
  is_copy_constructible := false;
  is_nothrow_move_assignable := false;
  is_copy_assignable := false;
  T_default := λ w, (Some 0, w);
  T_copy := λ v w, (None, w);
  T_move := λ v w, if decide (v = 7) then (None, v, w) else (Some v, 0, w);
  T_copy_assign := λ d _ w, (false, d, w);
  T_move_assign := λ _ v w, (true, v, 0, w);
  T_destroy := λ _ w, w;
  sizeof_T := 4;
  sizeof_fits := eq_refl;
  operator_new := λ _ _, true
|}.

(** A copyable type with a [noexcept] move constructor and a move
    assignment that is not declared [noexcept]. *)
Definition careful_assign : Element nat unit := {|
  is_nothrow_move_constructible := true;
  is_copy_constructible := true;
  is_nothrow_move_assignable := false;
  is_copy_assignable := true;
  T_default := λ w, (Some 0, w);
  T_copy := λ v w, (Some v, w);
  T_move := λ v w, (Some v, 0, w);
  T_copy_assign := λ _ v w, (true, v, w);
  T_move_assign := λ _ v w, (true, v, 0, w);
  T_destroy := λ _ w, w;
  sizeof_T := 4;
  sizeof_fits := eq_refl;
  operator_new := λ _ _, true
|}.

(** A copyable type whose copy constructor throws for the value 7 and
    whose move operations are not declared [noexcept]. *)
Definition fragile_copy : Element nat unit := {|
  is_nothrow_move_constructible := false;
  is_copy_constructible := true;
  is_nothrow_move_assignable := false;
  is_copy_assignable := true;
  T_default := λ w, (Some 0, w);
  T_copy := λ v w, if decide (v = 7) then (None, w) else (Some v, w);
  T_move := λ v w, (Some v, 0, w);
  T_copy_assign := λ _ v w, (true, v, w);
  T_move_assign := λ _ v w, (true, v, 0, w);
  T_destroy := λ _ w, w;
  sizeof_T := 4;
  sizeof_fits := eq_refl;
  operator_new := λ _ _, true
|}.

(** Natural numbers that count their copies, on a memory system that
    grants no request above 12 bytes. *)
Definition scarce : Element nat nat := {|
  is_nothrow_move_constructible := true;
  is_copy_constructible := true;
  is_nothrow_move_assignable := true;
  is_copy_assignable := true;
  T_default := λ w, (Some 0, w);
  T_copy := λ v w, (Some v, S w);
  T_move := λ v w, (Some v, 0, w);
  T_copy_assign := λ _ v w, (true, v, S w);
  T_move_assign := λ _ v w, (true, v, 0, w);
  T_destroy := λ _ w, w;
  sizeof_T := 4;
  sizeof_fits := eq_refl;
  operator_new := λ bytes _, (bytes <=? 12)%N
|}.

(** A type of 2^62 bytes, as one with a large array member is; the memory
    system grants no request above 1024 bytes. *)
Definition huge : Element nat unit := {|
  is_nothrow_move_constructible := true;
  is_copy_constructible := true;
  is_nothrow_move_assignable := true;
  is_copy_assignable := true;
  T_default := λ w, (Some 0, w);
  T_copy := λ v w, (Some v, w);
  T_move := λ v w, (Some v, 0, w);
  T_copy_assign := λ _ v w, (true, v, w);
  T_move_assign := λ _ v w, (true, v, 0, w);
  T_destroy := λ _ w, w;
  sizeof_T := 4611686018427387904;
  sizeof_fits := eq_refl;
  operator_new := λ bytes _, (bytes <=? 1024)%N
|}.

(** The empty store. *)
Definition initial {T W : Type} (w : W) : @state T W :=
  mkState ∅ ∅ w [].

(** ** Observers and clients *)

Section Observers.
Context {T W : Type} `{Element T W}.
Local Abbreviation M := (@M T W).
Local Abbreviation state := (@state T W).

(** The live elements of the array at [this], read slot by slot. *)
Definition elements (s : state) (this : loc) : option (list T) :=
  match objs s !! this with
  | None => None
  | Some v =>
      match buffer_ (data_ v) with
      | Null => if decide (size_ v = 0) then Some [] else None
      | Ptr b off =>
          match mem s !! b with
          | None => None
          | Some slots => mapM id (take (size_ v) (drop off slots))
          end
      end
  end.

(** Two arrays keep their elements in different blocks. *)
Definition disjoint_storage (s : state) (x y : loc) : Prop :=
  ∀ vx vy, objs s !! x = Some vx → objs s !! y = Some vy →
    match buffer_ (data_ vx), buffer_ (data_ vy) with
    | Ptr b _, Ptr b' _ => b ≠ b'
    | _, _ => True
    end.

(** A mutation of element [i] through the reference [operator[]] returns,
    after which the element has the value [z]. *)
Definition poke (this : loc) (i : nat) (z : T) : M unit :=
  p <- Vector_at this i ;; put_slot p (Some z).

(** A client that appends the values one after the other. *)
Fixpoint PushBack_all (this : loc) (values : list T) : M unit :=
  match values with
  | [] => ret tt
  | v :: vs => PushBack this v ;;; PushBack_all this vs
  end.


(** [sat m s Q]: the run of [m] from [s] ends in an outcome and a state
    that satisfy [Q]. *)
Definition sat {A} (m : M A) (s : state) (Q : outcome A → state → Prop) : Prop :=
  Q (m s).1 (m s).2.

(** The element operations of the shifting code that moves [n] elements
    and the last one: [if constexpr (std::is_nothrow_move_assignable_v<T>
    || !std::is_copy_assignable_v<T>)]. *)
Definition shift_events (n : nat) : list event :=
  if is_nothrow_move_assignable || negb is_copy_assignable
  then EvMove :: replicate n EvMoveAssign ++ [EvMoveAssign]
  else EvCopy :: replicate n EvCopyAssign ++ [EvCopyAssign].


(** What the shifting code needs of an assignment between two live
    slots: it runs, and leaves its value in the destination when it returns. *)
Definition assigns (ev : event) (assign : ptr → ptr → M unit) : Prop :=
  ∀ bd bs i j ld d v (s : state) (Q : outcome unit → state → Prop),
    mem s !! bd = Some ld → ld !! i = Some (Some d) →
    (∃ ls, mem s !! bs = Some ls ∧ ls !! j = Some (Some v)) →
    (∀ s' d' r o, o ≠ Undef → objs s' = objs s → trace s' = trace s ++ [ev] →
       (∀ ls, mem s !! bs = Some ls →
          mem s' = alter (insert i (Some d')) bd (<[bs := <[j := Some r]> ls]> (mem s))) →
       (o = Ret tt → ValueSemantics T W → d' = v) → Q o s') →
    sat (assign (Ptr bd i) (Ptr bs j)) s Q.

(** What the shifting code needs of a construction from a live slot of
    the same block. *)
Definition constructs (ev : event) (construct : ptr → ptr → M unit) : Prop :=
  ∀ b l i j v (s : state) (Q : outcome unit → state → Prop),
    mem s !! b = Some l → i < length l → l !! j = Some (Some v) →
    (∀ s' v' r, objs s' = objs s → trace s' = trace s ++ [ev] →
       mem s' = <[b := <[i := Some v']> (<[j := Some r]> l)]> (mem s) →
       (ValueSemantics T W → v' = v) → Q (Ret tt) s') →
    (∀ s' r, objs s' = objs s →
       mem s' = <[b := <[j := Some r]> l]> (mem s) → Q Throw s') →
    sat (construct (Ptr b i) (Ptr b j)) s Q.

(** The shape shared by the two branches of the shifting code. *)
Definition shift_right (construct assign : ptr → ptr → M unit)
    (pos last e slot holder : ptr) : M unit :=
  uninitialized_loop (λ k, construct (ptr_add e k) (ptr_add last k)) e 0 1 ;;;
  (n <- ptr_distance pos last ;; assign_backward assign last e n) ;;;
  assign slot holder.

(** What a call of [Emplace] at position [dpos] guarantees. *)
Definition Emplace_post (this : loc) (dpos : nat) (a : args T W) (xs : list T)
    (c : nat) (s : state) : outcome ptr → state → Prop := λ o s',
  match o with
  | Ret p =>
      ∃ ys y v', (args_run a (env s)).1 = Some y ∧
        objs s' !! this = Some v' ∧
        p = ptr_add (buffer_ (data_ v')) dpos ∧
        length ys = S (length xs) ∧
        (ValueSemantics T W → ys = take dpos xs ++ y :: drop dpos xs) ∧
        Rep s' this ys (if decide (length xs = c) then grown c else c) ∧
        (dpos < length xs → length xs < c →
         trace s' = trace s ++ args_event a ::
                      shift_events (length xs - 1 - dpos) ++ [EvDestroy])
  | Throw => True
  | Undef => False
  end.

End Observers.

(** ** Sample clients

    The states some short client programs reach from the empty store. *)

Section CountedRuns.
#[local] Existing Instance counted.


(** [Vector<T> v; v.PushBack(1); v.PushBack(2);] *)
Definition counted_12 : @state nat nat :=
  ((Vector_default 0 ;;; PushBack 0 1 ;;; PushBack 0 2) (initial 0)).2.

(** [Vector<T> v; v.PushBack(1); v.PushBack(2); v.PushBack(3);] *)
Definition counted_123 : @state nat nat :=
  ((Vector_default 0 ;;; PushBack 0 1 ;;; PushBack 0 2 ;;; PushBack 0 3)
     (initial 0)).2.

(** [Vector<T> x; x.PushBack(1); Vector<T> y;] *)
Definition counted_pair : @state nat nat :=
  ((Vector_default 0 ;;; PushBack 0 1 ;;; Vector_default 1) (initial 0)).2.

(** [x = std::move(y);] after the above, and then the end of both
    lifetimes. *)
Definition counted_pair_gone : outcome unit * @state nat nat :=
  (Vector_assign_move 0 1 ;;; Vector_destroy 1 ;;; Vector_destroy 0)
    counted_pair.

(** The store before any array exists. *)
Definition counted_fresh : @state nat nat := initial 0.

(** [Vector<T> v; v.Reserve(4);] *)
Definition counted_reserved : @state nat nat :=
  ((Vector_default 0 ;;; Reserve 0 4) (initial 0)).2.

(** [Vector<T> x; x.PushBack(1); x.PushBack(2); x.PushBack(3);
    Vector<T> y; y.PushBack(7); y.PushBack(8);] *)
Definition counted_two : @state nat nat :=
  ((Vector_default 0 ;;; PushBack 0 1 ;;; PushBack 0 2 ;;; PushBack 0 3 ;;;
    Vector_default 1 ;;; PushBack 1 7 ;;; PushBack 1 8) (initial 0)).2.

End CountedRuns.

Section FragileRuns.
#[local] Existing Instance fragile_copy.

(** [Vector<T> v; v.EmplaceBack(1); v.EmplaceBack(7);] *)
Definition fragile_17 : @state nat unit :=
  ((Vector_default 0 ;;; EmplaceBack 0 (ByCtor (λ w, (Some 1, w))) ;;;
    EmplaceBack 0 (ByCtor (λ w, (Some 7, w)))) (initial tt)).2.

End FragileRuns.

Section MoveOnlyRuns.
#[local] Existing Instance move_only.

(** [Vector<T> v; v.EmplaceBack(1); v.EmplaceBack(7);] *)
Definition move_only_17 : @state nat unit :=
  ((Vector_default 0 ;;; EmplaceBack 0 (ByCtor (λ w, (Some 1, w))) ;;;
    EmplaceBack 0 (ByCtor (λ w, (Some 7, w)))) (initial tt)).2.

End MoveOnlyRuns.

Section ScarceRuns.
#[local] Existing Instance scarce.

(** [Vector<T> v; v.PushBack(1); v.PushBack(2);] *)
Definition scarce_12 : @state nat nat :=
  ((Vector_default 0 ;;; PushBack 0 1 ;;; PushBack 0 2) (initial 0)).2.

End ScarceRuns.

Section HugeRuns.
#[local] Existing Instance huge.

(** [Vector<T> v;] *)
Definition huge_empty : @state nat unit :=
  (Vector_default 0 (initial tt)).2.

End HugeRuns.

Section CarefulRuns.
#[local] Existing Instance careful_assign.

(** [Vector<T> v; v.PushBack(1); v.PushBack(2); v.PushBack(3);] *)
Definition careful_123 : @state nat unit :=
  ((Vector_default 0 ;;; PushBack 0 1 ;;; PushBack 0 2 ;;; PushBack 0 3)
     (initial tt)).2.

End CarefulRuns.

(** * Reasoning about runs *)

(** Projections of a state after a step. *)
Ltac st := cbn [mem objs env trace set_mem set_objs set_env log] in *.

Section Logic.
Context {T W : Type} `{Element T W}.
Local Abbreviation M := (@M T W).
Local Abbreviation state := (@state T W).

Lemma sat_run {A} (m : M A) s Q o s' : sat m s Q → m s = (o, s') → Q o s'.
Proof. unfold sat. intros HQ E. by rewrite E in HQ. Qed.

Lemma sat_mono {A} (m : M A) s (Q Q' : outcome A → state → Prop) :
  sat m s Q → (∀ o s', Q o s' → Q' o s') → sat m s Q'.
Proof. unfold sat. auto. Qed.

Lemma sat_ret {A} (a : A) s (Q : outcome A → state → Prop) :
  Q (Ret a) s → sat (ret a) s Q.
Proof. done. Qed.

Lemma sat_throw {A} s (Q : outcome A → state → Prop) :
  Q Throw s → sat throw s Q.
Proof. done. Qed.

Lemma sat_bind {A B} (m : M A) (k : A → M B) s (Q : outcome B → state → Prop) :
  sat m s (λ o s1,
    match o with
    | Ret a => sat (k a) s1 Q
    | Throw => Q Throw s1
    | Undef => Q Undef s1
    end) →
  sat (bind m k) s Q.
Proof. unfold sat, bind. by destruct (m s) as [[a| |] s1]. Qed.

Lemma sat_unwind {A} (cleanup : M unit) (body : M A) s
    (Q : outcome A → state → Prop) :
  sat body s (λ o s1,
    match o with
    | Throw => sat cleanup s1 (λ o2 s2,
                 match o2 with Ret _ => Q Throw s2 | _ => Q Undef s2 end)
    | _ => Q o s1
    end) →
  sat (unwind cleanup body) s Q.
Proof.
  unfold sat, unwind. destruct (body s) as [[a| |] s1]; simpl; try done.
  by destruct (cleanup s1) as [[a| |] s2].
Qed.

Lemma sat_assert (b : bool) s (Q : outcome unit → state → Prop) :
  b = true → Q (Ret tt) s → sat (assert b) s Q.
Proof. by intros ->. Qed.

Lemma sat_modify f s (Q : outcome unit → state → Prop) :
  Q (Ret tt) (f s) → sat (modify f) s Q.
Proof. done. Qed.

Lemma sat_gets {A} (f : state → A) s (Q : outcome A → state → Prop) :
  Q (Ret (f s)) s → sat (gets f) s Q.
Proof. done. Qed.

Lemma sat_elem {A} (e : event) (f : W → A * W) s (Q : outcome A → state → Prop) :
  Q (Ret (f (env s)).1) (log e (set_env (f (env s)).2 s)) → sat (elem e f) s Q.
Proof. unfold sat, elem. by destruct (f (env s)). Qed.

Lemma sat_load b i l v s (Q : outcome T → state → Prop) :
  mem s !! b = Some l → l !! i = Some (Some v) →
  Q (Ret v) s → sat (load (Ptr b i)) s Q.
Proof. unfold sat, load. by intros -> ->. Qed.

Lemma sat_put_slot b i l x s (Q : outcome unit → state → Prop) :
  mem s !! b = Some l → i < length l →
  Q (Ret tt) (set_mem (insert b (<[i:=x]> l)) s) →
  sat (put_slot (Ptr b i) x) s Q.
Proof. unfold sat, put_slot. intros -> Hi. by rewrite decide_True. Qed.

Lemma sat_this this v s (Q : outcome Vector → state → Prop) :
  objs s !! this = Some v → Q (Ret v) s → sat (this_ this) s Q.
Proof. unfold sat, this_. by intros ->. Qed.

Lemma sat_put_size this v n s (Q : outcome unit → state → Prop) :
  objs s !! this = Some v →
  Q (Ret tt) (set_objs (insert this (mkVector (data_ v) n)) s) →
  sat (put_size this n) s Q.
Proof. unfold sat, put_size, bind, this_. by intros ->. Qed.

Lemma sat_put_data this v r s (Q : outcome unit → state → Prop) :
  objs s !! this = Some v →
  Q (Ret tt) (set_objs (insert this (mkVector r (size_ v))) s) →
  sat (put_data this r) s Q.
Proof. unfold sat, put_data, bind, this_. by intros ->. Qed.

(** A count whose bytes do not wrap gets a block of that many slots. *)
Lemma fits_slots n : fits n → slots_of (bytes_of n) = n.
Proof.
  unfold fits, slots_of, bytes_of. intros Hn.
  rewrite N.mod_small, N.div_mul by done. apply Nat2N.id.
Qed.


Lemma fits_1 : fits 1.
Proof. unfold fits. pose proof sizeof_fits. lia. Qed.

Lemma sat_Allocate n s (Q : outcome ptr → state → Prop) :
  n ≠ 0 → fits n →
  (operator_new (bytes_of n) (env s) = false → Q Throw s) →
  (∀ b, mem s !! b = None →
        Q (Ret (Ptr b 0)) (set_mem (insert b (replicate n None)) s)) →
  sat (Allocate n) s Q.
Proof.
  intros Hn Hfit HT HQ. unfold sat, Allocate. rewrite decide_False by done.
  destruct (operator_new (bytes_of n) (env s)); [|by apply HT].
  rewrite fits_slots by done. apply HQ, not_elem_of_dom, is_fresh.
Qed.

Lemma sat_Deallocate b l s (Q : outcome unit → state → Prop) :
  mem s !! b = Some l → Q (Ret tt) (set_mem (delete b) s) →
  sat (Deallocate (Ptr b 0)) s Q.
Proof. unfold sat, Deallocate. by intros ->. Qed.

Lemma sat_Deallocate_null s (Q : outcome unit → state → Prop) :
  Q (Ret tt) s → sat (Deallocate Null) s Q.
Proof. done. Qed.

Lemma list_insert_mid {A} (pre post : list A) x y :
  <[length pre := y]> (pre ++ x :: post) = pre ++ y :: post.
Proof.
  rewrite <-(Nat.add_0_r (length pre)), insert_app_r. done.
Qed.

Lemma sat_destroy_n ys : ∀ pre post b s (Q : outcome unit → state → Prop),
  mem s !! b = Some (pre ++ (Some <$> ys) ++ post) →
  (∀ s', mem s' = <[b := pre ++ replicate (length ys) None ++ post]> (mem s) →
         objs s' = objs s → Q (Ret tt) s') →
  sat (destroy_n (Ptr b (length pre)) (length ys)) s Q.
Proof.
  induction ys as [|y ys IH]; intros pre post b s Q Hm HQ.
  - apply sat_ret, HQ; [|done]. by rewrite insert_id.
  - rewrite fmap_cons in Hm. cbn [app] in Hm. cbn [destroy_n length]. apply sat_bind. unfold destroy_at.
    apply sat_bind. eapply sat_load; [exact Hm | by apply list_lookup_middle |].
    apply sat_bind, sat_elem.
    eapply sat_put_slot; st; [exact Hm | |].
    { rewrite length_app. simpl. lia. }
    replace (ptr_add (Ptr b (length pre)) 1) with (Ptr b (length (pre ++ [None])))
      by (rewrite length_app; done).
    rewrite list_insert_mid.
    eapply (IH (pre ++ [None]) post); st.
    + rewrite lookup_insert_eq. by rewrite <-app_assoc.
    + intros s' Hm' Ho'. apply HQ; [|done].
      rewrite Hm', insert_insert_eq. by rewrite <-app_assoc.
Qed.

Lemma lookup_seg {A} (pre a post : list A) x :
  (pre ++ a ++ x :: post) !! (length pre + length a) = Some x.
Proof. rewrite app_assoc, <-length_app. by apply list_lookup_middle. Qed.

Lemma insert_seg {A} (pre a post : list A) x y :
  <[length pre + length a := y]> (pre ++ a ++ x :: post) = pre ++ a ++ y :: post.
Proof. by rewrite !app_assoc, <-length_app, list_insert_mid. Qed.

Lemma length_seg {A} (pre a post : list A) x :
  length pre + length a < length (pre ++ a ++ x :: post).
Proof. rewrite !length_app. simpl. lia. Qed.

Lemma lookup_live {X} (pre post : list (option X)) (a : list X) x n :
  n = length a →
  (pre ++ (Some <$> a) ++ x :: post) !! (length pre + n) = Some x.
Proof. intros ->. rewrite <-(length_fmap Some a). apply lookup_seg. Qed.

Lemma insert_live {X} (pre post : list (option X)) (a : list X) x y n :
  n = length a →
  <[length pre + n := Some y]> (pre ++ (Some <$> a) ++ x :: post) =
  pre ++ (Some <$> a ++ [y]) ++ post.
Proof.
  intros ->. rewrite <-(length_fmap Some a), insert_seg.
  by rewrite fmap_app, <-app_assoc.
Qed.

Lemma length_live {X} (pre post : list (option X)) (a : list X) x n :
  n = length a →
  length pre + n < length (pre ++ (Some <$> a) ++ x :: post).
Proof. intros ->. rewrite <-(length_fmap Some a). apply length_seg. Qed.

Lemma sat_construct_copy bs i ls z bd j ld s (Q : outcome unit → state → Prop) :
  mem s !! bs = Some ls → ls !! i = Some (Some z) →
  mem s !! bd = Some ld → j < length ld →
  (∀ s' z' w', T_copy z (env s) = (Some z', w') →
     mem s' = <[bd := <[j := Some z']> ld]> (mem s) → objs s' = objs s →
     Q (Ret tt) s') →
  (∀ s', (T_copy z (env s)).1 = None →
     mem s' = mem s → objs s' = objs s → Q Throw s') →
  sat (construct_copy (Ptr bd j) (Ptr bs i)) s Q.
Proof.
  intros Hs Hi Hd Hj HR HT. unfold construct_copy.
  apply sat_bind. eapply sat_load; [done..|].
  apply sat_bind, sat_elem.
  destruct (T_copy z (env s)) as [[z'|] w'] eqn:E; cbn [fst snd].
  - eapply sat_put_slot; [done..|]. by eapply HR.
  - apply sat_throw. apply HT; [by rewrite ?E|done..].
Qed.

Lemma sat_construct_move bs i ls z bd j ld s (Q : outcome unit → state → Prop) :
  bs ≠ bd →
  mem s !! bs = Some ls → ls !! i = Some (Some z) →
  mem s !! bd = Some ld → j < length ld →
  (∀ s' z' r w', T_move z (env s) = (Some z', r, w') →
     mem s' = <[bd := <[j := Some z']> ld]> (<[bs := <[i := Some r]> ls]> (mem s)) →
     objs s' = objs s → Q (Ret tt) s') →
  (∀ s' r w', T_move z (env s) = (None, r, w') →
     mem s' = <[bs := <[i := Some r]> ls]> (mem s) → objs s' = objs s →
     Q Throw s') →
  sat (construct_move (Ptr bd j) (Ptr bs i)) s Q.
Proof.
  intros Hne Hs Hi Hd Hj HR HT. unfold construct_move.
  apply sat_bind. eapply sat_load; [done..|].
  apply sat_bind, sat_elem.
  destruct (T_move z (env s)) as [[o r] w'] eqn:E; cbn [fst snd].
  apply sat_bind. eapply sat_put_slot; [done | by eapply lookup_lt_Some |].
  destruct o as [z'|].
  - eapply sat_put_slot; st; [by rewrite lookup_insert_ne | done |].
    by eapply HR.
  - apply sat_throw. by eapply HT.
Qed.

Lemma sat_uninitialized_copy zs : ∀ xs ys spre spost pre post bs bd s
    (Q : outcome unit → state → Prop),
  bs ≠ bd →
  length xs = length ys →
  mem s !! bs = Some (spre ++ (Some <$> xs ++ zs) ++ spost) →
  mem s !! bd = Some (pre ++ (Some <$> ys) ++ replicate (length zs) None ++ post) →
  (∀ s' zs', length zs' = length zs →
     mem s' = <[bd := pre ++ (Some <$> ys ++ zs') ++ post]> (mem s) →
     objs s' = objs s → (ValueSemantics T W → zs' = zs) → Q (Ret tt) s') →
  (∀ s', relocation_can_throw →
     mem s' = <[bd := pre ++ replicate (length ys + length zs) None ++ post]> (mem s) →
     objs s' = objs s → Q Throw s') →
  sat (uninitialized_loop
         (λ k, construct_copy (Ptr bd (length pre + k)) (Ptr bs (length spre + k)))
         (Ptr bd (length pre)) (length ys) (length zs)) s Q.
Proof.
  induction zs as [|z zs IH]; intros xs ys spre spost pre post bs bd s Q Hne Hlen Hs Hd HR HT.
  - apply sat_ret. apply (HR s []); try done.
    rewrite app_nil_r. cbn [replicate app] in Hd. by rewrite insert_id.
  - cbn [uninitialized_loop length]. apply sat_bind, sat_unwind.
    cbn [replicate length app] in Hd.
    eapply sat_construct_copy; [exact Hs | | exact Hd | | |].
    { rewrite fmap_app, fmap_cons, <-app_assoc. cbn [app].
      rewrite <-Hlen, <-(length_fmap Some xs). apply lookup_seg. }
    { rewrite <-(length_fmap Some ys). apply length_seg. }
    + intros s1 z' w' E Hm1 Ho1.
      rewrite <-(length_fmap Some ys), insert_seg in Hm1.
      replace (S (length ys)) with (length (ys ++ [z'])) by (rewrite length_app; simpl; lia).
      eapply (IH (xs ++ [z]) (ys ++ [z'])).
      * done.
      * rewrite !length_app. simpl. lia.
      * rewrite Hm1. rewrite lookup_insert_ne by done. by rewrite <-app_assoc.
      * rewrite Hm1, lookup_insert_eq. by rewrite fmap_app, <-!app_assoc.
      * intros s' zs' Hl Hm' Ho' Hv. apply (HR s' (z' :: zs')).
        -- simpl. lia.
        -- rewrite Hm', Hm1, insert_insert_eq. by rewrite <-app_assoc.
        -- congruence.
        -- intros HV. rewrite (Hv HV). f_equal. by eapply copy_value.
      * intros s' Hc Hm' Ho'. apply HT; [done| |congruence].
        rewrite Hm', Hm1, insert_insert_eq. rewrite length_app. simpl.
        by replace (length ys + 1 + length zs) with (length ys + S (length zs)) by lia.
    + intros s1 Hc Hm1 Ho1. eapply (sat_destroy_n ys pre); [by rewrite Hm1|].
      intros s' Hm' Ho'. apply HT; [left; by exists z, (env s)| |congruence].
      rewrite Hm', Hm1. do 2 f_equal. rewrite (replicate_add (length ys)). by rewrite <-app_assoc.
Qed.


Lemma insert2_collapse {A} (m : gmap addr A) bs bd D S d1 s1 :
  bs ≠ bd →
  <[bd := D]> (<[bs := S]> (<[bd := d1]> (<[bs := s1]> m))) =
  <[bd := D]> (<[bs := S]> m).
Proof.
  intros Hne. rewrite (insert_insert_ne _ bs bd) by done.
  by rewrite insert_insert_eq, insert_insert_eq.
Qed.

Lemma sat_uninitialized_move zs : ∀ rs ys spre spost pre post bs bd s
    (Q : outcome unit → state → Prop),
  bs ≠ bd →
  length rs = length ys →
  mem s !! bs = Some (spre ++ (Some <$> rs) ++ (Some <$> zs) ++ spost) →
  mem s !! bd = Some (pre ++ (Some <$> ys) ++ replicate (length zs) None ++ post) →
  (∀ s' zs' rs', length zs' = length zs → length rs' = length zs →
     mem s' = <[bd := pre ++ (Some <$> ys ++ zs') ++ post]>
                (<[bs := spre ++ (Some <$> rs ++ rs') ++ spost]> (mem s)) →
     objs s' = objs s → (ValueSemantics T W → zs' = zs) → Q (Ret tt) s') →
  (∀ s' rs', relocation_can_throw → length rs' = length zs →
     mem s' = <[bd := pre ++ replicate (length ys + length zs) None ++ post]>
                (<[bs := spre ++ (Some <$> rs ++ rs') ++ spost]> (mem s)) →
     objs s' = objs s → (Noexcept T W → is_nothrow_move_constructible = false) →
     Q Throw s') →
  sat (uninitialized_loop
         (λ k, construct_move (Ptr bd (length pre + k)) (Ptr bs (length spre + k)))
         (Ptr bd (length pre)) (length ys) (length zs)) s Q.
Proof.
  induction zs as [|z zs IH]; intros rs ys spre spost pre post bs bd s Q Hne Hlen Hs Hd HR HT.
  - apply sat_ret. apply (HR s [] []); try done.
    rewrite !app_nil_r. cbn [replicate app fmap list_fmap] in Hd, Hs.
    by rewrite (insert_id _ bs), insert_id.
  - cbn [uninitialized_loop length]. apply sat_bind, sat_unwind.
    cbn [replicate length app] in Hd. rewrite fmap_cons in Hs. cbn [app] in Hs.
    eapply sat_construct_move; [exact Hne | exact Hs | | exact Hd | | |].
    { by apply lookup_live. }
    { by apply length_live. }
    + intros s1 z' r w' E Hm1 Ho1.
      rewrite (insert_live pre), (insert_live spre) in Hm1 by done.
      replace (S (length ys)) with (length (ys ++ [z'])) by (rewrite length_app; simpl; lia).
      eapply (IH (rs ++ [r]) (ys ++ [z'])).
      * done.
      * rewrite !length_app. simpl. lia.
      * by rewrite Hm1, lookup_insert_ne, lookup_insert_eq by done.
      * by rewrite Hm1, lookup_insert_eq.
      * intros s' zs' rs' Hl Hl' Hm' Ho' Hv. apply (HR s' (z' :: zs') (r :: rs')).
        -- simpl. lia.
        -- simpl. lia.
        -- rewrite Hm', Hm1, insert2_collapse by done. by rewrite <-!app_assoc.
        -- congruence.
        -- intros HV. rewrite (Hv HV). f_equal. by eapply move_value.
      * intros s' rs' Hc Hl' Hm' Ho' Hn. apply (HT s' (r :: rs')).
        -- done.
        -- simpl. lia.
        -- rewrite Hm', Hm1, insert2_collapse by done. rewrite length_app, <-!app_assoc. simpl.
           by replace (length ys + 1 + length zs) with (length ys + S (length zs)) by lia.
        -- congruence.
        -- done.
    + intros s1 r w' E Hm1 Ho1.
      rewrite (insert_live spre) in Hm1 by done.
      eapply (sat_destroy_n ys pre); [by rewrite Hm1, lookup_insert_ne|].
      intros s' Hm' Ho'. apply (HT s' (r :: zs)).
      * right. exists z, (env s). by rewrite E.
      * done.
      * rewrite Hm', Hm1. rewrite (replicate_add (length ys)), !fmap_app, fmap_cons.
        by rewrite <-!app_assoc.
      * congruence.
      * intros HN. destruct is_nothrow_move_constructible eqn:Hf; [|done].
        pose proof (nothrow_move_construct Hf z (env s)) as Hc.
        by rewrite E in Hc.
Qed.


Lemma sat_relocate_n n xs src spost bd post s (Q : outcome unit → state → Prop) :
  n = length xs →
  block_at (mem s) src ((Some <$> xs) ++ spost) →
  src ≠ Ptr bd 0 →
  mem s !! bd = Some (replicate (length xs) None ++ post) →
  (∀ s' ys rs, length ys = length xs → length rs = length xs →
     mem s' = <[bd := (Some <$> ys) ++ post]>
                (put_block src ((Some <$> rs) ++ spost) (mem s)) →
     objs s' = objs s → (ValueSemantics T W → ys = xs) → Q (Ret tt) s') →
  (∀ s' rs, relocation_can_throw → length rs = length xs →
     mem s' = <[bd := replicate (length xs) None ++ post]>
                (put_block src ((Some <$> rs) ++ spost) (mem s)) →
     objs s' = objs s →
     (Noexcept T W → is_nothrow_move_constructible = true ∨ is_copy_constructible = true →
      rs = xs) →
     Q Throw s') →
  sat (relocate_n src n (Ptr bd 0)) s Q.
Proof.
  intros -> Hsrc Hne Hd HR HT. unfold relocate_n.
  destruct src as [|bs off].
  - cbn in Hsrc. apply app_eq_nil in Hsrc as [Hxs ->].
    apply fmap_nil_inv in Hxs as ->. cbn [length replicate app] in *.
    assert (sat (ret tt) s Q) as Hret.
    { apply sat_ret, (HR s [] []); try done. by rewrite insert_id. }
    by destruct (_ || _).
  - destruct Hsrc as [-> Hs]. assert (bs ≠ bd) as Hb by congruence.
    destruct (is_nothrow_move_constructible || negb is_copy_constructible) eqn:Hpol.
    + apply (sat_uninitialized_move xs [] [] [] spost [] post bs bd);
        [done | done | exact Hs | exact Hd | |].
      * intros s' ys rs Hl Hl' Hm Ho Hv. by apply (HR s' ys rs).
      * intros s' rs Hth Hl Hm Ho Hn. apply (HT s' rs); [done | done | done | done |].
        intros HN [Hc|Hc]; [by rewrite (Hn HN) in Hc|].
        rewrite Hc, (Hn HN) in Hpol. done.
    + apply (sat_uninitialized_copy xs [] [] [] spost [] post bs bd);
        [done | done | exact Hs | exact Hd | |].
      * intros s' ys Hl Hm Ho Hv. apply (HR s' ys xs); try done.
        cbn [put_block]. by rewrite (insert_id (mem s) bs).
      * intros s' Hc Hm Ho. apply (HT s' xs); try done.
        cbn [put_block]. by rewrite (insert_id (mem s) bs).
Qed.


Lemma block_at_fresh (m : gmap addr (list (option T))) p l bd :
  block_at m p l → m !! bd = None → p ≠ Ptr bd 0.
Proof. destruct p; [done|]. intros [-> Hl] Hn [= ->]. congruence. Qed.

Lemma block_at_insert (m : gmap addr (list (option T))) p l bd x :
  block_at m p l → m !! bd = None → block_at (<[bd := x]> m) p l.
Proof.
  destruct p as [|b off]; [done|]. intros [-> Hl] Hn. split; [done|].
  rewrite lookup_insert_ne; [done|]. congruence.
Qed.

Lemma put_block_id (m : gmap addr (list (option T))) p l : block_at m p l → put_block p l m = m.
Proof. destruct p; [done|]. intros [-> Hl]. by apply insert_id. Qed.

Lemma block_at_put (m : gmap addr (list (option T))) p l l' : block_at m p l → block_at (put_block p l' m) p l' ∨ p = Null.
Proof.
  destruct p as [|b off]; [by right|]. intros [-> Hl]. left. split; [done|].
  apply lookup_insert_eq.
Qed.

Lemma sat_destroy_all p n rs spost s (Q : outcome unit → state → Prop) :
  n = length rs →
  block_at (mem s) p ((Some <$> rs) ++ spost) →
  (∀ s', mem s' = put_block p (replicate n None ++ spost) (mem s) →
         objs s' = objs s → Q (Ret tt) s') →
  sat (destroy_n p n) s Q.
Proof.
  intros -> Hb HQ. destruct p as [|b off].
  - cbn in Hb. apply app_eq_nil in Hb as [Hrs ->].
    apply fmap_nil_inv in Hrs as ->. by apply sat_ret, HQ.
  - destruct Hb as [-> Hb]. by apply (sat_destroy_n rs [] spost).
Qed.

Lemma sat_Deallocate_block p l s (Q : outcome unit → state → Prop) :
  block_at (mem s) p l →
  (∀ s', mem s' = drop_block p (mem s) → objs s' = objs s → Q (Ret tt) s') →
  sat (Deallocate p) s Q.
Proof.
  destruct p as [|b off]; [intros _ HQ; by apply HQ|]. intros [-> Hb] HQ.
  eapply sat_Deallocate; [done|]. by apply HQ.
Qed.

Lemma sat_set_data this v r s (Q : outcome unit → state → Prop) :
  objs s !! this = Some v →
  (∀ s', mem s' = mem s → objs s' = <[this := mkVector r (size_ v)]> (objs s) →
         Q (Ret tt) s') →
  sat (put_data this r) s Q.
Proof. intros Hv HQ. eapply sat_put_data; [done|]. by apply HQ. Qed.

Lemma sat_set_size this v n s (Q : outcome unit → state → Prop) :
  objs s !! this = Some v →
  (∀ s', mem s' = mem s → objs s' = <[this := mkVector (data_ v) n]> (objs s) →
         Q (Ret tt) s') →
  sat (put_size this n) s Q.
Proof. intros Hv HQ. eapply sat_put_size; [done|]. by apply HQ. Qed.

Lemma sat_RawMemory_new_fails n s (Q : outcome RawMemory → state → Prop) :
  n ≠ 0 → allocation_fails n s → Q Throw s → sat (RawMemory_new n) s Q.
Proof.
  intros Hn Hnew HQ. unfold sat, RawMemory_new, bind, Allocate.
  rewrite decide_False by done. unfold allocation_fails in Hnew. by rewrite Hnew.
Qed.

Lemma sat_RawMemory_new_granted n s (Q : outcome RawMemory → state → Prop) :
  n ≠ 0 → operator_new (bytes_of n) (env s) = true →
  (∀ s' b, mem s !! b = None →
           mem s' = <[b := replicate (slots_of (bytes_of n)) None]> (mem s) →
           objs s' = objs s →
           Q (Ret (mkRawMemory (Ptr b 0) n)) s') →
  sat (RawMemory_new n) s Q.
Proof.
  intros Hn Hnew HQ. unfold sat, RawMemory_new, bind, Allocate.
  rewrite decide_False by done. rewrite Hnew. cbn.
  apply HQ; [|done..]. apply not_elem_of_dom, is_fresh.
Qed.

Lemma sat_RawMemory_new n s (Q : outcome RawMemory → state → Prop) :
  n ≠ 0 → fits n →
  (allocation_fails n s → Q Throw s) →
  (∀ s' b, mem s !! b = None → mem s' = <[b := replicate n None]> (mem s) →
           objs s' = objs s → env s' = env s →
           Q (Ret (mkRawMemory (Ptr b 0) n)) s') →
  sat (RawMemory_new n) s Q.
Proof.
  intros Hn Hfit HT HQ. unfold RawMemory_new.
  apply sat_bind, sat_Allocate; [done..|].
  intros b Hb. apply sat_ret. by apply HQ.
Qed.

Lemma lookup_drop_put (m : gmap addr (list (option T))) p l l0 bd :
  block_at m p l0 → m !! bd = None →
  ∀ X, drop_block p (put_block p l (<[bd := X]> m)) !! bd = Some X.
Proof.
  destruct p as [|b off]; cbn; intros Hb Hn X.
  - apply lookup_insert_eq.
  - destruct Hb as [-> Hb]. assert (b ≠ bd) by congruence.
    by rewrite lookup_delete_ne, lookup_insert_ne, lookup_insert_eq.
Qed.

Lemma block_at_other (m : gmap addr (list (option T))) p l bd :
  block_at m p l → m !! bd = None → other_block p bd.
Proof. destruct p; [done|]. intros [_ Hl] Hn. cbn. congruence. Qed.

Lemma lookup_put_block_ne (m : gmap addr (list (option T))) p l bd :
  other_block p bd → put_block p l m !! bd = m !! bd.
Proof. destruct p; [done|]. cbn. intros. by rewrite lookup_insert_ne. Qed.

Lemma lookup_drop_block_ne (m : gmap addr (list (option T))) p bd :
  other_block p bd → drop_block p m !! bd = m !! bd.
Proof. destruct p; [done|]. cbn. intros. by rewrite lookup_delete_ne. Qed.

Lemma block_at_put_block (m : gmap addr (list (option T))) p l l' :
  block_at m p l → length l' = length l → block_at (put_block p l' m) p l'.
Proof.
  destruct p as [|b off]; cbn.
  - intros -> Hl. by apply nil_length_inv.
  - intros [-> _] _. split; [done|]. apply lookup_insert_eq.
Qed.

Lemma block_at_insert_other (m : gmap addr (list (option T))) p l bd x :
  block_at m p l → other_block p bd → block_at (<[bd := x]> m) p l.
Proof.
  destruct p as [|b off]; [done|]. cbn. intros [-> Hl] Hn. split; [done|].
  by rewrite lookup_insert_ne.
Qed.

Lemma Reserve_sat this k xs c s :
  Rep s this xs c → (c < k → fits k) →
  sat (Reserve this k) s (λ o s',
    match o with
    | Ret _ =>
        (k ≤ c ∧ s' = s) ∨
        (c < k ∧ ∃ ys, length ys = length xs ∧ (ValueSemantics T W → ys = xs) ∧
                       Rep s' this ys k)
    | Throw =>
        (relocation_can_throw ∨ allocation_fails k s) ∧ c < k ∧ objs s' = objs s ∧
        (Noexcept T W →
         is_nothrow_move_constructible = true ∨ is_copy_constructible = true →
         mem s' = mem s)
    | Undef => False
    end).
Proof.
  intros (v & Hv & Hsz & Hcap & Hle & Hblk) Hfit.
  unfold Reserve. apply sat_bind. eapply sat_this; [done|].
  rewrite Hcap. case_decide as Hk; [apply sat_ret; by left|].
  apply sat_bind, sat_RawMemory_new; [lia | apply Hfit; lia | |].
  { intros Hnew. split; [by right|]. split; [lia|]. by split. }
  intros s1 bd Hfresh Hm1 Ho1 _.
  pose proof (block_at_other _ _ _ _ Hblk Hfresh) as Hother.
  apply sat_bind, sat_unwind. unfold GetAddress. cbn [buffer_].
  apply (sat_relocate_n _ xs _ (replicate (c - length xs) None) bd
           (replicate (k - length xs) None)); [done | | | | |].
  { rewrite Hm1. by apply block_at_insert. }
  { by eapply block_at_fresh. }
  { rewrite Hm1, lookup_insert_eq, <-replicate_add. do 2 f_equal. lia. }
  - intros s2 ys rs Hly Hlr Hm2 Ho2 Hval.
    assert (block_at (mem s2) (buffer_ (data_ v))
              ((Some <$> rs) ++ replicate (c - length xs) None)) as Hb2.
    { rewrite Hm2. apply block_at_insert_other; [|done].
      eapply block_at_put_block; [rewrite Hm1; by apply block_at_insert|].
      rewrite !length_app, !length_fmap. lia. }
    apply sat_bind.
    apply (sat_destroy_all _ _ rs (replicate (c - length xs) None)); [congruence | done |].
    intros s3 Hm3 Ho3.
    apply sat_bind. eapply sat_set_data; [by rewrite Ho3, Ho2, Ho1|].
    intros s4 Hm4 Ho4. unfold RawMemory_delete.
    eapply sat_Deallocate_block.
    { rewrite Hm4, Hm3. eapply block_at_put_block; [done|].
      rewrite !length_app, !length_fmap, !length_replicate. lia. }
    intros s5 Hm5 Ho5. right. split; [lia|]. exists ys. split; [done|]. split; [done|].
    exists (mkVector (mkRawMemory (Ptr bd 0) k) (size_ v)). cbn.
    split; [by rewrite Ho5, Ho4, lookup_insert_eq|].
    split; [lia|]. split; [done|]. split; [lia|]. split; [done|].
    rewrite Hm5, Hm4, Hm3, Hm2.
    rewrite lookup_drop_block_ne, lookup_put_block_ne, lookup_insert_eq by done.
    by rewrite Hly.
  - intros s2 rs Hc Hlr Hm2 Ho2 Hsame. unfold RawMemory_delete. cbn [buffer_].
    eapply sat_Deallocate_block; [split; [done|]; by rewrite Hm2, lookup_insert_eq|].
    intros s3 Hm3 Ho3. split; [by left|]. split; [lia|]. split; [congruence|].
    intros HN Hpol. rewrite Hm3, Hm2, (Hsame HN Hpol), Hm1. cbn [drop_block].
    rewrite put_block_id by (by apply block_at_insert).
    by rewrite insert_insert_eq, delete_insert_id.
Qed.

Lemma sat_construct_args bd j ld a s (Q : outcome unit → state → Prop) :
  mem s !! bd = Some ld → j < length ld →
  (∀ s' y, (args_run a (env s)).1 = Some y →
     mem s' = <[bd := <[j := Some y]> ld]> (mem s) → objs s' = objs s →
     Q (Ret tt) s') →
  (∀ s', (args_run a (env s)).1 = None →
     mem s' = mem s → objs s' = objs s → Q Throw s') →
  sat (construct_args (Ptr bd j) a) s Q.
Proof.
  intros Hd Hj HR HT. unfold construct_args.
  apply sat_bind, sat_elem.
  destruct (args_run a (env s)) as [[y|] w'] eqn:E; cbn [fst snd].
  - eapply sat_put_slot; [done..|]. by eapply HR.
  - apply sat_throw. apply HT; [by rewrite ?E|done..].
Qed.

Lemma insert_replicate_mid {A} (x y : A) n c :
  n < c →
  <[n := y]> (replicate c x) = replicate n x ++ y :: replicate (c - n - 1) x.
Proof.
  intros Hn. replace c with (n + S (c - n - 1)) at 1 by lia.
  rewrite replicate_add. cbn [replicate].
  rewrite <-(length_replicate n x) at 1. apply list_insert_mid.
Qed.

Lemma insert_live0 {X} (post : list (option X)) (a : list X) x y n :
  n = length a →
  <[n := Some y]> ((Some <$> a) ++ x :: post) = (Some <$> a ++ [y]) ++ post.
Proof. intros Hn. by apply (insert_live [] post a x y n). Qed.

Lemma block_at_null_inv (xs : list T) c (m : gmap addr (list (option T))) :
  block_at m Null ((Some <$> xs) ++ replicate (c - length xs) None) →
  length xs ≤ c → xs = [] ∧ c = 0.
Proof.
  cbn. intros Hnil Hle. apply app_eq_nil in Hnil as [Hxs Hr].
  apply fmap_nil_inv in Hxs as ->. split; [done|].
  apply (f_equal length) in Hr. rewrite length_replicate in Hr. simpl in *. lia.
Qed.

Lemma PushBack_with_sat this a xs c s :
  Rep s this xs c → (length xs = c → fits (grown c)) →
  sat (PushBack_with this a) s (λ o s',
    match o with
    | Ret _ =>
        ∃ ys y, (args_run a (env s)).1 = Some y ∧
                length ys = length xs ∧ (ValueSemantics T W → ys = xs) ∧
                Rep s' this (ys ++ [y])
                  (if decide (length xs = c) then grown c else c)
    | Throw =>
        ((args_run a (env s)).1 = None ∨ relocation_can_throw ∨
         (length xs = c ∧ allocation_fails (grown c) s)) ∧
        objs s' = objs s ∧
        (Noexcept T W →
         is_nothrow_move_constructible = true ∨ is_copy_constructible = true →
         mem s' = mem s)
    | Undef => False
    end).
Proof.
  intros (v & Hv & Hsz & Hcap & Hle & Hblk) Hfit.
  unfold PushBack_with. apply sat_bind. eapply sat_this; [done|].
  apply sat_bind. rewrite Hsz, Hcap. case_decide as Hfull.
  - (* the array is full: a new block *)
    fold (grown (length xs)).
    assert (length xs < grown (length xs)) as Hg by (unfold grown; case_decide; lia).
    apply sat_bind, sat_RawMemory_new; [lia | rewrite Hfull; by apply Hfit | |].
    { intros Hnew. rewrite Hfull in Hnew. split; [by right; right|]. by split. }
    intros s1 bd Hfresh Hm1 Ho1 He1.
    pose proof (block_at_other _ _ _ _ Hblk Hfresh) as Hother.
    apply sat_bind, sat_unwind. apply sat_bind.
    unfold RawMemory_plus. cbn [buffer_ capacity_ ptr_add]. apply sat_bind.
    apply sat_assert; [apply bool_decide_eq_true; lia|]. apply sat_ret.
    rewrite Nat.add_0_l. apply sat_bind.
    eapply sat_construct_args; [by rewrite Hm1, lookup_insert_eq | by rewrite length_replicate | |].
    + intros s2 y Hy Hm2 Ho2. rewrite He1 in Hy.
      rewrite Hm1, insert_insert_eq, insert_replicate_mid in Hm2 by done.
      unfold GetAddress. cbn [buffer_].
      rewrite Hfull, Nat.sub_diag in Hblk. cbn [replicate] in Hblk.
      apply (sat_relocate_n _ xs _ [] bd
               (Some y :: replicate (grown (length xs) - length xs - 1) None));
        [done | | | | |].
      { rewrite Hm2. by apply block_at_insert. }
      { by eapply block_at_fresh. }
      { by rewrite Hm2, lookup_insert_eq. }
      * intros s3 ys rs Hly Hlr Hm3 Ho3 Hval.
        assert (block_at (mem s3) (buffer_ (data_ v)) ((Some <$> rs) ++ [])) as Hb3.
        { rewrite Hm3. apply block_at_insert_other; [|done].
          eapply block_at_put_block; [rewrite Hm2; by apply block_at_insert|].
          rewrite !length_app, !length_fmap. lia. }
        apply sat_bind. eapply sat_set_data; [by rewrite Ho3, Ho2, Ho1|].
        intros s4 Hm4 Ho4. apply sat_bind.
        apply (sat_destroy_all _ _ rs []); [congruence | by rewrite Hm4 |].
        intros s5 Hm5 Ho5. unfold RawMemory_delete.
        eapply sat_Deallocate_block.
        { rewrite Hm5. eapply block_at_put_block; [by rewrite Hm4|].
          rewrite !length_app, !length_fmap, !length_replicate. lia. }
        intros s6 Hm6 Ho6.
        eapply sat_set_size; [by rewrite Ho6, Ho5, Ho4, lookup_insert_eq|].
        intros s7 Hm7 Ho7. exists ys, y. split; [done|]. split; [done|]. split; [done|].
        eexists. split; [by rewrite Ho7, lookup_insert_eq|]. cbn.
        rewrite length_app, <-Hfull. cbn. split; [lia|]. split; [done|]. split; [lia|].
        split; [done|].
        rewrite Hm7, Hm6, Hm5, Hm4, Hm3.
        rewrite lookup_drop_block_ne, lookup_put_block_ne, lookup_insert_eq by done.
        rewrite fmap_app, <-app_assoc. cbn. do 4 f_equal. lia.
      * intros s3 rs Hc Hlr Hm3 Ho3 Hsame. unfold RawMemory_delete. cbn [buffer_].
        eapply sat_Deallocate_block; [split; [done|]; by rewrite Hm3, lookup_insert_eq|].
        intros s4 Hm4 Ho4. split; [by right; left|]. split; [congruence|].
        intros HN Hpol. rewrite Hm4, Hm3, (Hsame HN Hpol), Hm2. cbn [drop_block].
        rewrite put_block_id by (by apply block_at_insert).
        by rewrite insert_insert_eq, delete_insert_id.
    + intros s2 Hc Hm2 Ho2. unfold RawMemory_delete. cbn [buffer_].
      eapply sat_Deallocate_block; [split; [done|]; by rewrite Hm2, Hm1, lookup_insert_eq|].
      intros s3 Hm3 Ho3. rewrite He1 in Hc. split; [by left|]. split; [congruence|]. intros _ _.
      rewrite Hm3, Hm2, Hm1. cbn [drop_block]. by rewrite delete_insert_id.
  - (* room is left *)
    destruct (buffer_ (data_ v)) as [|b off] eqn:Hbuf.
    { apply block_at_null_inv in Hblk as [-> ->]; [done|lia]. }
    destruct Hblk as [-> Hblk].
    apply sat_bind. unfold RawMemory_plus. rewrite Hbuf, Hcap. cbn [ptr_add].
    apply sat_bind. apply sat_assert; [apply bool_decide_eq_true; lia|]. apply sat_ret.
    rewrite Nat.add_0_l.
    replace (c - length xs) with (S (c - length xs - 1)) in Hblk by lia.
    cbn [replicate] in Hblk.
    eapply sat_construct_args; [exact Hblk | | |].
    { rewrite length_app, length_fmap. simpl. lia. }
    + intros s2 y Hy Hm2 Ho2.
      rewrite insert_live0 in Hm2 by done.
      eapply sat_set_size; [by rewrite Ho2|].
      intros s3 Hm3 Ho3. exists xs, y. split; [done|]. split; [done|]. split; [done|].
      eexists. split; [by rewrite Ho3, lookup_insert_eq|]. cbn.
      rewrite length_app. cbn. split; [lia|]. split; [done|]. split; [lia|].
      rewrite Hbuf. split; [done|].
      rewrite Hm3, Hm2, lookup_insert_eq. do 3 f_equal. lia.
    + intros s2 Hc Hm2 Ho2. split; [by left|]. split; [done|]. by intros _ _.
Qed.


Lemma EmplaceBack_sat this a xs c s :
  Rep s this xs c → (length xs = c → fits (grown c)) →
  sat (EmplaceBack this a) s (λ o s',
    match o with
    | Ret p =>
        ∃ ys y v', objs s' !! this = Some v' ∧
                p = ptr_add (buffer_ (data_ v')) (length xs) ∧
                (args_run a (env s)).1 = Some y ∧
                length ys = length xs ∧ (ValueSemantics T W → ys = xs) ∧
                Rep s' this (ys ++ [y])
                  (if decide (length xs = c) then grown c else c)
    | Throw =>
        ((args_run a (env s)).1 = None ∨ relocation_can_throw ∨
         (length xs = c ∧ allocation_fails (grown c) s)) ∧
        objs s' = objs s ∧
        (Noexcept T W →
         is_nothrow_move_constructible = true ∨ is_copy_constructible = true →
         mem s' = mem s)
    | Undef => False
    end).
Proof.
  intros (v & Hv & Hsz & Hcap & Hle & Hblk) Hfit.
  unfold EmplaceBack. apply sat_bind. eapply sat_this; [done|].
  apply sat_bind. rewrite Hsz, Hcap. case_decide as Hfull.
  - (* the array is full: a new block *)
    fold (grown (length xs)).
    assert (length xs < grown (length xs)) as Hg by (unfold grown; case_decide; lia).
    apply sat_bind, sat_RawMemory_new; [lia | rewrite Hfull; by apply Hfit | |].
    { intros Hnew. rewrite Hfull in Hnew. split; [by right; right|]. by split. }
    intros s1 bd Hfresh Hm1 Ho1 He1.
    pose proof (block_at_other _ _ _ _ Hblk Hfresh) as Hother.
    apply sat_bind, sat_unwind. unfold GetAddress at 1. cbn [buffer_ ptr_add].
    rewrite Nat.add_0_l. apply sat_bind.
    eapply sat_construct_args; [by rewrite Hm1, lookup_insert_eq | by rewrite length_replicate | |].
    + intros s2 y Hy Hm2 Ho2. rewrite He1 in Hy.
      rewrite Hm1, insert_insert_eq, insert_replicate_mid in Hm2 by done.
      unfold GetAddress. cbn [buffer_].
      rewrite Hfull, Nat.sub_diag in Hblk. cbn [replicate] in Hblk.
      apply (sat_relocate_n _ xs _ [] bd
               (Some y :: replicate (grown (length xs) - length xs - 1) None));
        [done | | | | |].
      { rewrite Hm2. by apply block_at_insert. }
      { by eapply block_at_fresh. }
      { by rewrite Hm2, lookup_insert_eq. }
      * intros s3 ys rs Hly Hlr Hm3 Ho3 Hval.
        assert (block_at (mem s3) (buffer_ (data_ v)) ((Some <$> rs) ++ [])) as Hb3.
        { rewrite Hm3. apply block_at_insert_other; [|done].
          eapply block_at_put_block; [rewrite Hm2; by apply block_at_insert|].
          rewrite !length_app, !length_fmap. lia. }
        apply sat_bind. eapply sat_set_data; [by rewrite Ho3, Ho2, Ho1|].
        intros s4 Hm4 Ho4. apply sat_bind.
        apply (sat_destroy_all _ _ rs []); [congruence | by rewrite Hm4 |].
        intros s5 Hm5 Ho5. unfold RawMemory_delete.
        eapply sat_Deallocate_block.
        { rewrite Hm5. eapply block_at_put_block; [by rewrite Hm4|].
          rewrite !length_app, !length_fmap, !length_replicate. lia. }
        intros s6 Hm6 Ho6.
        apply sat_bind.
        eapply sat_set_size; [by rewrite Ho6, Ho5, Ho4, lookup_insert_eq|].
        intros s7 Hm7 Ho7. apply sat_bind.
        eapply sat_this; [by rewrite Ho7, lookup_insert_eq|].
        unfold RawMemory_at. cbn [data_ size_ capacity_ buffer_ ptr_add]. apply sat_bind.
        apply sat_assert; [apply bool_decide_eq_true; lia|]. apply sat_ret.
        exists ys, y. eexists. split; [by rewrite Ho7, lookup_insert_eq|].
        cbn [data_ buffer_ ptr_add].
        split; [f_equal; lia|]. split; [done|]. split; [done|]. split; [done|].
        eexists. split; [by rewrite Ho7, lookup_insert_eq|]. cbn.
        rewrite length_app, <-Hfull. cbn. split; [lia|]. split; [done|]. split; [lia|].
        split; [done|].
        rewrite Hm7, Hm6, Hm5, Hm4, Hm3.
        rewrite lookup_drop_block_ne, lookup_put_block_ne, lookup_insert_eq by done.
        rewrite fmap_app, <-app_assoc. cbn. do 4 f_equal. lia.
      * intros s3 rs Hc Hlr Hm3 Ho3 Hsame. unfold RawMemory_delete. cbn [buffer_].
        eapply sat_Deallocate_block; [split; [done|]; by rewrite Hm3, lookup_insert_eq|].
        intros s4 Hm4 Ho4. split; [by right; left|]. split; [congruence|].
        intros HN Hpol. rewrite Hm4, Hm3, (Hsame HN Hpol), Hm2. cbn [drop_block].
        rewrite put_block_id by (by apply block_at_insert).
        by rewrite insert_insert_eq, delete_insert_id.
    + intros s2 Hc Hm2 Ho2. unfold RawMemory_delete. cbn [buffer_].
      eapply sat_Deallocate_block; [split; [done|]; by rewrite Hm2, Hm1, lookup_insert_eq|].
      intros s3 Hm3 Ho3. rewrite He1 in Hc. split; [by left|]. split; [congruence|]. intros _ _.
      rewrite Hm3, Hm2, Hm1. cbn [drop_block]. by rewrite delete_insert_id.
  - (* room is left *)
    destruct (buffer_ (data_ v)) as [|b off] eqn:Hbuf.
    { apply block_at_null_inv in Hblk as [-> ->]; [done|lia]. }
    destruct Hblk as [-> Hblk].
    apply sat_bind. unfold RawMemory_plus. rewrite Hbuf, Hcap. cbn [ptr_add].
    apply sat_bind. apply sat_assert; [apply bool_decide_eq_true; lia|]. apply sat_ret.
    rewrite Nat.add_0_l.
    replace (c - length xs) with (S (c - length xs - 1)) in Hblk by lia.
    cbn [replicate] in Hblk.
    eapply sat_construct_args; [exact Hblk | | |].
    { rewrite length_app, length_fmap. simpl. lia. }
    + intros s2 y Hy Hm2 Ho2.
      rewrite insert_live0 in Hm2 by done.
      apply sat_bind.
      eapply sat_set_size; [by rewrite Ho2|].
      intros s3 Hm3 Ho3. apply sat_bind.
      eapply sat_this; [by rewrite Ho3, lookup_insert_eq|].
      unfold RawMemory_at. cbn [data_ size_]. rewrite Hcap, Hbuf. cbn [ptr_add].
      apply sat_bind.
      apply sat_assert; [apply bool_decide_eq_true; lia|]. apply sat_ret.
      exists xs, y. eexists. split; [by rewrite Ho3, lookup_insert_eq|].
      cbn [data_]. rewrite Hbuf. cbn [ptr_add].
      split; [f_equal; lia|]. split; [done|]. split; [done|]. split; [done|].
      eexists. split; [by rewrite Ho3, lookup_insert_eq|]. cbn.
      rewrite length_app. cbn. split; [lia|]. split; [done|]. split; [lia|].
      rewrite Hbuf. split; [done|].
      rewrite Hm3, Hm2, lookup_insert_eq. do 3 f_equal. lia.
    + intros s2 Hc Hm2 Ho2. split; [by left|]. split; [done|]. by intros _ _.
Qed.

Lemma Rep_elements (s : state) this xs c : Rep s this xs c → elements s this = Some xs.
Proof.
  intros (v & Hv & Hsz & Hcap & Hle & Hblk). unfold elements. rewrite Hv.
  destruct (buffer_ (data_ v)) as [|b off].
  - apply block_at_null_inv in Hblk as [-> _]; [|done]. by rewrite Hsz.
  - destruct Hblk as [-> ->]. rewrite drop_0, Hsz.
    rewrite take_app_length' by (by rewrite length_fmap).
    by apply mapM_fmap_Some.
Qed.

Lemma Rep_size (s : state) this xs c v :
  Rep s this xs c → objs s !! this = Some v →
  size_ v = length xs ∧ capacity_ (data_ v) = c.
Proof. intros (v' & Hv & Hsz & Hcap & _) Hv'. by simplify_eq. Qed.


Lemma assign_move_assigns : assigns EvMoveAssign assign_move.
Proof.
  intros bd bs i j ld d v s Q Hd Hi (ls & Hs & Hj) HQ. unfold assign_move.
  apply sat_bind. eapply sat_load; [done..|].
  apply sat_bind. eapply sat_load; [done..|].
  apply sat_bind, sat_elem.
  destruct (T_move_assign d v (env s)) as [[[ok d'] r] w'] eqn:E. cbn [fst snd].
  apply sat_bind. eapply sat_put_slot; [done | by eapply lookup_lt_Some |]. st.
  assert (∃ ld', (<[bs := <[j := Some r]> ls]> (mem s)) !! bd = Some ld' ∧
                 i < length ld') as (ld' & Hd' & Hi').
  { destruct (decide (bs = bd)) as [->|Hb].
    - rewrite lookup_insert_eq. eexists. split; [done|].
      rewrite length_insert. assert (ls = ld) as -> by congruence.
      by eapply lookup_lt_Some.
    - rewrite lookup_insert_ne by done. eexists. split; [done|].
      by eapply lookup_lt_Some. }
  apply sat_bind. eapply sat_put_slot; st; [done..|].
  assert (∀ o, o ≠ Undef → (o = Ret tt → ok = true) →
               Q o (set_mem (insert bd (<[i := Some d']> ld'))
                      (set_mem (insert bs (<[j := Some r]> ls))
                         (log EvMoveAssign (set_env w' s))))) as HQ'.
  { intros o Ho Hok. apply (HQ _ d' r); st; [done | done | done | |].
    - intros ls' Hls'. assert (ls' = ls) as -> by congruence.
      apply map_eq. intros k. destruct (decide (k = bd)) as [->|Hk].
      + by rewrite lookup_insert_eq, lookup_alter_eq, Hd'.
      + by rewrite lookup_insert_ne, lookup_alter_ne by done.
    - intros Ho' HV. rewrite (Hok Ho') in E. by eapply move_assign_value. }
  destruct ok; [by apply sat_ret, HQ'|by apply sat_throw, HQ'].
Qed.

Lemma assign_copy_assigns : assigns EvCopyAssign assign_copy.
Proof.
  intros bd bs i j ld d v s Q Hd Hi (ls & Hs & Hj) HQ. unfold assign_copy.
  apply sat_bind. eapply sat_load; [done..|].
  apply sat_bind. eapply sat_load; [done..|].
  apply sat_bind, sat_elem.
  destruct (T_copy_assign d v (env s)) as [[ok d'] w'] eqn:E. cbn [fst snd].
  apply sat_bind. eapply sat_put_slot; [done | by eapply lookup_lt_Some |]. st.
  assert (∀ o, o ≠ Undef → (o = Ret tt → ok = true) →
               Q o (set_mem (insert bd (<[i := Some d']> ld))
                         (log EvCopyAssign (set_env w' s)))) as HQ'.
  { intros o Ho Hok. apply (HQ _ d' v); st; [done | done | done | |].
    - intros ls' Hls'. assert (ls' = ls) as -> by congruence.
      rewrite (list_insert_id ls j) by done. rewrite (insert_id (mem s) bs) by done.
      apply map_eq. intros k. destruct (decide (k = bd)) as [->|Hk].
      + by rewrite lookup_insert_eq, lookup_alter_eq, Hd.
      + by rewrite lookup_insert_ne, lookup_alter_ne by done.
    - intros Ho' HV. rewrite (Hok Ho') in E. by eapply copy_assign_value. }
  destruct ok; [by apply sat_ret, HQ'|by apply sat_throw, HQ'].
Qed.


Lemma assigns_same ev assign b l i j d v (s : state)
    (Q : outcome unit → state → Prop) :
  assigns ev assign →
  mem s !! b = Some l → l !! i = Some (Some d) → l !! j = Some (Some v) →
  (∀ s' d' r o, o ≠ Undef → objs s' = objs s → trace s' = trace s ++ [ev] →
     mem s' = <[b := <[i := Some d']> (<[j := Some r]> l)]> (mem s) →
     (o = Ret tt → ValueSemantics T W → d' = v) → Q o s') →
  sat (assign (Ptr b i) (Ptr b j)) s Q.
Proof.
  intros Ha Hb Hi Hj HQ. eapply Ha; [done | done | by eexists |].
  intros s' d' r o Ho Hobj Htr Hm Hv. apply (HQ s' d' r o); [done | done | done | | done].
  by rewrite (Hm l Hb), alter_insert_eq.
Qed.

Lemma assigns_cross ev assign bd bs ld ls i j d v (s : state)
    (Q : outcome unit → state → Prop) :
  assigns ev assign → bd ≠ bs →
  mem s !! bd = Some ld → ld !! i = Some (Some d) →
  mem s !! bs = Some ls → ls !! j = Some (Some v) →
  (∀ s' d' r o, o ≠ Undef → objs s' = objs s → trace s' = trace s ++ [ev] →
     mem s' = <[bd := <[i := Some d']> ld]> (<[bs := <[j := Some r]> ls]> (mem s)) →
     (o = Ret tt → ValueSemantics T W → d' = v) → Q o s') →
  sat (assign (Ptr bd i) (Ptr bs j)) s Q.
Proof.
  intros Ha Hne Hd Hi Hs Hj HQ. eapply Ha; [done | done | by eexists |].
  intros s' d' r o Ho Hobj Htr Hm Hv. apply (HQ s' d' r o); [done | done | done | | done].
  rewrite (Hm ls Hs). apply map_eq. intros k.
  destruct (decide (k = bd)) as [->|Hk].
  - by rewrite lookup_insert_eq, lookup_alter_eq, lookup_insert_ne, Hd.
  - by rewrite lookup_insert_ne, lookup_alter_ne by done.
Qed.

Lemma sat_ptr_sub b i (s : state) (Q : outcome ptr → state → Prop) :
  1 ≤ i → Q (Ret (Ptr b (i - 1))) s → sat (ptr_sub (Ptr b i) 1) s Q.
Proof. intros Hi HQ. unfold ptr_sub. by rewrite decide_True. Qed.

Lemma sat_ptr_distance b i j (s : state) (Q : outcome nat → state → Prop) :
  i ≤ j → Q (Ret (j - i)) s → sat (ptr_distance (Ptr b i) (Ptr b j)) s Q.
Proof. intros Hi HQ. unfold ptr_distance. by rewrite decide_True. Qed.

Lemma lookup_live_next {X} (pre post : list (option X)) (a : list X) x g n :
  n = length pre + length a + 1 →
  (pre ++ (Some <$> a) ++ x :: g :: post) !! n = Some g.
Proof.
  intros ->. rewrite (cons_middle x), !app_assoc.
  apply list_lookup_middle. rewrite !length_app, length_fmap. cbn. lia.
Qed.

Lemma insert_live_next {X} (pre post : list (option X)) (a : list X) x g y n :
  n = length pre + length a + 1 →
  <[n := y]> (pre ++ (Some <$> a) ++ x :: g :: post) =
  pre ++ (Some <$> a) ++ x :: y :: post.
Proof.
  intros ->. rewrite !(cons_middle x), !app_assoc.
  replace (length pre + length a + 1) with (length ((pre ++ (Some <$> a)) ++ [x])).
  - apply list_insert_mid.
  - rewrite !length_app, length_fmap. cbn. lia.
Qed.

Lemma sat_assign_backward ev assign B : ∀ pre g post b (s : state)
    (Q : outcome unit → state → Prop),
  assigns ev assign →
  mem s !! b = Some (pre ++ (Some <$> B) ++ Some g :: post) →
  (∀ s' B' g', length B' = length B → objs s' = objs s →
     trace s' = trace s ++ replicate (length B) ev →
     mem s' = <[b := pre ++ Some g' :: (Some <$> B') ++ post]> (mem s) →
     (ValueSemantics T W → B' = B) → Q (Ret tt) s') →
  (∀ s' L, length L = S (length B) → objs s' = objs s →
     mem s' = <[b := pre ++ (Some <$> L) ++ post]> (mem s) → Q Throw s') →
  sat (assign_backward assign (Ptr b (length pre + length B))
         (Ptr b (length pre + length B + 1)) (length B)) s Q.
Proof.
  induction B as [|x B IH] using rev_ind; intros pre g post b s Q Ha Hm HR HT.
  - apply sat_ret. apply (HR s [] g); [done | done | by rewrite app_nil_r | | done].
    cbn [fmap list_fmap app] in *. by rewrite insert_id.
  - rewrite length_app. cbn [length]. rewrite Nat.add_1_r. cbn [assign_backward].
    apply sat_bind, sat_ptr_sub; [lia|].
    apply sat_bind, sat_ptr_sub; [lia|].
    replace (length pre + S (length B) + 1 - 1) with (length pre + length B + 1) by lia.
    replace (length pre + S (length B) - 1) with (length pre + length B) by lia.
    rewrite fmap_app, <-app_assoc in Hm. cbn [fmap list_fmap app] in Hm.
    apply sat_bind.
    eapply (assigns_same ev assign b _ _ _ g x); [done | exact Hm | | |].
    { by apply lookup_live_next. }
    { by apply lookup_live. }
    intros s1 d' r o Ho Hobj1 Htr1 Hm1 Hv.
    assert (<[length pre + length B + 1:=Some d']>
              (<[length pre + length B:=Some r]>
                 (pre ++ (Some <$> B) ++ Some x :: Some g :: post)) =
            pre ++ (Some <$> B) ++ Some r :: Some d' :: post) as Hl.
    { rewrite <-(length_fmap Some B), insert_seg, length_fmap.
      by apply insert_live_next. }
    rewrite Hl in Hm1. clear Hl.
    destruct o as [[]| |]; [| |done].
    + eapply (IH pre r (Some d' :: post)); [done | by rewrite Hm1, lookup_insert_eq | |].
      * intros s' B' g' Hl' Hobj' Htr' Hm' Hv'. apply (HR s' (B' ++ [d']) g').
        -- rewrite !length_app. cbn. lia.
        -- congruence.
        -- rewrite Htr', Htr1, <-app_assoc. f_equal.
           by rewrite length_app, Nat.add_1_r.
        -- rewrite Hm', Hm1, insert_insert_eq. rewrite fmap_app, <-app_assoc. done.
        -- intros HV. by rewrite (Hv' HV), (Hv eq_refl HV).
      * intros s' L Hl' Hobj' Hm'. apply (HT s' (L ++ [d'])).
        -- rewrite !length_app. cbn. lia.
        -- congruence.
        -- rewrite Hm', Hm1, insert_insert_eq. rewrite fmap_app, <-app_assoc. done.
    + apply (HT s1 (B ++ [r; d'])).
      * rewrite !length_app. cbn. lia.
      * done.
      * rewrite Hm1. rewrite fmap_app, <-app_assoc. done.
Qed.


Lemma lookup_live0 {X} (post : list (option X)) (a : list X) x n :
  n = length a → ((Some <$> a) ++ x :: post) !! n = Some x.
Proof. intros ->. apply list_lookup_middle. by rewrite length_fmap. Qed.

Lemma construct_move_constructs : constructs EvMove construct_move.
Proof.
  intros b l i j v s Q Hb Hi Hj HR HT. unfold construct_move.
  apply sat_bind. eapply sat_load; [done..|].
  apply sat_bind, sat_elem.
  destruct (T_move v (env s)) as [[o r] w'] eqn:E; cbn [fst snd].
  apply sat_bind. eapply sat_put_slot; [done | by eapply lookup_lt_Some |].
  destruct o as [v'|].
  - eapply sat_put_slot; st; [apply lookup_insert_eq | by rewrite length_insert |].
    apply (HR _ v' r); st; [done | done | by rewrite insert_insert_eq |].
    intros HV. by eapply move_value.
  - apply sat_throw. by apply (HT _ r).
Qed.

Lemma construct_copy_constructs : constructs EvCopy construct_copy.
Proof.
  intros b l i j v s Q Hb Hi Hj HR HT. unfold construct_copy.
  apply sat_bind. eapply sat_load; [done..|].
  apply sat_bind, sat_elem.
  destruct (T_copy v (env s)) as [[v'|] w'] eqn:E; cbn [fst snd].
  - eapply sat_put_slot; st; [done..|].
    apply (HR _ v' v); st; [done | done | by rewrite (list_insert_id l j) |].
    intros HV. by eapply copy_value.
  - apply sat_throw. apply (HT _ v); st; [done|].
    by rewrite (list_insert_id l j), insert_id.
Qed.

Lemma sat_shift_right evc eva construct assign (A B : list T) (x y : T)
    (rawtail : list (option T)) (bb bh : addr) (s : state)
    (Q : outcome unit → state → Prop) :
  constructs evc construct → assigns eva assign → bb ≠ bh →
  mem s !! bb = Some ((Some <$> A ++ B ++ [x]) ++ None :: rawtail) →
  mem s !! bh = Some [Some y] →
  (∀ s' ys hv, length ys = length A + length B + 2 → objs s' = objs s →
     trace s' = trace s ++ evc :: replicate (length B) eva ++ [eva] →
     mem s' !! bb = Some ((Some <$> ys) ++ rawtail) →
     mem s' !! bh = Some [Some hv] →
     (ValueSemantics T W → ys = A ++ [y] ++ B ++ [x]) → Q (Ret tt) s') →
  (∀ s', objs s' = objs s → is_Some (mem s' !! bh) → Q Throw s') →
  sat (shift_right construct assign (Ptr bb (length A))
         (Ptr bb (length A + length B)) (Ptr bb (length A + length B + 1))
         (Ptr bb (length A)) (Ptr bh 0)) s Q.
Proof.
  intros Hc Ha Hne Hb Hh HR HT. unfold shift_right.
  cbn [uninitialized_loop ptr_add destroy_n]. rewrite !Nat.add_0_r.
  rewrite !app_assoc, fmap_app, <-!app_assoc in Hb. cbn [fmap list_fmap app] in Hb.
  apply sat_bind, sat_bind, sat_unwind.
  eapply (Hc bb _ _ _ x); [exact Hb | | | |].
  { rewrite !length_app, !length_fmap, !length_app. cbn. lia. }
  { apply lookup_live0. by rewrite length_app. }
  - intros s1 v' r Ho1 Htr1 Hm1 Hv1.
    rewrite insert_live0 in Hm1 by (by rewrite length_app).
    rewrite insert_live0 in Hm1 by (rewrite !length_app; cbn; lia).
    rewrite !fmap_app, <-!app_assoc in Hm1. cbn [fmap list_fmap app] in Hm1.
    apply sat_ret. apply sat_bind, sat_bind, sat_ptr_distance; [lia|].
    replace (length A + length B - length A) with (length B) by lia.
    rewrite <-(length_fmap Some A).
    eapply (sat_assign_backward eva assign B (Some <$> A) r (Some v' :: rawtail));
      [done | by rewrite Hm1, lookup_insert_eq | |].
    + intros s2 B' g' Hl2 Ho2 Htr2 Hm2 Hv2.
      rewrite Hm1, insert_insert_eq in Hm2.
      eapply (assigns_cross eva assign bb bh _ [Some y] _ 0 g' y);
        [done | done | by rewrite Hm2, lookup_insert_eq | | | done |].
      { by apply list_lookup_middle. }
      { by rewrite Hm2, lookup_insert_ne. }
      intros s3 d' r' o Ho Ho3 Htr3 Hm3 Hv3. rewrite list_insert_mid in Hm3.
      destruct o as [[]| |]; [| |done].
      * apply (HR s3 (A ++ [d'] ++ B' ++ [v']) r').
        -- rewrite !length_app. cbn. lia.
        -- congruence.
        -- rewrite Htr3, Htr2, Htr1, <-!app_assoc. done.
        -- rewrite Hm3, lookup_insert_eq. f_equal.
           rewrite !fmap_app, <-!app_assoc. done.
        -- by rewrite Hm3, lookup_insert_ne, lookup_insert_eq.
        -- intros HV. by rewrite (Hv3 eq_refl HV), (Hv2 HV), (Hv1 HV).
      * apply HT; [congruence|].
        rewrite Hm3, lookup_insert_ne, lookup_insert_eq by done. by eexists.
    + intros s2 L Hl2 Ho2 Hm2. apply HT; [congruence|].
      rewrite Hm2, Hm1, !lookup_insert_ne by done. by eexists.
  - intros s1 r Ho1 Hm1. apply sat_ret. apply HT; [done|].
    rewrite Hm1, lookup_insert_ne by done. by eexists.
Qed.

Lemma sat_RawMemory_new_tr n (s : state) (Q : outcome RawMemory → state → Prop) :
  n ≠ 0 → fits n →
  (allocation_fails n s → Q Throw s) →
  (∀ s' b, mem s !! b = None → mem s' = <[b := replicate n None]> (mem s) →
           objs s' = objs s → env s' = env s → trace s' = trace s →
           Q (Ret (mkRawMemory (Ptr b 0) n)) s') →
  sat (RawMemory_new n) s Q.
Proof.
  intros Hn Hfit HT HQ. unfold RawMemory_new.
  apply sat_bind, sat_Allocate; [done..|].
  intros b Hb. apply sat_ret. by apply HQ.
Qed.

Lemma sat_construct_args_tr bd j ld a (s : state) (Q : outcome unit → state → Prop) :
  mem s !! bd = Some ld → j < length ld →
  (∀ s' y, (args_run a (env s)).1 = Some y →
     mem s' = <[bd := <[j := Some y]> ld]> (mem s) → objs s' = objs s →
     trace s' = trace s ++ [args_event a] →
     Q (Ret tt) s') →
  (∀ s', (args_run a (env s)).1 = None →
     mem s' = mem s → objs s' = objs s → Q Throw s') →
  sat (construct_args (Ptr bd j) a) s Q.
Proof.
  intros Hd Hj HR HT. unfold construct_args.
  apply sat_bind, sat_elem.
  destruct (args_run a (env s)) as [[y|] w'] eqn:E; cbn [fst snd].
  - eapply sat_put_slot; [done..|]. by eapply HR.
  - apply sat_throw. apply HT; [by rewrite ?E|done..].
Qed.

Lemma sat_destroy_holder bh hv (s : state) (Q : outcome unit → state → Prop) :
  mem s !! bh = Some [Some hv] →
  (∀ s', mem s' = <[bh := [None]]> (mem s) → objs s' = objs s →
         trace s' = trace s ++ [EvDestroy] → Q (Ret tt) s') →
  sat (destroy_n (Ptr bh 0) 1) s Q.
Proof.
  intros Hb HQ. cbn [destroy_n]. apply sat_bind. unfold destroy_at.
  apply sat_bind. eapply sat_load; [done..|].
  apply sat_bind, sat_elem. eapply sat_put_slot; st; [done | cbn; lia |].
  apply sat_ret. by apply HQ.
Qed.

Lemma sat_uninitialized_move_at i0 j0 k0 n zs rs ys spre spost pre post bs bd
    (s : state) (Q : outcome unit → state → Prop) :
  i0 = length spre → j0 = length pre → k0 = length ys → n = length zs →
  bs ≠ bd →
  length rs = length ys →
  mem s !! bs = Some (spre ++ (Some <$> rs) ++ (Some <$> zs) ++ spost) →
  mem s !! bd = Some (pre ++ (Some <$> ys) ++ replicate (length zs) None ++ post) →
  (∀ s' zs' rs', length zs' = length zs → length rs' = length zs →
     mem s' = <[bd := pre ++ (Some <$> ys ++ zs') ++ post]>
                (<[bs := spre ++ (Some <$> rs ++ rs') ++ spost]> (mem s)) →
     objs s' = objs s → (ValueSemantics T W → zs' = zs) → Q (Ret tt) s') →
  (∀ s' rs', relocation_can_throw → length rs' = length zs →
     mem s' = <[bd := pre ++ replicate (length ys + length zs) None ++ post]>
                (<[bs := spre ++ (Some <$> rs ++ rs') ++ spost]> (mem s)) →
     objs s' = objs s → (Noexcept T W → is_nothrow_move_constructible = false) →
     Q Throw s') →
  sat (uninitialized_loop
         (λ k, construct_move (Ptr bd (j0 + k)) (Ptr bs (i0 + k)))
         (Ptr bd j0) k0 n) s Q.
Proof. intros -> -> -> ->. apply sat_uninitialized_move. Qed.

Lemma sat_uninitialized_copy_at i0 j0 k0 n zs xs ys spre spost pre post bs bd
    (s : state) (Q : outcome unit → state → Prop) :
  i0 = length spre → j0 = length pre → k0 = length ys → n = length zs →
  bs ≠ bd →
  length xs = length ys →
  mem s !! bs = Some (spre ++ (Some <$> xs ++ zs) ++ spost) →
  mem s !! bd = Some (pre ++ (Some <$> ys) ++ replicate (length zs) None ++ post) →
  (∀ s' zs', length zs' = length zs →
     mem s' = <[bd := pre ++ (Some <$> ys ++ zs') ++ post]> (mem s) →
     objs s' = objs s → (ValueSemantics T W → zs' = zs) → Q (Ret tt) s') →
  (∀ s', relocation_can_throw →
     mem s' = <[bd := pre ++ replicate (length ys + length zs) None ++ post]> (mem s) →
     objs s' = objs s → Q Throw s') →
  sat (uninitialized_loop
         (λ k, construct_copy (Ptr bd (j0 + k)) (Ptr bs (i0 + k)))
         (Ptr bd j0) k0 n) s Q.
Proof. intros -> -> -> ->. apply sat_uninitialized_copy. Qed.

(** The relocation around the new element in the growth branch of
    [Emplace]. *)
Lemma sat_relocate_around (A B : list T) (y : T) (post : list (option T))
    (bb bd : addr) (s : state) (Q : outcome unit → state → Prop) :
  bb ≠ bd →
  mem s !! bb = Some (Some <$> A ++ B) →
  mem s !! bd = Some (replicate (length A) None ++ Some y ::
                      replicate (length B) None ++ post) →
  (∀ s' A' B' rs, length A' = length A → length B' = length B →
     length rs = length (A ++ B) → objs s' = objs s →
     mem s' = <[bd := (Some <$> A') ++ Some y :: (Some <$> B') ++ post]>
                (<[bb := Some <$> rs]> (mem s)) →
     (ValueSemantics T W → A' = A ∧ B' = B) → Q (Ret tt) s') →
  (∀ s', relocation_can_throw → objs s' = objs s → is_Some (mem s' !! bd) →
         Q Throw s') →
  sat (if is_nothrow_move_constructible || negb is_copy_constructible then
         uninitialized_move (Ptr bb 0) (Ptr bb (length A)) (Ptr bd 0) ;;;
         uninitialized_move (Ptr bb (length A)) (Ptr bb (length A + length B))
           (Ptr bd (length A + 1))
       else
         uninitialized_copy (Ptr bb 0) (Ptr bb (length A)) (Ptr bd 0) ;;;
         uninitialized_copy (Ptr bb (length A)) (Ptr bb (length A + length B))
           (Ptr bd (length A + 1))) s Q.
Proof.
  intros Hne Hb Hd HR HT. rewrite fmap_app in Hb.
  destruct (_ || _).
  - apply sat_bind. unfold uninitialized_move at 1.
    apply sat_bind, sat_ptr_distance; [lia|]. rewrite Nat.sub_0_r.
    unfold uninitialized_move_n. cbn [ptr_add].
    apply (sat_uninitialized_move_at 0 0 0 (length A) A [] [] [] (Some <$> B) []
             (Some y :: replicate (length B) None ++ post) bb bd);
      [done | done | done | done | done | done | exact Hb | exact Hd | |].
    + intros s1 A' rsA HlA HlrA Hm1 Ho1 HvA. cbn [app fmap list_fmap] in Hm1.
      unfold uninitialized_move.
      apply sat_bind, sat_ptr_distance; [lia|].
      replace (length A + length B - length A) with (length B) by lia.
      unfold uninitialized_move_n. cbn [ptr_add].
      apply (sat_uninitialized_move_at (length A) (length A + 1) 0 (length B) B [] []
               (Some <$> rsA) [] ((Some <$> A') ++ [Some y]) post bb bd).
      * by rewrite length_fmap.
      * rewrite length_app, length_fmap. cbn. lia.
      * done.
      * done.
      * done.
      * done.
      * rewrite Hm1, lookup_insert_ne, lookup_insert_eq by done.
        cbn [app fmap list_fmap]. by rewrite app_nil_r.
      * rewrite Hm1, lookup_insert_eq. cbn [app fmap list_fmap].
        by rewrite <-app_assoc.
      * intros s2 B' rsB HlB HlrB Hm2 Ho2 HvB. cbn [app fmap list_fmap] in Hm2.
        apply (HR s2 A' B' (rsA ++ rsB)); [done | done | | congruence | |].
        -- rewrite !length_app. lia.
        -- rewrite Hm2, Hm1, insert2_collapse by done.
           rewrite fmap_app, !app_nil_r, <-!app_assoc. done.
        -- intros HV. by rewrite (HvA HV), (HvB HV).
      * intros s2 rs' Hc Hl Hm2 Ho2 _. apply HT; [done | congruence |].
        rewrite Hm2, lookup_insert_eq. by eexists.
    + intros s1 rs' Hc Hl Hm1 Ho1 _. apply HT; [done | congruence |].
      rewrite Hm1, lookup_insert_eq. by eexists.
  - apply sat_bind. unfold uninitialized_copy at 1.
    apply sat_bind, sat_ptr_distance; [lia|]. rewrite Nat.sub_0_r.
    unfold uninitialized_copy_n. cbn [ptr_add].
    apply (sat_uninitialized_copy_at 0 0 0 (length A) A [] [] [] (Some <$> B) []
             (Some y :: replicate (length B) None ++ post) bb bd);
      [done | done | done | done | done | done | exact Hb | exact Hd | |].
    + intros s1 A' HlA Hm1 Ho1 HvA. cbn [app fmap list_fmap] in Hm1.
      unfold uninitialized_copy.
      apply sat_bind, sat_ptr_distance; [lia|].
      replace (length A + length B - length A) with (length B) by lia.
      unfold uninitialized_copy_n. cbn [ptr_add].
      apply (sat_uninitialized_copy_at (length A) (length A + 1) 0 (length B) B [] []
               (Some <$> A) [] ((Some <$> A') ++ [Some y]) post bb bd).
      * by rewrite length_fmap.
      * rewrite length_app, length_fmap. cbn. lia.
      * done.
      * done.
      * done.
      * done.
      * rewrite Hm1, lookup_insert_ne by done. rewrite Hb.
        cbn [app fmap list_fmap]. by rewrite app_nil_r.
      * rewrite Hm1, lookup_insert_eq. cbn [app fmap list_fmap].
        by rewrite <-app_assoc.
      * intros s2 B' HlB Hm2 Ho2 HvB. cbn [app fmap list_fmap] in Hm2.
        apply (HR s2 A' B' (A ++ B)); [done | done | done | congruence | |].
        -- rewrite Hm2, Hm1, insert_insert_eq.
           rewrite (insert_id (mem s) bb) by (by rewrite fmap_app).
           rewrite <-!app_assoc. done.
        -- intros HV. by rewrite (HvA HV), (HvB HV).
      * intros s2 Hc Hm2 Ho2. apply HT; [done | congruence |].
        rewrite Hm2, lookup_insert_eq. by eexists.
    + intros s1 Hc Hm1 Ho1. apply HT; [done | congruence |].
      rewrite Hm1, lookup_insert_eq. by eexists.
Qed.


Lemma Emplace_end_sat this a xs c (s : state) :
  Rep s this xs c → (length xs = c → fits (grown c)) →
  sat ((_ <- EmplaceBack this a ;; ret tt) ;;;
       v' <- this_ this ;; ret (ptr_add (GetAddress (data_ v')) (length xs))) s
    (Emplace_post this (length xs) a xs c s).
Proof.
  intros HR Hfit. apply sat_bind, sat_bind.
  eapply sat_mono; [by apply EmplaceBack_sat|].
  intros [p| |] s1; lazy beta iota; [|done..].
  intros (ys & y & v' & Hv' & Hp & Hy & Hl & Hval & HR1).
  apply sat_ret, sat_bind. eapply sat_this; [done|]. apply sat_ret.
  exists (ys ++ [y]), y, v'. split; [done|]. split; [done|]. split; [done|].
  split; [rewrite length_app; cbn; lia|]. split; [|split; [done|lia]].
  intros HV. rewrite (Hval HV), take_ge, drop_ge by done. done.
Qed.

Lemma split_at {X} (xs : list X) (d : nat) :
  d < length xs →
  ∃ A B x, xs = A ++ B ++ [x] ∧ length A = d ∧ take d xs = A ∧ drop d xs = B ++ [x].
Proof.
  intros Hd. destruct (drop d xs) as [|z zs] eqn:E using rev_ind.
  - apply (f_equal length) in E. rewrite length_drop in E. cbn in E. lia.
  - clear IHzs. exists (take d xs), zs, z. split; [by rewrite <-E, take_drop|].
    split; [rewrite length_take; lia|done].
Qed.

Lemma Emplace_sat this dpos a xs c (s : state) v :
  Rep s this xs c → objs s !! this = Some v → dpos ≤ length xs →
  (length xs = c → fits (grown c)) →
  sat (Emplace this (ptr_add (buffer_ (data_ v)) dpos) a) s
    (Emplace_post this dpos a xs c s).
Proof.
  intros HR Hv Hdpos Hfit. pose proof HR as (v0 & Hv0 & Hsz & Hcap & Hle & Hblk).
  assert (v0 = v) as -> by congruence. clear Hv0.
  unfold Emplace. apply sat_bind. unfold begin_, end_.
  apply sat_bind. eapply sat_this; [done|]. apply sat_ret. unfold GetAddress.
  destruct (buffer_ (data_ v)) as [|bb off] eqn:Hbuf.
  - (* no buffer yet *)
    apply block_at_null_inv in Hblk as [-> ->]; [|done].
    cbn in Hdpos. assert (dpos = 0) as -> by lia. cbn [ptr_add].
    apply sat_bind, sat_ret. apply sat_bind, sat_bind.
    eapply sat_this; [done|]. apply sat_ret. rewrite Hbuf. cbn [ptr_add].
    apply sat_bind, sat_ret. rewrite decide_True by done.
    eapply sat_mono; [by apply (Emplace_end_sat this a [] 0 s)|].
    intros o s'. unfold Emplace_post. cbn [length]. by repeat case_match.
  - destruct Hblk as [-> Hblk]. cbn [ptr_add]. rewrite Nat.add_0_l.
    apply sat_bind, sat_ptr_distance; [lia|]. rewrite Nat.sub_0_r.
    apply sat_bind, sat_bind. eapply sat_this; [done|]. apply sat_ret.
    rewrite Hbuf, Hsz. cbn [ptr_add]. rewrite Nat.add_0_l.
    apply sat_bind, sat_ptr_distance; [lia|].
    case_decide as Hend.
    + (* at the end *)
      assert (dpos = length xs) as -> by lia.
      eapply sat_mono; [by apply (Emplace_end_sat this a xs c s)|].
      intros o s'. unfold Emplace_post. by repeat case_match.
    + assert (dpos < length xs) as Hlt by lia. clear Hend Hdpos.
      destruct (split_at xs dpos Hlt) as (A & B & x & Hxs & HlA & Htake & Hdrop).
      apply sat_bind, sat_bind. eapply sat_this; [done|]. apply sat_bind.
      rewrite Hsz, Hcap. case_decide as Hfull.
      * (* the array is full: a new block *)
        fold (grown (length xs)).
        assert (length xs < grown (length xs)) as Hg by (unfold grown; case_decide; lia).
        apply sat_bind, sat_RawMemory_new;
          [lia | rewrite Hfull; by apply Hfit | done |].
        intros s1 bd Hfresh Hm1 Ho1 He1.
        assert (bb ≠ bd) as Hne by congruence.
        apply sat_bind, sat_unwind. unfold GetAddress. cbn [buffer_ ptr_add].
        rewrite !Nat.add_0_l. apply sat_bind.
        eapply sat_construct_args;
          [by rewrite Hm1, lookup_insert_eq | rewrite length_replicate; lia | |].
        -- intros s2 y Hy Hm2 Ho2. rewrite He1 in Hy.
           rewrite Hm1, insert_insert_eq, insert_replicate_mid in Hm2 by lia.
           rewrite <-Hfull, Nat.sub_diag in Hblk. cbn [replicate] in Hblk.
           rewrite app_nil_r in Hblk.
           subst dpos. remember (B ++ [x]) as BB eqn:HBB. subst xs.
           rewrite length_app in *.
           apply (sat_relocate_around A BB y
                    (replicate (grown (length A + length BB) -
                                (length A + length BB) - 1) None) bb bd);
             [done | by rewrite Hm2, lookup_insert_ne | | |].
           ++ rewrite Hm2, lookup_insert_eq, <-replicate_add. do 4 f_equal. lia.
           ++ intros s3 A' B' rs HlA' HlB' Hlrs Ho3 Hm3 Hval.
              rewrite length_app in Hlrs.
              apply sat_bind. eapply sat_set_data; [by rewrite Ho3, Ho2, Ho1|].
              intros s4 Hm4 Ho4. apply sat_bind. rewrite Hbuf.
              apply (sat_destroy_all _ _ rs []); [done | |].
              { split; [done|]. rewrite Hm4, Hm3, lookup_insert_ne, lookup_insert_eq by done.
                by rewrite app_nil_r. }
              intros s5 Hm5 Ho5. unfold RawMemory_delete. rewrite Hbuf.
              eapply sat_Deallocate; [by rewrite Hm5; apply lookup_insert_eq|].
              eapply sat_put_size; st; [by rewrite Ho5, Ho4, lookup_insert_eq|].
              apply sat_bind. eapply sat_this; st; [apply lookup_insert_eq|].
              apply sat_ret. cbn [data_ buffer_ ptr_add].
              exists (A' ++ y :: B'), y. eexists.
              split; [done|]. st. split; [apply lookup_insert_eq|].
              split; [done|]. split; [rewrite !length_app; cbn; lia|].
              split; [intros HV; destruct (Hval HV) as [-> ->]; by rewrite Htake, Hdrop|].
              split; [|rewrite length_app; lia].
              eexists. st. split; [apply lookup_insert_eq|]. cbn [data_ size_ capacity_ buffer_].
              rewrite !length_app. cbn [length]. rewrite decide_True by done.
              rewrite <-Hfull.
              split; [lia|]. split; [done|]. split; [lia|]. split; [done|].
              rewrite Hm5. cbn [put_block]. rewrite lookup_delete_ne, lookup_insert_ne by done.
              rewrite Hm4, Hm3, lookup_insert_eq.
              rewrite fmap_app, <-app_assoc. cbn.
              by replace (grown (length A + length BB) - (length A' + S (length B')))
                with (grown (length A + length BB) - (length A + length BB) - 1) by lia.
           ++ intros s3 Hc Ho3 [l Hl3]. unfold RawMemory_delete. cbn [buffer_].
              eapply sat_Deallocate; [done|]. done.
        -- intros s2 Hc Hm2 Ho2. unfold RawMemory_delete. cbn [buffer_].
           eapply sat_Deallocate; [by rewrite Hm2, Hm1, lookup_insert_eq|]. done.
      * (* room is left: shift the suffix *)
        apply sat_bind, sat_RawMemory_new_tr; [done | apply fits_1 | done |].
        intros s1 bh Hfresh Hm1 Ho1 He1 Htr1.
        assert (bb ≠ bh) as Hne by congruence.
        apply sat_bind, sat_unwind. unfold GetAddress. cbn [buffer_].
        apply sat_bind.
        eapply sat_construct_args_tr; [by rewrite Hm1, lookup_insert_eq | cbn; lia | |].
        -- intros s2 y Hy Hm2 Ho2 Htr2. rewrite He1 in Hy.
           rewrite Hm1, insert_insert_eq in Hm2. cbn in Hm2.
           apply sat_bind, sat_ptr_sub; [lia|].
           rewrite Hbuf. cbn [ptr_add]. rewrite Nat.add_0_l.
           replace (c - length xs) with (S (c - length xs - 1)) in Hblk by lia.
           cbn [replicate] in Hblk.
           assert (length xs = length A + length B + 1) as Hlen
             by (rewrite Hxs, !length_app; cbn; lia).
           rewrite Hlen. replace (length A + length B + 1 - 1) with (length A + length B) by lia.
           subst dpos.
           match goal with |- sat _ _ ?Q =>
             assert (∀ evc eva construct assign,
               constructs evc construct → assigns eva assign →
               shift_events (length B) =
                 evc :: replicate (length B) eva ++ [eva] →
               sat (shift_right construct assign (Ptr bb (length A))
                      (Ptr bb (length A + length B))
                      (Ptr bb (length A + length B + 1))
                      (Ptr bb (length A)) (Ptr bh 0)) s2 Q) as Hgen
           end.
           { intros evc eva construct assign Hc Ha Hev.
             apply (sat_shift_right evc eva construct assign A B x y
                      (replicate (c - length xs - 1) None) bb bh);
               [done | done | done | | | |].
             - rewrite Hm2, lookup_insert_ne by done. by rewrite <-Hxs.
             - by rewrite Hm2, lookup_insert_eq.
             - intros s3 ys hv Hlys Ho3 Htr3 Hb3 Hh3 Hval.
               apply sat_bind.
               apply (sat_destroy_holder bh hv); [done|].
               intros s4 Hm4 Ho4 Htr4. unfold RawMemory_delete. cbn [buffer_].
               eapply sat_Deallocate; [by rewrite Hm4, lookup_insert_eq|].
               eapply sat_put_size; st; [by rewrite Ho4, Ho3, Ho2, Ho1|].
               apply sat_bind. eapply sat_this; st; [apply lookup_insert_eq|].
               apply sat_ret. cbn [data_]. rewrite Hbuf. cbn [ptr_add].
               exists ys, y. eexists.
               split; [done|]. st. split; [apply lookup_insert_eq|].
               cbn [data_]. rewrite Hbuf.
               split; [done|]. split; [lia|].
               split.
               { intros HV. by rewrite (Hval HV), Htake, Hdrop. }
               split.
               2:{ intros _ _. rewrite Htr4, Htr3, Htr2, Htr1, <-!app_assoc. cbn [app].
                   rewrite Hlen.
                   replace (length A + length B + 1 - 1 - length A) with (length B) by lia.
                   by rewrite Hev. }
               eexists. st. split; [apply lookup_insert_eq|].
               cbn [data_ size_]. rewrite decide_False by done.
               split; [lia|]. split; [done|]. split; [lia|]. rewrite Hbuf.
               split; [done|].
               rewrite Hm4, lookup_delete_ne, lookup_insert_ne, Hb3 by done.
               do 3 f_equal. lia.
             - intros s3 Ho3 [l Hl3]. unfold RawMemory_delete. cbn [buffer_].
               eapply sat_Deallocate; [done|]. done. }
           unfold shift_events in Hgen.
           destruct (_ || _).
           ++ exact (Hgen _ _ _ _ construct_move_constructs assign_move_assigns eq_refl).
           ++ exact (Hgen _ _ _ _ construct_copy_constructs assign_copy_assigns eq_refl).
        -- intros s2 Hc Hm2 Ho2. unfold RawMemory_delete. cbn [buffer_].
           eapply sat_Deallocate; [by rewrite Hm2, Hm1, lookup_insert_eq|]. done.
Qed.

Lemma Swap_run (this other : loc) (a b : Vector) (s : state) :
  objs s !! this = Some a → objs s !! other = Some b → this ≠ other →
  Swap this other s =
  (Ret tt, set_objs (λ o, <[other := a]> (<[this := b]> o)) s).
Proof.
  intros Ha Hb Hne. assert (other ≠ this) as Hne' by done.
  unfold Swap, put_size, put_data, set_this, this_, modify, bind, ret.
  rewrite Ha, Hb. st.
  repeat (first [ rewrite lookup_insert_eq | rewrite lookup_insert_ne by done
                | rewrite Ha | rewrite Hb ]; st).
  unfold set_objs. st. rewrite insert2_collapse by done.
  by destruct a, b.
Qed.

Lemma Vector_move_run (this other : loc) (v : Vector) (s : state) :
  objs s !! other = Some v → this ≠ other →
  Vector_move this other s =
  (Ret tt, set_objs (λ o, <[other := mkVector RawMemory_default 0]> (<[this := v]> o)) s).
Proof.
  intros Hv Hne. unfold Vector_move, set_this, modify, bind.
  erewrite Swap_run; st; [| apply lookup_insert_eq | by rewrite lookup_insert_ne | done].
  unfold set_objs. st. by rewrite insert_insert_eq.
Qed.








Lemma poke_run (this : loc) (i : nat) (z : T) (xs : list T) (c : nat) (s : state) :
  Rep s this xs c → i < length xs →
  ∃ s' v b, poke this i z s = (Ret tt, s') ∧
            objs s' = objs s ∧ objs s !! this = Some v ∧
            buffer_ (data_ v) = Ptr b 0 ∧
            mem s' = <[b := (Some <$> <[i := z]> xs) ++ replicate (c - length xs) None]> (mem s).
Proof.
  intros (v & Hv & Hsz & Hcap & Hle & Hblk) Hi.
  destruct (buffer_ (data_ v)) as [|b off] eqn:Hbuf.
  { apply block_at_null_inv in Hblk as [-> _]; [|done]. cbn in Hi. lia. }
  destruct Hblk as [-> Hblk].
  unfold poke, Vector_at, RawMemory_at, bind, this_, assert, ret.
  rewrite Hv, Hsz, Hcap, Hbuf.
  rewrite !bool_decide_eq_true_2 by lia. cbn [ptr_add].
  unfold put_slot. rewrite Hblk. rewrite decide_True.
  2:{ rewrite length_app, length_fmap. lia. }
  eexists _, v, b. split; [done|]. st. split; [done|]. split; [done|]. split; [done|].
  f_equal. rewrite insert_app_l by (rewrite length_fmap; lia).
  by rewrite list_fmap_insert.
Qed.

Lemma Rep_frame (s s' : state) (x : loc) (xs : list T) (c : nat) :
  Rep s x xs c →
  objs s' !! x = objs s !! x →
  (∀ v b off, objs s !! x = Some v → buffer_ (data_ v) = Ptr b off →
              mem s' !! b = mem s !! b) →
  Rep s' x xs c.
Proof.
  intros (v & Hv & Hsz & Hcap & Hle & Hblk) Ho Hm. exists v.
  rewrite Ho. split; [done|]. split; [done|]. split; [done|]. split; [done|].
  destruct (buffer_ (data_ v)) as [|b off] eqn:Hbuf; [done|].
  destruct Hblk as [-> Hblk]. split; [done|]. by rewrite (Hm v b 0).
Qed.

Lemma sat_RawMemory_new_0 (s : state) (Q : outcome RawMemory → state → Prop) :
  Q (Ret (mkRawMemory Null 0)) s → sat (RawMemory_new 0) s Q.
Proof. done. Qed.

Lemma Vector_copy_sat (this other : loc) (xs : list T) (c : nat) (s : state) :
  Rep s other xs c → this ≠ other → fits (length xs) →
  sat (Vector_copy this other) s (λ o s',
    match o with
    | Ret _ =>
        ∃ ys data, length ys = length xs ∧ (ValueSemantics T W → ys = xs) ∧
          objs s' = <[this := mkVector data (length xs)]> (objs s) ∧
          capacity_ data = length xs ∧
          match buffer_ data with
          | Null => xs = [] ∧ mem s' = mem s
          | Ptr bd off => off = 0 ∧ mem s !! bd = None ∧
                          mem s' = <[bd := Some <$> ys]> (mem s)
          end
    | Throw => relocation_can_throw ∨ allocation_fails (length xs) s
    | Undef => False
    end).
Proof.
  intros (v & Hv & Hsz & Hcap & Hle & Hblk) Hne Hfit.
  unfold Vector_copy. apply sat_bind. eapply sat_this; [done|].
  rewrite Hsz. apply sat_bind.
  unfold uninitialized_move_n_const, uninitialized_copy_n, GetAddress.
  destruct xs as [|x xs].
  - apply sat_RawMemory_new_0. apply sat_bind, sat_modify, sat_unwind.
    cbn [uninitialized_loop length].
    destruct (_ || _); apply sat_ret; by exists [], (mkRawMemory Null 0).
  - destruct (buffer_ (data_ v)) as [|b off] eqn:Hbuf.
    { by apply block_at_null_inv in Hblk as [? _]. }
    destruct Hblk as [-> Hblk].
    apply sat_RawMemory_new; [done | done | by right |].
    intros s1 bd Hfresh Hm1 Ho1 _.
    assert (b ≠ bd) as Hb by congruence.
    apply sat_bind, sat_modify, sat_unwind. cbn [buffer_].
    destruct (_ || _);
      (apply (sat_uninitialized_copy (x :: xs) [] [] []
                (replicate (c - length (x :: xs)) None) [] [] b bd); st;
       [ done | done
       | rewrite Hm1, lookup_insert_ne by done; exact Hblk
       | rewrite Hm1, lookup_insert_eq; cbn [app fmap list_fmap]; by rewrite app_nil_r
       | intros s2 ys Hl Hm2 Ho2 Hval;
         exists ys, (mkRawMemory (Ptr bd 0) (length (x :: xs))); cbn [buffer_ capacity_];
         split; [done|]; split; [done|]; split; [by rewrite Ho2, Ho1|]; split; [done|];
         split; [done|]; split; [done|];
         rewrite Hm2, Hm1, insert_insert_eq; cbn [app]; by rewrite app_nil_r
       | intros s2 Hc Hm2 Ho2; apply sat_bind; unfold RawMemory_delete; cbn [buffer_];
         eapply sat_Deallocate; [by rewrite Hm2, lookup_insert_eq|];
         apply sat_modify; by left ]).
Qed.

Lemma poke_Rep (x : loc) (i : nat) (z : T) (xs : list T) (c : nat) (s : state) :
  Rep s x xs c → i < length xs →
  ∃ s', poke x i z s = (Ret tt, s') ∧
        Rep s' x (<[i := z]> xs) c ∧
        ∀ y ys d, disjoint_storage s x y → Rep s y ys d → Rep s' y ys d.
Proof.
  intros HR Hi. destruct (poke_run x i z xs c s HR Hi)
    as (s' & v & b & Hrun & Ho & Hv & Hbuf & Hm).
  exists s'. split; [done|]. split.
  - destruct HR as (v' & Hv' & Hsz & Hcap & Hle & Hblk).
    assert (v' = v) as -> by congruence.
    exists v. rewrite Ho, length_insert. split; [done|]. split; [done|].
    split; [done|]. split; [done|]. rewrite Hbuf. split; [done|].
    by rewrite Hm, lookup_insert_eq.
  - intros y ys d Hdis HRy. eapply Rep_frame; [done | by rewrite Ho |].
    intros vy b' off Hvy Hby. specialize (Hdis v vy Hv Hvy).
    rewrite Hbuf, Hby in Hdis. by rewrite Hm, lookup_insert_ne.
Qed.

Lemma Rep_well_formedb (s : state) this xs c :
  Rep s this xs c → well_formedb s this = true.
Proof.
  intros (v & Hv & Hsz & Hcap & Hle & Hblk). unfold well_formedb. rewrite Hv.
  destruct (buffer_ (data_ v)) as [|b off].
  - apply block_at_null_inv in Hblk as [-> ->]; [|done].
    apply bool_decide_eq_true. by rewrite Hsz, Hcap.
  - destruct Hblk as [-> ->]. rewrite Hsz, Hcap.
    rewrite take_app_length' by (by rewrite length_fmap).
    rewrite drop_app_length' by (by rewrite length_fmap).
    rewrite !andb_true_iff. split; [split|].
    + apply bool_decide_eq_true. rewrite length_app, length_fmap, length_replicate.
      split; [done|]. split; [done|]. lia.
    + apply forallb_forall. intros x Hx. apply in_map_iff in Hx as (y & <- & _). done.
    + apply forallb_forall. intros x Hx. apply list_elem_of_In in Hx.
      by apply elem_of_replicate in Hx as [-> _].
Qed.

Lemma Rep_load (s : state) this xs c v i y :
  Rep s this xs c → objs s !! this = Some v → xs !! i = Some y →
  load (ptr_add (buffer_ (data_ v)) i) s = (Ret y, s).
Proof.
  intros (v' & Hv' & Hsz & Hcap & Hle & Hblk) Hv Hi.
  assert (v' = v) as -> by congruence.
  destruct (buffer_ (data_ v)) as [|b off].
  - apply block_at_null_inv in Hblk as [-> _]; done.
  - destruct Hblk as [-> Hblk]. unfold load. cbn [ptr_add Nat.add]. rewrite Hblk.
    rewrite lookup_app_l by (rewrite length_fmap; by eapply lookup_lt_Some).
    by rewrite list_lookup_fmap, Hi.
Qed.

Lemma Rep_same (s s' : state) (x : loc) (xs : list T) (c : nat) :
  Rep s x xs c → objs s' = objs s → mem s' = mem s → Rep s' x xs c.
Proof.
  intros HR Ho Hm. eapply Rep_frame; [done | by rewrite Ho |].
  intros. by rewrite Hm.
Qed.

Lemma args_run_value `{!ValueSemantics T W} (a : args T W) w y :
  (args_run a w).1 = Some y →
  match a with ByCopy v | ByMove v => y = v | ByCtor _ => True end.
Proof.
  destruct a as [v|v|k]; cbn; [| |done].
  - destruct (T_copy v w) as [o w'] eqn:E. cbn. intros ->. by eapply copy_value.
  - destruct (T_move v w) as [[o r] w'] eqn:E. cbn. intros ->. by eapply move_value.
Qed.


End Logic.

(** * The claims *)

Section Claims.
Context {T W : Type} `{Element T W}.
Local Abbreviation M := (@M T W).
Local Abbreviation state := (@state T W).

(** C1, amended.  Let [T] have a move constructor declared [noexcept], or be
    copy-constructible, and let the requests for storage fit [size_t].
    Then [Reserve], [PushBack] (both overloads) and [EmplaceBack] give the
    strong guarantee: each call either completes, or it ends with the
    exception and the object store and the heap are what they were before
    the call, so the array has its old size, capacity and elements.  This
    holds whatever threw: the constructor of the new element, a
    relocation, or [operator new].  A constructor of the new element that
    throws always ends the call with the exception. *)
Theorem strong_guarantee `{!Noexcept T W} (this : loc) (xs : list T) (c : nat)
    (s : state) :
  is_nothrow_move_constructible = true ∨ is_copy_constructible = true →
  Rep s this xs c →
  (length xs = c → fits (grown c)) →
  (∀ k, (c < k → fits k) →
        match Reserve this k s with
        | (Ret _, s') => ∃ ys, length ys = length xs ∧ Rep s' this ys (c `max` k)
        | (Throw, s') => Rep s' this xs c ∧ objs s' = objs s ∧ mem s' = mem s
        | (Undef, _) => False
        end) ∧
  (∀ x, match PushBack this x s with
        | (Ret _, s') =>
            ∃ ys, length ys = S (length xs) ∧
                  Rep s' this ys (if decide (length xs = c) then grown c else c)
        | (Throw, s') => Rep s' this xs c ∧ objs s' = objs s ∧ mem s' = mem s
        | (Undef, _) => False
        end) ∧
  (∀ x, match PushBack_rvalue this x s with
        | (Ret _, s') =>
            ∃ ys, length ys = S (length xs) ∧
                  Rep s' this ys (if decide (length xs = c) then grown c else c)
        | (Throw, s') => Rep s' this xs c ∧ objs s' = objs s ∧ mem s' = mem s
        | (Undef, _) => False
        end) ∧
  (∀ a, match EmplaceBack this a s with
        | (Ret _, s') =>
            ∃ ys, length ys = S (length xs) ∧
                  Rep s' this ys (if decide (length xs = c) then grown c else c)
        | (Throw, s') => Rep s' this xs c ∧ objs s' = objs s ∧ mem s' = mem s
        | (Undef, _) => False
        end) ∧
  (∀ x, (T_copy x (env s)).1 = None → (PushBack this x s).1 = Throw) ∧
  (∀ x, (T_move x (env s)).1.1 = None → (PushBack_rvalue this x s).1 = Throw) ∧
  (∀ a, (args_run a (env s)).1 = None → (EmplaceBack this a s).1 = Throw).
Proof.
  intros Hpol HR Hfit.
  assert (∀ a, match PushBack_with this a s with
               | (Ret _, s') =>
                   ∃ ys, length ys = S (length xs) ∧
                     Rep s' this ys (if decide (length xs = c) then grown c else c)
               | (Throw, s') => Rep s' this xs c ∧ objs s' = objs s ∧ mem s' = mem s
               | (Undef, _) => False
               end ∧
               ((args_run a (env s)).1 = None → (PushBack_with this a s).1 = Throw))
    as Hpush.
  { intros a. pose proof (PushBack_with_sat this a xs c s HR Hfit) as Hsat.
    unfold sat in Hsat. destruct (PushBack_with this a s) as [[[]| |] s']; cbn in *.
    - destruct Hsat as (ys & y & Hy & Hl & _ & Hrep). split; [|congruence].
      exists (ys ++ [y]). rewrite length_app. cbn. split; [lia|done].
    - destruct Hsat as (_ & Ho & Hm). specialize (Hm _ Hpol).
      split; [|done]. split; [by eapply Rep_same|done].
    - done. }
  split; [|split; [|split; [|split; [|split; [|split]]]]].
  - intros k Hk. pose proof (Reserve_sat this k xs c s HR Hk) as Hsat.
    unfold sat in Hsat. destruct (Reserve this k s) as [[[]| |] s']; cbn in Hsat.
    + destruct Hsat as [[Hle ->]|(Hlt & ys & Hl & _ & Hrep)].
      * exists xs. by rewrite Nat.max_l.
      * exists ys. rewrite Nat.max_r by lia. done.
    + destruct Hsat as (_ & _ & Ho & Hm). specialize (Hm _ Hpol).
      split; [by eapply Rep_same|done].
    + done.
  - intros x. apply (Hpush (ByCopy x)).
  - intros x. apply (Hpush (ByMove x)).
  - intros a. pose proof (EmplaceBack_sat this a xs c s HR Hfit) as Hsat.
    unfold sat in Hsat. destruct (EmplaceBack this a s) as [[p| |] s']; cbn in Hsat.
    + destruct Hsat as (ys & y & v' & _ & _ & _ & Hl & _ & Hrep). exists (ys ++ [y]).
      rewrite length_app. cbn. split; [lia|done].
    + destruct Hsat as (_ & Ho & Hm). specialize (Hm _ Hpol).
      split; [by eapply Rep_same|done].
    + done.
  - intros x Hx. by apply (Hpush (ByCopy x)).
  - intros x Hx. by apply (Hpush (ByMove x)).
  - intros a Ha. pose proof (EmplaceBack_sat this a xs c s HR Hfit) as Hsat.
    unfold sat in Hsat. destruct (EmplaceBack this a s) as [[p| |] s']; cbn in *.
    + destruct Hsat as (ys & y & v' & _ & _ & Hy & _). congruence.
    + done.
    + done.
Qed.

(** C2.  The invariant does not survive move assignment.  Let [this] hold
    at least one element and let [rhs] be another array.  Then
    [this = std::move(rhs)] returns and runs no destructor: [this] ends
    with the elements and the buffer of [rhs]; [rhs] ends with size 0 and
    the former buffer of [this], whose first slot still holds the live
    first element of [this].  Slots [size, capacity) of [rhs] are
    therefore not raw storage, and no list of elements and no capacity
    describe [rhs]. *)
Theorem move_assignment_keeps_live_elements (this rhs : loc) (x : T)
    (xs ys : list T) (c c' : nat) (s : state) :
  Rep s this (x :: xs) c → Rep s rhs ys c' → this ≠ rhs →
  ∃ s' v, Vector_assign_move this rhs s = (Ret tt, s') ∧
          Rep s' this ys c' ∧
          objs s' !! rhs = Some v ∧ size_ v = 0 ∧ capacity_ (data_ v) = c ∧
          load (buffer_ (data_ v)) s' = (Ret x, s') ∧
          trace s' = trace s ∧
          ¬ well_formed s' rhs.
Proof.
  intros (v & Hv & Hsz & Hcap & Hle & Hblk) (u & Hu & Husz & Hucap & Hule & Hublk) Hne.
  cbn [length] in *.
  assert (∃ b l, buffer_ (data_ v) = Ptr b 0 ∧
                 mem s !! b = Some (Some x :: l)) as (b & l & Hb & Hm).
  { destruct (buffer_ (data_ v)) as [|b off]; [done|].
    destruct Hblk as [-> Hblk]. rewrite fmap_cons in Hblk. cbn [app] in Hblk.
    by eauto. }
  set (s1 := set_objs (insert this (mkVector (data_ v) 0)) s).
  assert (Vector_assign_move this rhs s
          = Swap this rhs s1) as ->.
  { unfold Vector_assign_move. rewrite decide_False by done.
    unfold put_size, bind, this_, set_this, modify. by rewrite Hv. }
  erewrite Swap_run; [| by apply lookup_insert_eq
                      | by subst s1; st; rewrite lookup_insert_ne | done].
  eexists _, (mkVector (data_ v) 0). split; [done|]. subst s1. st.
  split.
  { exists u. st. rewrite lookup_insert_ne, lookup_insert_eq by done. done. }
  split; [apply lookup_insert_eq|]. split; [done|]. split; [done|]. cbn.
  split; [by unfold load; rewrite Hb; st; rewrite Hm|].
  split; [done|].
  intros (zs & k & r & Hr & Hrsz & Hrcap & Hrle & Hrblk). st.
  rewrite lookup_insert_eq in Hr. simplify_eq. cbn in *.
  rewrite Hb in Hrblk. destruct Hrblk as [_ Hrblk]. rewrite Hm in Hrblk.
  symmetry in Hrsz. apply nil_length_inv in Hrsz as ->. cbn in Hrblk.
  destruct (capacity_ (data_ v)); [lia|]. done.
Qed.

(** C4.  For an element type whose copy yields the value of its source,
    and a source whose elements take less than 2^64 bytes,
    [Vector(const Vector& other)] either throws, because an element copy
    or [operator new] does, or builds at [this] an array with the elements
    of [other] in order and with size and capacity [other.size_]; [other]
    keeps its elements and capacity; the two arrays use different blocks,
    and a mutation of an element of either leaves the other array as it
    is. *)
Theorem copy_construct_is_deep `{!ValueSemantics T W} (this other : loc)
    (xs : list T) (c : nat) (s : state) :
  Rep s other xs c → this ≠ other → fits (length xs) →
  match Vector_copy this other s with
  | (Ret _, s') =>
      Rep s' this xs (length xs) ∧
      Rep s' other xs c ∧
      disjoint_storage s' this other ∧
      ∀ i z, i < length xs →
        (∃ s'', poke this i z s' = (Ret tt, s'') ∧
                Rep s'' this (<[i := z]> xs) (length xs) ∧ Rep s'' other xs c) ∧
        (∃ s'', poke other i z s' = (Ret tt, s'') ∧
                Rep s'' other (<[i := z]> xs) c ∧ Rep s'' this xs (length xs))
  | (Throw, _) => relocation_can_throw ∨ allocation_fails (length xs) s
  | (Undef, _) => False
  end.
Proof.
  intros HR Hne Hfit.
  pose proof (Vector_copy_sat this other xs c s HR Hne Hfit) as Hsat.
  unfold sat in Hsat. destruct (Vector_copy this other s) as [[[]| |] s']; cbn in Hsat;
    [|done..].
  destruct Hsat as (ys & data & Hl & Hval & Ho & Hcap & Hbuf).
  rewrite (Hval _) in *. clear Hval Hl ys.
  assert (Rep s' this xs (length xs)) as HRt.
  { exists (mkVector data (length xs)). rewrite Ho, lookup_insert_eq. cbn.
    split; [done|]. split; [done|]. split; [done|]. split; [done|].
    rewrite Nat.sub_diag. cbn. rewrite app_nil_r.
    destruct (buffer_ data) as [|bd off].
    - by destruct Hbuf as [-> _].
    - destruct Hbuf as (-> & _ & ->). split; [done|]. apply lookup_insert_eq. }
  assert (Rep s' other xs c) as HRo.
  { eapply Rep_frame; [done | by rewrite Ho, lookup_insert_ne |].
    intros v b off Hv Hb. destruct (buffer_ data) as [|bd off'].
    - by destruct Hbuf as [_ ->].
    - destruct Hbuf as (_ & Hfresh & ->). apply lookup_insert_ne.
      destruct HR as (v' & Hv' & _ & _ & _ & Hblk). simplify_eq.
      rewrite Hb in Hblk. destruct Hblk as [_ Hblk]. congruence. }
  assert (disjoint_storage s' this other) as Hdis.
  { intros vx vy Hx Hy. rewrite Ho, lookup_insert_eq in Hx.
    rewrite Ho, lookup_insert_ne in Hy by done. simplify_eq. cbn.
    destruct (buffer_ data) as [|bd off']; [done|].
    destruct (buffer_ (data_ vy)) as [|b off] eqn:Hb; [done|].
    destruct Hbuf as (_ & Hfresh & _).
    destruct HR as (v' & Hv' & _ & _ & _ & Hblk). simplify_eq.
    rewrite Hb in Hblk. destruct Hblk as [_ Hblk]. congruence. }
  split; [done|]. split; [done|]. split; [done|].
  intros i z Hi. split.
  - destruct (poke_Rep this i z xs _ s' HRt Hi) as (s'' & Hrun & HR1 & Hfr).
    exists s''. split; [done|]. split; [done|]. by apply Hfr.
  - destruct (poke_Rep other i z xs _ s' HRo Hi) as (s'' & Hrun & HR1 & Hfr).
    exists s''. split; [done|]. split; [done|]. apply Hfr; [|done].
    intros vx vy Hx Hy. specialize (Hdis vy vx Hy Hx).
    destruct (buffer_ (data_ vx)), (buffer_ (data_ vy)); done.
Qed.

(** C5.  [Vector(Vector&& other)] always returns; the new array at [this]
    has the elements and the capacity [other] had, [other.Size()] is 0
    afterwards, and no element is touched: the heap, the state of the
    element type and the list of executed element operations are
    unchanged. *)
Theorem move_construct_steals (this other : loc) (xs : list T) (c : nat)
    (s : state) :
  Rep s other xs c → this ≠ other →
  ∃ s', Vector_move this other s = (Ret tt, s') ∧
        Rep s' this xs c ∧
        Size other s' = (Ret 0, s') ∧
        mem s' = mem s ∧ env s' = env s ∧ trace s' = trace s.
Proof.
  intros (v & Hv & Hsz & Hcap & Hle & Hblk) Hne.
  eexists. split; [by apply Vector_move_run|]. st. split.
  - exists v. st. split; [|done].
    by rewrite lookup_insert_ne, lookup_insert_eq.
  - split; [|done]. unfold Size, bind, this_. st. by rewrite lookup_insert_eq.
Qed.


(** C7, amended.  When [Emplace] inserts before [end()] and the capacity
    suffices, a run that returns executes these element operations, in
    this order: the constructor of the new value (in the one-slot holder),
    the relocation of the last element into the slot one past the end,
    one assignment for each other element of the suffix and one from the
    holder, and the destructor of the holder.  The relocation and the
    assignments are moves exactly when the move assignment of [T] is
    declared [noexcept] or [T] is not copy-assignable, and copies
    otherwise. *)
Theorem shift_follows_assignment_traits (this : loc) (d : nat) (a : args T W)
    (xs : list T) (c : nat) (s : state) (v : Vector) :
  Rep s this xs c → objs s !! this = Some v → d < length xs → length xs < c →
  match Emplace this (ptr_add (buffer_ (data_ v)) d) a s with
  | (Ret _, s') =>
      trace s' = trace s ++ args_event a ::
        (if is_nothrow_move_assignable || negb is_copy_assignable
         then EvMove :: replicate (length xs - 1 - d) EvMoveAssign ++ [EvMoveAssign]
         else EvCopy :: replicate (length xs - 1 - d) EvCopyAssign ++ [EvCopyAssign])
        ++ [EvDestroy]
  | (Throw, _) => True
  | (Undef, _) => False
  end.
Proof.
  intros HR Hv Hd Hc.
  assert (d ≤ length xs) as Hd' by lia.
  assert (length xs = c → fits (grown c)) as Hfit by lia.
  pose proof (Emplace_sat this d a xs c s v HR Hv Hd' Hfit) as Hsat.
  unfold sat, Emplace_post in Hsat.
  destruct (Emplace this _ a s) as [[p| |] s']; cbn in Hsat; [|done..].
  destruct Hsat as (ys & y & v' & _ & _ & _ & _ & _ & _ & Htr).
  by apply Htr.
Qed.

(** C8.  Assigning an array to itself, by copy or by move, returns and
    leaves the whole state, hence the size, the capacity and the elements
    of the array, as it was. *)
Theorem self_assignment_is_identity (x : loc) (s : state) :
  Vector_assign x x s = (Ret tt, s) ∧ Vector_assign_move x x s = (Ret tt, s).
Proof.
  unfold Vector_assign, Vector_assign_move. by rewrite !decide_True.
Qed.

(** C9.  After [Vector(Vector&& other)] the source has the state of a
    default-constructed array: null buffer, capacity 0, size 0. *)
Theorem moved_from_has_no_buffer (this other : loc) (v : Vector) (s : state) :
  objs s !! other = Some v → this ≠ other →
  ∃ s', Vector_move this other s = (Ret tt, s') ∧
        objs s' !! other = Some (mkVector (mkRawMemory Null 0) 0) ∧
        Capacity other s' = (Ret 0, s').
Proof.
  intros Hv Hne. eexists. split; [by apply Vector_move_run|]. st.
  split; [apply lookup_insert_eq|].
  unfold Capacity, bind, this_. st. by rewrite lookup_insert_eq.
Qed.


End Claims.

(** * The claims on the sample clients *)

(** A concrete array is described by reading its object and its block. *)
Ltac rep_by_run v :=
  exists v; split; [vm_compute; reflexivity|];
  split; [reflexivity|]; split; [reflexivity|]; split; [cbn; lia|];
  unfold block_at; cbn [buffer_ data_];
  first [ reflexivity | split; [reflexivity | vm_compute; reflexivity] ].

Section Counted.
#[local] Existing Instance counted.

Lemma counted_noexcept : Noexcept nat nat.
Proof. split; intros _; intros; cbn; done. Qed.

Lemma counted_value_semantics : ValueSemantics nat nat.
Proof. split; cbn; intros; by simplify_eq. Qed.

#[local] Existing Instance counted_noexcept.
#[local] Existing Instance counted_value_semantics.


Lemma counted_12_Rep : Rep counted_12 0 [1; 2] 2.
Proof. rep_by_run (mkVector (mkRawMemory (Ptr 1 0) 2) 2). Qed.

Lemma counted_123_Rep : Rep counted_123 0 [1; 2; 3] 4.
Proof. rep_by_run (mkVector (mkRawMemory (Ptr 2 0) 4) 3). Qed.

Lemma counted_pair_Rep :
  Rep counted_pair 0 [1] 1 ∧ Rep counted_pair 1 [] 0.
Proof.
  split.
  - rep_by_run (mkVector (mkRawMemory (Ptr 0 0) 1) 1).
  - rep_by_run (mkVector (mkRawMemory Null 0) 0).
Qed.

(** [x = std::move(y)] with [x] holding the element 1 and [y] empty: [y]
    has size 0 and the block of [x] with the element 1 still alive in it. *)
Lemma move_assignment_keeps_live_elements_witness :
  Rep counted_pair 0 [1] 1 ∧ Rep counted_pair 1 [] 0 ∧ 0 ≠ 1 ∧
  ∃ s' v, Vector_assign_move 0 1 counted_pair = (Ret tt, s') ∧
          Rep s' 0 [] 0 ∧
          objs s' !! 1 = Some v ∧ size_ v = 0 ∧ capacity_ (data_ v) = 1 ∧
          load (buffer_ (data_ v)) s' = (Ret 1, s') ∧
          trace s' = trace counted_pair ∧
          ¬ well_formed s' 1.
Proof.
  split; [apply counted_pair_Rep|]. split; [apply counted_pair_Rep|].
  split; [lia|].
  apply (move_assignment_keeps_live_elements 0 1 1 [] [] 1 0 counted_pair);
    [apply counted_pair_Rep | apply counted_pair_Rep | lia].
Defined.

(** The element that move assignment leaves behind is never destroyed:
    when both arrays have died, the block is gone and the only element
    operation that ever ran is the copy construction of [PushBack]. *)
Lemma move_assignment_leaks :
  well_formedb (Vector_assign_move 0 1 counted_pair).2 1 = false ∧
  counted_pair_gone.1 = Ret tt ∧
  mem counted_pair_gone.2 = ∅ ∧
  trace counted_pair_gone.2 = [EvCopy].
Proof. vm_compute. repeat split. Qed.


(** Copying the array 1, 2, 3 and then overwriting the first element of
    the copy with 9. *)
Lemma copy_construct_is_deep_witness :
  Rep counted_123 0 [1; 2; 3] 4 ∧ 1 ≠ 0 ∧ fits 3 ∧
  ∃ s', Vector_copy 1 0 counted_123 = (Ret tt, s') ∧
        Rep s' 1 [1; 2; 3] 3 ∧ Rep s' 0 [1; 2; 3] 4 ∧
        disjoint_storage s' 1 0 ∧
        ∃ s'', poke 1 0 9 s' = (Ret tt, s'') ∧
               Rep s'' 1 [9; 2; 3] 3 ∧ Rep s'' 0 [1; 2; 3] 4.
Proof.
  split; [apply counted_123_Rep|]. split; [lia|].
  split; [vm_compute; reflexivity|].
  pose proof (copy_construct_is_deep 1 0 [1; 2; 3] 4 counted_123
                counted_123_Rep ltac:(lia) ltac:(vm_compute; reflexivity))
    as Hcopy.
  assert ((Vector_copy 1 0 counted_123).1 = Ret tt) as Hret
    by (vm_compute; reflexivity).
  destruct (Vector_copy 1 0 counted_123) as [[[]| |] s'];
    [|discriminate Hret..].
  destruct Hcopy as (Hthis & Hother & Hdis & Hpoke).
  exists s'. split; [reflexivity|]. split; [exact Hthis|].
  split; [exact Hother|]. split; [exact Hdis|].
  destruct (Hpoke 0 9 ltac:(cbn; lia)) as [(s'' & Hrun & H1 & H0) _].
  exists s''. split; [exact Hrun|]. split; [exact H1 | exact H0].
Defined.

(** Move-constructing from the array 1, 2, 3. *)
Lemma move_construct_steals_witness :
  Rep counted_123 0 [1; 2; 3] 4 ∧ 1 ≠ 0 ∧
  ∃ s', Vector_move 1 0 counted_123 = (Ret tt, s') ∧
        Rep s' 1 [1; 2; 3] 4 ∧
        Size 0 s' = (Ret 0, s') ∧
        mem s' = mem counted_123 ∧ env s' = env counted_123 ∧
        trace s' = trace counted_123.
Proof.
  split; [apply counted_123_Rep|]. split; [lia|].
  apply (move_construct_steals 1 0 [1; 2; 3] 4 counted_123);
    [apply counted_123_Rep | lia].
Defined.

(** Inserting before the second element of the array 1, 2, 3 of capacity
    4: this element type has a [noexcept] move assignment, and the shift
    moves. *)
Lemma shift_follows_assignment_traits_witness :
  Rep counted_123 0 [1; 2; 3] 4 ∧
  ∃ p s', Emplace 0 (Ptr 2 1) (ByCtor (λ w, (Some 9, w))) counted_123
          = (Ret p, s') ∧
          trace s' = trace counted_123 ++
            [EvCtor; EvMove; EvMoveAssign; EvMoveAssign; EvDestroy].
Proof.
  split; [apply counted_123_Rep|].
  pose proof (shift_follows_assignment_traits 0 1
                (ByCtor (λ w, (Some 9, w))) [1; 2; 3] 4 counted_123
                (mkVector (mkRawMemory (Ptr 2 0) 4) 3)
                counted_123_Rep ltac:(vm_compute; reflexivity)
                ltac:(cbn; lia) ltac:(cbn; lia)) as Hshift.
  cbn [ptr_add buffer_ data_ Nat.add] in Hshift.
  assert (∃ p, (Emplace 0 (Ptr 2 1) (ByCtor (λ w, (Some 9, w)))
                  counted_123).1 = Ret p)
    as [p Hret] by (eexists; vm_compute; reflexivity).
  destruct (Emplace 0 (Ptr 2 1) (ByCtor (λ w, (Some 9, w))) counted_123)
    as [[q| |] s']; [|discriminate Hret..].
  exists q, s'. split; [reflexivity | exact Hshift].
Defined.

(** The source of a move construction from the array 1, 2, 3. *)
Lemma moved_from_has_no_buffer_witness :
  objs counted_123 !! 0 = Some (mkVector (mkRawMemory (Ptr 2 0) 4) 3) ∧
  1 ≠ 0 ∧
  ∃ s', Vector_move 1 0 counted_123 = (Ret tt, s') ∧
        objs s' !! 0 = Some (mkVector (mkRawMemory Null 0) 0) ∧
        Capacity 0 s' = (Ret 0, s').
Proof.
  split; [vm_compute; reflexivity|]. split; [lia|].
  apply (moved_from_has_no_buffer 1 0 (mkVector (mkRawMemory (Ptr 2 0) 4) 3)
           counted_123); [vm_compute; reflexivity | lia].
Defined.


End Counted.

Section Fragile.
#[local] Existing Instance fragile_copy.

Lemma fragile_copy_noexcept : Noexcept nat unit.
Proof. split; intros Hflag; discriminate Hflag. Qed.

#[local] Existing Instance fragile_copy_noexcept.

Lemma fragile_17_Rep : Rep fragile_17 0 [1; 7] 2.
Proof. rep_by_run (mkVector (mkRawMemory (Ptr 1 0) 2) 2). Qed.

(** [Reserve(4)] and [PushBack(5)] on the array 1, 7 of capacity 2 when
    copying 7 throws: the exception reaches the caller and the array is
    as before. *)
Lemma strong_guarantee_witness :
  (is_nothrow_move_constructible = true ∨ is_copy_constructible = true) ∧
  Rep fragile_17 0 [1; 7] 2 ∧ fits (grown 2) ∧ fits 4 ∧
  (∃ s', Reserve 0 4 fragile_17 = (Throw, s') ∧
         Rep s' 0 [1; 7] 2 ∧
         objs s' = objs fragile_17 ∧ mem s' = mem fragile_17) ∧
  (∃ s', PushBack 0 5 fragile_17 = (Throw, s') ∧
         Rep s' 0 [1; 7] 2 ∧
         objs s' = objs fragile_17 ∧ mem s' = mem fragile_17) ∧
  (∃ s', PushBack_rvalue 0 5 fragile_17 = (Throw, s') ∧
         Rep s' 0 [1; 7] 2 ∧
         objs s' = objs fragile_17 ∧ mem s' = mem fragile_17).
Proof.
  split; [right; reflexivity|]. split; [apply fragile_17_Rep|].
  split; [vm_compute; reflexivity|]. split; [vm_compute; reflexivity|].
  destruct (strong_guarantee 0 [1; 7] 2 fragile_17
              ltac:(right; reflexivity) fragile_17_Rep
              ltac:(intros _; vm_compute; reflexivity))
    as (Hreserve & Hpush & Hpushr & _).
  split; [|split].
  - specialize (Hreserve 4 ltac:(intros _; vm_compute; reflexivity)).
    assert ((Reserve 0 4 fragile_17).1 = Throw) as Hthrow
      by (vm_compute; reflexivity).
    destruct (Reserve 0 4 fragile_17) as [[[]| |] s'];
      [discriminate Hthrow | | discriminate Hthrow].
    exists s'. split; [reflexivity | exact Hreserve].
  - specialize (Hpush 5).
    assert ((PushBack 0 5 fragile_17).1 = Throw) as Hthrow
      by (vm_compute; reflexivity).
    destruct (PushBack 0 5 fragile_17) as [[[]| |] s'];
      [discriminate Hthrow | | discriminate Hthrow].
    exists s'. split; [reflexivity | exact Hpush].
  - specialize (Hpushr 5).
    assert ((PushBack_rvalue 0 5 fragile_17).1 = Throw) as Hthrow
      by (vm_compute; reflexivity).
    destruct (PushBack_rvalue 0 5 fragile_17) as [[[]| |] s'];
      [discriminate Hthrow | | discriminate Hthrow].
    exists s'. split; [reflexivity | exact Hpushr].
Defined.

End Fragile.

Section MoveOnly.
#[local] Existing Instance move_only.

Lemma move_only_17_Rep : Rep move_only_17 0 [1; 7] 2.
Proof. rep_by_run (mkVector (mkRawMemory (Ptr 1 0) 2) 2). Qed.

(** A move-only element type whose move constructor throws for 7.
    [Reserve(4)] and the growing [PushBack] on the array 1, 7 move the 1
    into the new block before the move of 7 throws: the exception reaches
    the caller, and the array is left with the elements 0, 7. *)
Lemma strong_guarantee_counterexample :
  is_nothrow_move_constructible = false ∧ is_copy_constructible = false ∧
  Rep move_only_17 0 [1; 7] 2 ∧
  (∃ s', Reserve 0 4 move_only_17 = (Throw, s') ∧
         elements s' 0 = Some [0; 7] ∧ ¬ Rep s' 0 [1; 7] 2) ∧
  (∃ s', PushBack_rvalue 0 5 move_only_17 = (Throw, s') ∧
         elements s' 0 = Some [0; 7] ∧ ¬ Rep s' 0 [1; 7] 2).
Proof.
  split; [reflexivity|]. split; [reflexivity|].
  split; [apply move_only_17_Rep|]. split.
  - exists (Reserve 0 4 move_only_17).2.
    split; [vm_compute; reflexivity|]. split; [vm_compute; reflexivity|].
    intros HR%Rep_elements. vm_compute in HR. discriminate HR.
  - exists (PushBack_rvalue 0 5 move_only_17).2.
    split; [vm_compute; reflexivity|]. split; [vm_compute; reflexivity|].
    intros HR%Rep_elements. vm_compute in HR. discriminate HR.
Qed.

End MoveOnly.

Section Scarce.
#[local] Existing Instance scarce.

Lemma scarce_value_semantics : ValueSemantics nat nat.
Proof. split; cbn; intros; by simplify_eq. Qed.

#[local] Existing Instance scarce_value_semantics.

Lemma scarce_12_Rep : Rep scarce_12 0 [1; 2] 2.
Proof. rep_by_run (mkVector (mkRawMemory (Ptr 1 0) 2) 2). Qed.


End Scarce.

Section Careful.
#[local] Existing Instance careful_assign.

Lemma careful_123_Rep : Rep careful_123 0 [1; 2; 3] 4.
Proof. rep_by_run (mkVector (mkRawMemory (Ptr 2 0) 4) 3). Qed.

(** An element type with a [noexcept] move constructor, so that growth
    relocates by move, and a move assignment that is not [noexcept]:
    inserting before the second element of the array 1, 2, 3 of capacity
    4 shifts by copy construction and copy assignment. *)
Lemma shift_follows_assignment_traits_counterexample :
  is_nothrow_move_constructible || negb is_copy_constructible = true ∧
  Rep careful_123 0 [1; 2; 3] 4 ∧
  ∃ s', Emplace 0 (Ptr 2 1) (ByCtor (λ w, (Some 9, w))) careful_123
        = (Ret (Ptr 2 1), s') ∧
        Rep s' 0 [1; 9; 2; 3] 4 ∧
        trace s' = trace careful_123 ++
          [EvCtor; EvCopy; EvCopyAssign; EvCopyAssign; EvDestroy].
Proof.
  split; [reflexivity|]. split; [apply careful_123_Rep|].
  exists (Emplace 0 (Ptr 2 1) (ByCtor (λ w, (Some 9, w))) careful_123).2.
  split; [vm_compute; reflexivity|]. split; [|vm_compute; reflexivity].
  rep_by_run (mkVector (mkRawMemory (Ptr 2 0) 4) 4).
Qed.

End Careful.

(** * Reasoning about the other operations *)

Section OperationLogic.
Context {T W : Type} `{Element T W}.
Local Abbreviation M := (@M T W).
Local Abbreviation state := (@state T W).

(** A run that cannot throw nor leave the contract returns. *)
Lemma sat_returns {A} (m : M A) (s : state) (P : A → state → Prop) :
  sat m s (λ o s', match o with Ret a => P a s' | _ => False end) →
  ∃ a s', m s = (Ret a, s') ∧ P a s'.
Proof.
  unfold sat. destruct (m s) as [[a| |] s']; cbn; [|done..]. by exists a, s'.
Qed.

Lemma sat_destroy_at_tr b i l x (s : state) (Q : outcome unit → state → Prop) :
  mem s !! b = Some l → l !! i = Some (Some x) →
  (∀ s', mem s' = <[b := <[i := None]> l]> (mem s) → objs s' = objs s →
         trace s' = trace s ++ [EvDestroy] → env s' = T_destroy x (env s) →
         Q (Ret tt) s') →
  sat (destroy_at (Ptr b i)) s Q.
Proof.
  intros Hb Hi HQ. unfold destroy_at.
  apply sat_bind. eapply sat_load; [done..|].
  apply sat_bind, sat_elem. cbn [fst snd].
  eapply sat_put_slot; st; [done | by eapply lookup_lt_Some |].
  by apply HQ.
Qed.

Lemma sat_destroy_n_tr ys : ∀ pre post b (s : state)
    (Q : outcome unit → state → Prop),
  mem s !! b = Some (pre ++ (Some <$> ys) ++ post) →
  (∀ s', mem s' = <[b := pre ++ replicate (length ys) None ++ post]> (mem s) →
         objs s' = objs s →
         trace s' = trace s ++ replicate (length ys) EvDestroy →
         Q (Ret tt) s') →
  sat (destroy_n (Ptr b (length pre)) (length ys)) s Q.
Proof.
  induction ys as [|y ys IH]; intros pre post b s Q Hm HQ.
  - apply sat_ret, HQ; [|done|by rewrite app_nil_r]. by rewrite insert_id.
  - rewrite fmap_cons in Hm. cbn [app] in Hm. cbn [destroy_n length].
    apply sat_bind.
    eapply sat_destroy_at_tr; [exact Hm | by apply list_lookup_middle |].
    intros s1 Hm1 Ho1 Ht1 _. rewrite list_insert_mid in Hm1.
    replace (ptr_add (Ptr b (length pre)) 1) with (Ptr b (length (pre ++ [None])))
      by (rewrite length_app; done).
    eapply (IH (pre ++ [None]) post).
    + rewrite Hm1, lookup_insert_eq. by rewrite <-app_assoc.
    + intros s' Hm' Ho' Ht'. apply HQ; [|congruence|].
      * rewrite Hm', Hm1, insert_insert_eq. by rewrite <-app_assoc.
      * rewrite Ht', Ht1, <-app_assoc. done.
Qed.

(** The slots of an array, split at an index. *)
Lemma Rep_block (s : state) this xs c v :
  Rep s this xs c → objs s !! this = Some v →
  size_ v = length xs ∧ capacity_ (data_ v) = c ∧ length xs ≤ c ∧
  block_at (mem s) (buffer_ (data_ v))
    ((Some <$> xs) ++ replicate (c - length xs) None).
Proof. intros (v' & Hv' & ?) Hv. by simplify_eq. Qed.

Lemma Rep_nonempty_block (s : state) this xs c v :
  Rep s this xs c → objs s !! this = Some v → 0 < c →
  ∃ b, buffer_ (data_ v) = Ptr b 0 ∧
       mem s !! b = Some ((Some <$> xs) ++ replicate (c - length xs) None).
Proof.
  intros HR Hv Hc. destruct (Rep_block _ _ _ _ _ HR Hv) as (_ & _ & Hle & Hblk).
  destruct (buffer_ (data_ v)) as [|b off].
  - apply block_at_null_inv in Hblk as [_ ->]; [lia|done].
  - destruct Hblk as [-> Hm]. by exists b.
Qed.

Lemma PopBack_sat this xs x c (s : state) v :
  Rep s this (xs ++ [x]) c → objs s !! this = Some v →
  ∃ s', PopBack this s = (Ret tt, s') ∧ Rep s' this xs c ∧
        objs s' = <[this := mkVector (data_ v) (length xs)]> (objs s) ∧
        trace s' = trace s ++ [EvDestroy].
Proof.
  intros HR Hv.
  destruct (Rep_block _ _ _ _ _ HR Hv) as (Hsz & Hcap & Hle & _).
  rewrite length_app in Hsz, Hle. cbn [length] in Hsz, Hle.
  destruct (Rep_nonempty_block _ _ _ _ _ HR Hv ltac:(lia)) as (b & Hb & Hm).
  rewrite length_app in Hm. cbn [length] in Hm.
  rewrite fmap_app, <-app_assoc in Hm. cbn [fmap list_fmap app] in Hm.
  destruct (sat_returns (PopBack this) s (λ _ s',
    Rep s' this xs c ∧
    objs s' = <[this := mkVector (data_ v) (length xs)]> (objs s) ∧
    trace s' = trace s ++ [EvDestroy])) as ([] & s' & Hrun & HP);
    [|by exists s'].
  unfold PopBack. apply sat_bind. eapply sat_this; [done|].
  rewrite decide_False by lia. rewrite Hsz.
  replace (length xs + 1 - 1) with (length xs) by lia.
  apply sat_bind. eapply sat_put_size; [done|].
  unfold GetAddress. rewrite Hb. cbn [ptr_add destroy_n Nat.add].
  apply sat_bind.
  eapply sat_destroy_at_tr; st; [exact Hm | by apply lookup_live0 |].
  intros s1 Hm1 Ho1 Ht1 _. apply sat_ret. st.
  split; [|split; [by rewrite Ho1 | by rewrite Ht1]].
  exists (mkVector (data_ v) (length xs)). rewrite Ho1. st.
  rewrite lookup_insert_eq. cbn.
  split; [done|]. split; [done|]. split; [done|]. split; [lia|].
  rewrite Hb. split; [done|]. rewrite Hm1, lookup_insert_eq. f_equal.
  rewrite <-(length_fmap Some xs), list_insert_mid, length_fmap.
  f_equal. replace (c - length xs) with (S (c - (length xs + 1))) by lia.
  done.
Qed.

Lemma PopBack_empty this c (s : state) :
  Rep s this [] c → PopBack this s = (Ret tt, s).
Proof.
  intros (v & Hv & Hsz & _). unfold PopBack, bind, this_. rewrite Hv.
  by rewrite decide_True.
Qed.


Lemma length_live0 {X} (post : list (option X)) (a : list X) x n :
  n = length a → n < length ((Some <$> a) ++ x :: post).
Proof. intros ->. rewrite length_app, length_fmap. cbn. lia. Qed.

Lemma PushBack_with_room this a xs c (s : state) v :
  Rep s this xs c → objs s !! this = Some v → length xs < c →
  sat (PushBack_with this a) s (λ o s',
    match o with
    | Ret _ =>
        ∃ y, (args_run a (env s)).1 = Some y ∧
             Rep s' this (xs ++ [y]) c ∧
             objs s' = <[this := mkVector (data_ v) (S (length xs))]> (objs s) ∧
             trace s' = trace s ++ [args_event a]
    | Throw => (args_run a (env s)).1 = None ∧ mem s' = mem s ∧ objs s' = objs s
    | Undef => False
    end).
Proof.
  intros HR Hv Hlt.
  destruct (Rep_block _ _ _ _ _ HR Hv) as (Hsz & Hcap & Hle & _).
  destruct (Rep_nonempty_block _ _ _ _ _ HR Hv ltac:(lia)) as (b & Hb & Hm).
  replace (c - length xs) with (S (c - length xs - 1)) in Hm by lia.
  cbn [replicate] in Hm.
  unfold PushBack_with. apply sat_bind. eapply sat_this; [done|].
  rewrite decide_False by lia. apply sat_bind, sat_bind.
  unfold RawMemory_plus. apply sat_bind, sat_assert.
  { apply bool_decide_eq_true. lia. }
  apply sat_ret. rewrite Hb, Hsz. cbn [ptr_add Nat.add].
  eapply sat_construct_args_tr; [exact Hm | by apply length_live0 | |].
  - intros s1 y Hy Hm1 Ho1 Ht1. rewrite insert_live0 in Hm1 by done.
    eapply sat_put_size; [by rewrite Ho1|]. st.
    exists y. split; [done|]. rewrite Nat.add_1_r. split; [|by rewrite Ho1, Ht1].
    exists (mkVector (data_ v) (S (length xs))). st. rewrite lookup_insert_eq. cbn.
    rewrite length_app. cbn [length]. rewrite Nat.add_1_r.
    split; [done|]. split; [done|]. split; [done|]. split; [lia|].
    rewrite Hb. split; [done|]. rewrite Hm1, lookup_insert_eq.
    by replace (c - length xs - 1) with (c - S (length xs)) by lia.
  - intros s1 Hn Hm1 Ho1. done.
Qed.


Lemma PushBack_all_room this vs : ∀ xs c (s : state) v,
  Rep s this xs c → objs s !! this = Some v → length xs + length vs ≤ c →
  sat (PushBack_all this vs) s (λ o s',
    match o with
    | Ret _ =>
        ∃ ys, length ys = length vs ∧ (ValueSemantics T W → ys = vs) ∧
              Rep s' this (xs ++ ys) c ∧
              objs s' = <[this := mkVector (data_ v) (length xs + length vs)]> (objs s) ∧
              trace s' = trace s ++ replicate (length vs) EvCopy
    | Throw => ∃ z w, (T_copy z w).1 = None
    | Undef => False
    end).
Proof.
  induction vs as [|z vs IH]; intros xs c s v HR Hv Hle.
  - cbn [PushBack_all]. apply sat_ret. exists []. cbn [length replicate].
    rewrite !app_nil_r, Nat.add_0_r. split; [done|]. split; [done|].
    split; [done|]. split; [|done].
    destruct (Rep_block _ _ _ _ _ HR Hv) as (<- & _).
    rewrite insert_id; [done|]. by destruct v.
  - cbn [PushBack_all length] in *. apply sat_bind. unfold PushBack.
    eapply sat_mono; [by eapply (PushBack_with_room this (ByCopy z) xs c s v); [| |lia]|].
    intros [[]| |] s1; lazy beta iota; [| |done].
    + intros (y & Hy & HR1 & Ho1 & Ht1).
      eapply sat_mono.
      { eapply (IH (xs ++ [y]) c s1 (mkVector (data_ v) (S (length xs)))); [done | |].
        - by rewrite Ho1, lookup_insert_eq.
        - rewrite length_app. cbn. lia. }
      intros [[]| |] s2; lazy beta iota; [| |done].
      * intros (ys & Hl & Hval & HR2 & Ho2 & Ht2). exists (y :: ys).
        cbn [length]. split; [by rewrite Hl|]. split.
        { intros HV. rewrite (Hval HV). f_equal. cbn in Hy.
          destruct (T_copy z (env s)) as [o w'] eqn:E. cbn in Hy. subst o.
          by eapply copy_value. }
        split; [by rewrite <-app_assoc in HR2|].
        split.
        -- rewrite Ho2, Ho1, insert_insert_eq. cbn [data_].
           rewrite length_app. cbn [length].
           by replace (length xs + 1 + length vs) with (length xs + S (length vs))
             by lia.
        -- rewrite Ht2, Ht1, <-app_assoc. done.
      * done.
    + intros (Hy & _). cbn in Hy. by exists z, (env s).
Qed.

Lemma Vector_destroy_sat this xs c (s : state) v :
  Rep s this xs c → objs s !! this = Some v →
  ∃ s', Vector_destroy this s = (Ret tt, s') ∧
        objs s' = delete this (objs s) ∧
        mem s' = drop_block (buffer_ (data_ v)) (mem s) ∧
        trace s' = trace s ++ replicate (length xs) EvDestroy.
Proof.
  intros HR Hv.
  destruct (Rep_block _ _ _ _ _ HR Hv) as (Hsz & Hcap & Hle & Hblk).
  destruct (sat_returns (Vector_destroy this) s (λ _ s',
    objs s' = delete this (objs s) ∧
    mem s' = drop_block (buffer_ (data_ v)) (mem s) ∧
    trace s' = trace s ++ replicate (length xs) EvDestroy)) as ([] & s' & Hrun & HP);
    [|by exists s'].
  unfold Vector_destroy. apply sat_bind. eapply sat_this; [done|].
  unfold GetAddress, RawMemory_delete. rewrite Hsz.
  destruct (buffer_ (data_ v)) as [|b off].
  - apply block_at_null_inv in Hblk as [-> _]; [|done]. cbn [length destroy_n].
    apply sat_bind, sat_ret. apply sat_bind, sat_Deallocate_null.
    unfold drop_this. apply sat_modify. st. by rewrite app_nil_r.
  - destruct Hblk as [-> Hm]. apply sat_bind.
    eapply (sat_destroy_n_tr xs [] _ b); [exact Hm|].
    intros s1 Hm1 Ho1 Ht1. cbn [app length] in Hm1.
    apply sat_bind. eapply sat_Deallocate; [by rewrite Hm1, lookup_insert_eq|].
    unfold drop_this. apply sat_modify. st.
    rewrite Ho1, Hm1, Ht1. by rewrite delete_insert_eq.
Qed.


Lemma sat_construct_default b j l (s : state) (Q : outcome unit → state → Prop) :
  mem s !! b = Some l → j < length l →
  (∀ s' y, (T_default (env s)).1 = Some y →
     mem s' = <[b := <[j := Some y]> l]> (mem s) → objs s' = objs s →
     trace s' = trace s ++ [EvDefault] → Q (Ret tt) s') →
  (∀ s', (T_default (env s)).1 = None →
     mem s' = mem s → objs s' = objs s → Q Throw s') →
  sat (construct_default (Ptr b j)) s Q.
Proof.
  intros Hb Hj HR HT. unfold construct_default. apply sat_bind, sat_elem.
  destruct (T_default (env s)) as [[y|] w'] eqn:E; cbn [fst snd] in *.
  - eapply sat_put_slot; st; [done..|]. by apply (HR _ y).
  - apply sat_throw. by apply HT.
Qed.

Lemma sat_value_construct n : ∀ ys pre post b (s : state)
    (Q : outcome unit → state → Prop),
  mem s !! b = Some (pre ++ (Some <$> ys) ++ replicate n None ++ post) →
  (∀ s' zs, length zs = n →
     Forall (λ y, ∃ w, (T_default w).1 = Some y) zs →
     mem s' = <[b := pre ++ (Some <$> ys ++ zs) ++ post]> (mem s) →
     objs s' = objs s → trace s' = trace s ++ replicate n EvDefault →
     Q (Ret tt) s') →
  (∀ s', (∃ w, (T_default w).1 = None) →
     mem s' = <[b := pre ++ replicate (length ys + n) None ++ post]> (mem s) →
     objs s' = objs s → Q Throw s') →
  sat (uninitialized_loop
         (λ k, construct_default (ptr_add (Ptr b (length pre)) k))
         (Ptr b (length pre)) (length ys) n) s Q.
Proof.
  induction n as [|n IH]; intros ys pre post b s Q Hm HR HT.
  - apply sat_ret. apply (HR s []); [done | done | | done | by rewrite app_nil_r].
    rewrite app_nil_r. cbn [replicate app] in Hm. by rewrite insert_id.
  - cbn [uninitialized_loop]. apply sat_bind, sat_unwind.
    cbn [replicate app ptr_add] in *.
    eapply sat_construct_default; [exact Hm | by apply length_live | |].
    + intros s1 y Hy Hm1 Ho1 Ht1. rewrite insert_live in Hm1 by done.
      replace (S (length ys)) with (length (ys ++ [y]))
        by (rewrite length_app; simpl; lia).
      eapply (IH (ys ++ [y])).
      * by rewrite Hm1, lookup_insert_eq.
      * intros s' zs Hl Hall Hm' Ho' Ht'. apply (HR s' (y :: zs)).
        -- simpl. lia.
        -- constructor; [by exists (env s)|done].
        -- rewrite Hm', Hm1, insert_insert_eq. by rewrite <-app_assoc.
        -- congruence.
        -- rewrite Ht', Ht1, <-app_assoc. done.
      * intros s' Hc Hm' Ho'. apply HT; [done| |congruence].
        rewrite Hm', Hm1, insert_insert_eq. rewrite length_app. simpl.
        by replace (length ys + 1 + n) with (length ys + S n) by lia.
    + intros s1 Hy Hm1 Ho1. eapply (sat_destroy_n ys pre); [by rewrite Hm1|].
      intros s' Hm' Ho'. apply HT; [by exists (env s)| |congruence].
      rewrite Hm', Hm1. do 2 f_equal. rewrite (replicate_add (length ys)).
      by rewrite <-app_assoc.
Qed.

Lemma Vector_sized_sat this n (s : state) :
  fits n →
  sat (Vector_sized this n) s (λ o s',
    match o with
    | Ret _ =>
        ∃ ys data, length ys = n ∧
          Forall (λ y, ∃ w, (T_default w).1 = Some y) ys ∧
          objs s' = <[this := mkVector data n]> (objs s) ∧
          capacity_ data = n ∧
          trace s' = trace s ++ replicate n EvDefault ∧
          match buffer_ data with
          | Null => n = 0 ∧ mem s' = mem s
          | Ptr bd off =>
              off = 0 ∧ mem s !! bd = None ∧ mem s' = <[bd := Some <$> ys]> (mem s)
          end
    | Throw =>
        mem s' = mem s ∧
        ((∃ w, (T_default w).1 = None) ∧ objs s' = delete this (objs s) ∨
         allocation_fails n s ∧ objs s' = objs s)
    | Undef => False
    end).
Proof.
  intros Hfit. unfold Vector_sized. apply sat_bind. destruct n as [|n].
  - apply sat_RawMemory_new_0. apply sat_bind, sat_modify, sat_unwind.
    unfold uninitialized_value_construct_n. cbn [uninitialized_loop].
    apply sat_ret. exists [], (mkRawMemory Null 0). st.
    by rewrite app_nil_r.
  - apply sat_RawMemory_new_tr; [done | done | by intros; split; [|right] |].
    intros s1 bd Hfresh Hm1 Ho1 _ Ht1.
    apply sat_bind, sat_modify, sat_unwind.
    unfold uninitialized_value_construct_n, GetAddress. cbn [buffer_].
    apply (sat_value_construct (S n) [] [] [] bd); st.
    + rewrite Hm1, lookup_insert_eq. cbn [app fmap list_fmap]. by rewrite app_nil_r.
    + intros s2 ys Hl Hall Hm2 Ho2 Ht2.
      exists ys, (mkRawMemory (Ptr bd 0) (S n)). cbn [buffer_ capacity_].
      split; [done|]. split; [done|]. split; [by rewrite Ho2, Ho1|].
      split; [done|]. split; [by rewrite Ht2, Ht1|].
      split; [done|]. split; [done|].
      rewrite Hm2, Hm1, insert_insert_eq. cbn [app]. by rewrite app_nil_r.
    + intros s2 Hc Hm2 Ho2. apply sat_bind. unfold RawMemory_delete. cbn [buffer_].
      eapply sat_Deallocate; [by rewrite Hm2, lookup_insert_eq|].
      unfold drop_this. apply sat_modify. st.
      rewrite Hm2, Hm1, Ho2, Ho1. rewrite delete_insert_eq, delete_insert_eq.
      split; [by apply delete_id|]. left. split; [done|].
      by rewrite delete_insert_eq.
Qed.


Lemma Resize_shrink_sat this n xs c (s : state) v :
  Rep s this xs c → objs s !! this = Some v → n ≤ length xs →
  ∃ s', Resize this n s = (Ret tt, s') ∧ Rep s' this (take n xs) c ∧
        objs s' = <[this := mkVector (data_ v) n]> (objs s) ∧
        trace s' = trace s ++ replicate (length xs - n) EvDestroy.
Proof.
  intros HR Hv Hn.
  destruct (Rep_block _ _ _ _ _ HR Hv) as (Hsz & Hcap & Hle & Hblk).
  destruct (sat_returns (Resize this n) s (λ _ s',
    Rep s' this (take n xs) c ∧
    objs s' = <[this := mkVector (data_ v) n]> (objs s) ∧
    trace s' = trace s ++ replicate (length xs - n) EvDestroy))
    as ([] & s' & Hrun & HP); [|by exists s'].
  unfold Resize. apply sat_bind. eapply sat_this; [done|].
  rewrite decide_False by lia. rewrite Hsz. unfold GetAddress. apply sat_bind.
  assert (length (take n xs) = n) as Htake by (rewrite length_take; lia).
  destruct (buffer_ (data_ v)) as [|b off] eqn:Hb.
  - apply block_at_null_inv in Hblk as [-> ->]; [|done]. cbn in Hn.
    assert (n = 0) as -> by lia. cbn [length Nat.sub destroy_n ptr_add].
    apply sat_ret. eapply sat_put_size; [done|]. st.
    split; [|by rewrite app_nil_r].
    exists (mkVector (data_ v) 0). st. rewrite lookup_insert_eq. cbn.
    rewrite Hb. done.
  - destruct Hblk as [-> Hm]. cbn [ptr_add Nat.add].
    rewrite <-(take_drop n xs), fmap_app, <-app_assoc in Hm.
    replace (length xs - n) with (length (drop n xs)) by (rewrite length_drop; lia).
    replace (Ptr b n) with (Ptr b (length (Some <$> take n xs)))
      by (by rewrite length_fmap, Htake).
    eapply sat_destroy_n_tr; [exact Hm|].
    intros s1 Hm1 Ho1 Ht1. eapply sat_put_size; [by rewrite Ho1|]. st.
    split; [|by rewrite Ho1, Ht1].
    exists (mkVector (data_ v) n). st. rewrite lookup_insert_eq. cbn.
    rewrite Htake. split; [done|]. split; [done|]. split; [done|].
    split; [lia|]. rewrite Hb. split; [done|].
    rewrite Hm1, lookup_insert_eq. f_equal. f_equal.
    rewrite <-replicate_add. f_equal. rewrite length_app, length_drop, Htake. lia.
Qed.

Lemma sat_value_construct_tail this n ys c1 (s1 : state)
    (Q : outcome unit → state → Prop) :
  Rep s1 this ys c1 → length ys < n → n ≤ c1 →
  (∀ s' zs, length zs = n - length ys →
     Forall (λ y, ∃ w, (T_default w).1 = Some y) zs →
     objs s' = objs s1 →
     trace s' = trace s1 ++ replicate (n - length ys) EvDefault →
     (∀ v1 b, objs s1 !! this = Some v1 → buffer_ (data_ v1) = Ptr b 0 →
        mem s' = <[b := (Some <$> ys ++ zs) ++ replicate (c1 - n) None]> (mem s1)) →
     Q (Ret tt) s') →
  (∀ s', (∃ w, (T_default w).1 = None) → objs s' = objs s1 → mem s' = mem s1 →
         Q Throw s') →
  sat (v <- this_ this ;;
       uninitialized_value_construct_n
         (ptr_add (GetAddress (data_ v)) (size_ v)) (n - size_ v)) s1 Q.
Proof.
  intros HR Hlt Hle HRet HThrow. pose proof HR as (v1 & Hv1 & _).
  destruct (Rep_block _ _ _ _ _ HR Hv1) as (Hsz & Hcap & _ & _).
  destruct (Rep_nonempty_block _ _ _ _ _ HR Hv1 ltac:(lia)) as (b & Hb & Hm).
  apply sat_bind. eapply sat_this; [done|].
  unfold uninitialized_value_construct_n, GetAddress. rewrite Hb, Hsz.
  cbn [ptr_add Nat.add].
  replace (c1 - length ys) with ((n - length ys) + (c1 - n)) in Hm by lia.
  rewrite replicate_add in Hm.
  pose proof (sat_value_construct (n - length ys) [] (Some <$> ys)
                (replicate (c1 - n) None) b s1 Q) as Hloop.
  rewrite length_fmap in Hloop. cbn [length app fmap list_fmap] in Hloop.
  apply Hloop; clear Hloop.
  - exact Hm.
  - intros s' zs Hl Hall Hm' Ho' Ht'. apply (HRet s' zs); [done..|].
    intros v1' b' Hv1' Hb'. assert (v1' = v1) as -> by congruence.
    assert (b' = b) as -> by congruence.
    rewrite Hm'. by rewrite fmap_app, <-app_assoc.
  - intros s' Hc Hm' Ho'. apply HThrow; [done..|].
    rewrite Hm'. cbn [Nat.add]. by apply insert_id.
Qed.

Lemma Rep_filled this ys zs n c1 (s1 s' : state) :
  Rep s1 this ys c1 → length ys < n → n ≤ c1 → length zs = n - length ys →
  objs s' = objs s1 →
  (∀ v1 b, objs s1 !! this = Some v1 → buffer_ (data_ v1) = Ptr b 0 →
     mem s' = <[b := (Some <$> ys ++ zs) ++ replicate (c1 - n) None]> (mem s1)) →
  ∃ v1, objs s' !! this = Some v1 ∧
        Rep (set_objs (insert this (mkVector (data_ v1) n)) s') this (ys ++ zs) c1.
Proof.
  intros HR Hlt Hle Hl Ho Hm. pose proof HR as (v1 & Hv1 & _).
  destruct (Rep_block _ _ _ _ _ HR Hv1) as (Hsz & Hcap & _ & _).
  destruct (Rep_nonempty_block _ _ _ _ _ HR Hv1 ltac:(lia)) as (b & Hb & _).
  exists v1. split; [by rewrite Ho|].
  exists (mkVector (data_ v1) n). st. rewrite lookup_insert_eq. cbn.
  rewrite length_app, Hl. split; [done|]. split; [lia|]. split; [done|].
  split; [lia|]. rewrite Hb. split; [done|].
  rewrite (Hm v1 b Hv1 Hb), lookup_insert_eq.
  by replace (length ys + (n - length ys)) with n by lia.
Qed.

Lemma Resize_grow_sat this n xs c (s : state) :
  Rep s this xs c → length xs < n → (c < n → fits n) →
  sat (Resize this n) s (λ o s',
    match o with
    | Ret _ =>
        ∃ ys zs, length ys = length xs ∧ (ValueSemantics T W → ys = xs) ∧
                 length zs = n - length xs ∧
                 Forall (λ y, ∃ w, (T_default w).1 = Some y) zs ∧
                 Rep s' this (ys ++ zs) (c `max` n)
    | Throw =>
        (relocation_can_throw ∨ (∃ w, (T_default w).1 = None) ∨
         allocation_fails n s) ∧
        (Noexcept T W →
         is_nothrow_move_constructible = true ∨ is_copy_constructible = true →
         ∃ ys, length ys = length xs ∧ (ValueSemantics T W → ys = xs) ∧
               (Rep s' this ys c ∨ Rep s' this ys n))
    | Undef => False
    end).
Proof.
  intros HR Hlt Hfit. pose proof HR as (v & Hv & _).
  destruct (Rep_block _ _ _ _ _ HR Hv) as (Hsz & Hcap & _ & _).
  unfold Resize. apply sat_bind. eapply sat_this; [done|].
  rewrite decide_True by lia. apply sat_bind, sat_bind. rewrite Hcap.
  destruct (decide (c < n)) as [Hc|Hc].
  - eapply sat_mono; [by apply Reserve_sat|].
    intros [[]| |] s1; lazy beta iota; [| |done].
    + intros [[Hle _]|(_ & ys & Hl & Hval & HR1)]; [lia|].
      eapply sat_value_construct_tail; [exact HR1 | lia | lia | |].
      * intros s2 zs Hlz Hall Ho2 Ht2 Hm2.
        destruct (Rep_filled this ys zs n n s1 s2) as (v1 & Hv1 & HR2);
          [done | lia | lia | done | done | done |].
        eapply sat_put_size; [done|].
        exists ys, zs. rewrite Nat.max_r by lia.
        split; [done|]. split; [done|]. split; [lia|]. done.
      * intros s2 Hd Ho2 Hm2. split; [by right; left|]. intros _ _.
        exists ys. split; [done|]. split; [done|]. right. by eapply Rep_same.
    + intros (Hrel & _ & Ho1 & Hm1).
      split; [destruct Hrel; [by left | by right; right]|]. intros HN Hpol.
      exists xs. split; [done|]. split; [done|]. left.
      eapply Rep_same; [done | done | by apply Hm1].
  - apply sat_ret.
    eapply sat_value_construct_tail; [exact HR | lia | lia | |].
    + intros s2 zs Hlz Hall Ho2 Ht2 Hm2.
      destruct (Rep_filled this xs zs n c s s2) as (v1 & Hv1 & HR2);
        [done | lia | lia | done | done | done |].
      eapply sat_put_size; [done|].
      exists xs, zs. rewrite Nat.max_l by lia. done.
    + intros s2 Hd Ho2 Hm2. split; [by right; left|]. intros _ _.
      exists xs. split; [done|]. split; [done|]. left. by eapply Rep_same.
Qed.


Lemma sat_assign_forward ev assign B : ∀ pre g post b (s : state)
    (Q : outcome unit → state → Prop),
  assigns ev assign →
  mem s !! b = Some (pre ++ Some g :: (Some <$> B) ++ post) →
  (∀ s' B' g', length B' = length B → objs s' = objs s →
     trace s' = trace s ++ replicate (length B) ev →
     mem s' = <[b := pre ++ (Some <$> B') ++ Some g' :: post]> (mem s) →
     (ValueSemantics T W → B' = B) → Q (Ret tt) s') →
  (∀ s' L, length L = S (length B) → objs s' = objs s →
     mem s' = <[b := pre ++ (Some <$> L) ++ post]> (mem s) → Q Throw s') →
  sat (assign_forward assign (Ptr b (length pre + 1)) (Ptr b (length pre))
         (length B)) s Q.
Proof.
  induction B as [|x B IH]; intros pre g post b s Q Ha Hm HR HT.
  - apply sat_ret. apply (HR s [] g); [done | done | by rewrite app_nil_r | | done].
    cbn [fmap list_fmap app] in *. by rewrite insert_id.
  - cbn [length assign_forward]. rewrite fmap_cons in Hm. cbn [app] in Hm.
    apply sat_bind.
    eapply (assigns_same ev assign b _ _ _ g x); [done | exact Hm | | |].
    { by apply list_lookup_middle. }
    { rewrite (cons_middle (Some g)), app_assoc.
      apply list_lookup_middle. rewrite length_app. cbn. lia. }
    intros s1 d' r o Ho Hobj1 Htr1 Hm1 Hv.
    assert (<[length pre:=Some d']>
              (<[length pre + 1:=Some r]>
                 (pre ++ Some g :: Some x :: (Some <$> B) ++ post)) =
            (pre ++ [Some d']) ++ Some r :: (Some <$> B) ++ post) as Hl.
    { rewrite (cons_middle (Some g)), app_assoc.
      replace (length pre + 1) with (length (pre ++ [Some g]))
        by (rewrite length_app; cbn; lia).
      rewrite list_insert_mid, <-app_assoc. cbn [app].
      by rewrite list_insert_mid, <-app_assoc. }
    rewrite Hl in Hm1. clear Hl.
    destruct o as [[]| |]; [| |done].
    + cbn [ptr_add].
      replace (length pre + 1 + 1) with (length (pre ++ [Some d']) + 1)
        by (rewrite length_app; cbn; lia).
      replace (length pre + 1) with (length (pre ++ [Some d']))
        by (rewrite length_app; cbn; lia).
      eapply (IH (pre ++ [Some d']) r post);
        [done | by rewrite Hm1, lookup_insert_eq | |].
      * intros s' B' g' Hl' Hobj' Htr' Hm' Hv'. apply (HR s' (d' :: B') g').
        -- cbn. lia.
        -- congruence.
        -- rewrite Htr', Htr1, <-app_assoc. done.
        -- rewrite Hm', Hm1, insert_insert_eq. by rewrite <-app_assoc.
        -- intros HV. by rewrite (Hv' HV), (Hv eq_refl HV).
      * intros s' L Hl' Hobj' Hm'. apply (HT s' (d' :: L)).
        -- cbn. lia.
        -- congruence.
        -- rewrite Hm', Hm1, insert_insert_eq. by rewrite <-app_assoc.
    + apply (HT s1 (d' :: r :: B)).
      * done.
      * done.
      * rewrite Hm1. by rewrite <-app_assoc.
Qed.


Lemma Erase_with_sat ev assign this d xs c (s : state) v :
  assigns ev assign →
  Rep s this xs c → objs s !! this = Some v → d < length xs →
  let pos := ptr_add (buffer_ (data_ v)) d in
  sat (e <- end_ this ;;
       (n <- ptr_distance (ptr_add pos 1) e ;;
        assign_forward assign (ptr_add pos 1) pos n) ;;;
       v <- this_ this ;;
       put_size this (size_ v - 1) ;;;
       destroy_n (ptr_add (GetAddress (data_ v)) (size_ v - 1)) 1 ;;;
       ret pos) s (λ o s',
    match o with
    | Ret p =>
        p = pos ∧
        ∃ ys, length ys = length xs - 1 - d ∧
              (ValueSemantics T W → ys = drop (S d) xs) ∧
              Rep s' this (take d xs ++ ys) c ∧
              objs s' = <[this := mkVector (data_ v) (length xs - 1)]> (objs s) ∧
              trace s' = trace s ++ replicate (length xs - 1 - d) ev ++ [EvDestroy]
    | Throw => ∃ ys, length ys = length xs ∧ Rep s' this ys c
    | Undef => False
    end).
Proof.
  intros Ha HR Hv Hd pos. subst pos.
  destruct (Rep_block _ _ _ _ _ HR Hv) as (Hsz & Hcap & Hle & _).
  destruct (Rep_nonempty_block _ _ _ _ _ HR Hv ltac:(lia)) as (b & Hb & Hm).
  destruct (lookup_lt_is_Some_2 xs d Hd) as [g Hg].
  pose proof (take_drop_middle xs d g Hg) as Hxs.
  set (A := take d xs) in *. set (B := drop (S d) xs) in *.
  assert (length A = d) as HA by (subst A; rewrite length_take; lia).
  assert (length B = length xs - 1 - d) as HB
    by (subst B; rewrite length_drop; lia).
  rewrite <-Hxs in Hm at 1. rewrite fmap_app, fmap_cons, <-app_assoc in Hm.
  cbn [app] in Hm.
  apply sat_bind. unfold end_. apply sat_bind. eapply sat_this; [done|].
  apply sat_ret. unfold GetAddress. rewrite Hb, Hsz. cbn [ptr_add Nat.add].
  apply sat_bind, sat_bind. apply sat_ptr_distance; [lia|].
  replace (length xs - (d + 1)) with (length B) by lia.
  replace (Ptr b (d + 1)) with (Ptr b (length (Some <$> A) + 1))
    by (by rewrite length_fmap, HA).
  replace (Ptr b d) with (Ptr b (length (Some <$> A)))
    by (by rewrite length_fmap, HA).
  eapply sat_assign_forward; [done | exact Hm | |].
  - intros s1 B' g' Hl1 Ho1 Ht1 Hm1 Hval.
    apply sat_bind. eapply sat_this; [by rewrite Ho1|]. rewrite Hsz.
    apply sat_bind. eapply sat_put_size; [by rewrite Ho1|].
    rewrite Hb. cbn [ptr_add Nat.add destroy_n].
    apply sat_bind, sat_bind.
    replace (length xs - 1) with (length (Some <$> A) + length B')
      by (rewrite length_fmap; lia).
    eapply sat_destroy_at_tr; st;
      [by rewrite Hm1, lookup_insert_eq | by apply lookup_live |].
    intros s2 Hm2 Ho2 Ht2 _. apply sat_ret, sat_ret. rewrite length_fmap in *.
    split; [by rewrite HA|]. exists B'.
    split; [lia|]. split; [done|].
    split; [|split; [by rewrite Ho2, Ho1|]];
      [|rewrite Ht2, Ht1, <-app_assoc;
        by replace (length A + length B' - d) with (length B) by lia].
    exists (mkVector (data_ v) (length A + length B')).
    rewrite Ho2, Ho1, lookup_insert_eq. cbn. rewrite length_app.
    split; [done|]. split; [done|]. split; [done|]. split; [lia|].
    rewrite Hb. split; [done|]. rewrite Hm2, Hm1, insert_insert_eq, lookup_insert_eq.
    f_equal. rewrite <-(length_fmap Some B'), <-(length_fmap Some A), insert_seg.
    rewrite fmap_app, <-app_assoc. do 2 f_equal.
    rewrite !length_fmap.
    by replace (c - (length A + length B')) with (S (c - length xs)) by lia.
  - intros s1 L Hl1 Ho1 Hm1. exists (A ++ L). rewrite length_app.
    split; [lia|]. exists v. rewrite Ho1.
    split; [done|]. rewrite length_app. split; [lia|]. split; [done|].
    split; [lia|]. rewrite Hb. split; [done|]. rewrite Hm1, lookup_insert_eq.
    f_equal. rewrite fmap_app, <-app_assoc. do 3 f_equal. lia.
Qed.

Lemma Erase_sat this d xs c (s : state) v :
  Rep s this xs c → objs s !! this = Some v → d < length xs →
  sat (Erase this (ptr_add (buffer_ (data_ v)) d)) s (λ o s',
    match o with
    | Ret p =>
        p = ptr_add (buffer_ (data_ v)) d ∧
        ∃ ys, length ys = length xs - 1 - d ∧
              (ValueSemantics T W → ys = drop (S d) xs) ∧
              Rep s' this (take d xs ++ ys) c ∧
              objs s' = <[this := mkVector (data_ v) (length xs - 1)]> (objs s) ∧
              trace s' = trace s ++
                replicate (length xs - 1 - d)
                  (if is_nothrow_move_assignable then EvMoveAssign
                   else EvCopyAssign) ++ [EvDestroy]
    | Throw => ∃ ys, length ys = length xs ∧ Rep s' this ys c
    | Undef => False
    end).
Proof.
  intros HR Hv Hd. unfold Erase, std_move, std_copy.
  destruct is_nothrow_move_assignable.
  - by apply (Erase_with_sat EvMoveAssign assign_move this d xs c s v
                assign_move_assigns).
  - by apply (Erase_with_sat EvCopyAssign assign_copy this d xs c s v
                assign_copy_assigns).
Qed.


Lemma sat_assign_copy_cross bd bs ld ls i j d v (s : state)
    (Q : outcome unit → state → Prop) :
  mem s !! bd = Some ld → ld !! i = Some (Some d) →
  mem s !! bs = Some ls → ls !! j = Some (Some v) →
  (∀ s' d' o, o ≠ Undef → objs s' = objs s →
     trace s' = trace s ++ [EvCopyAssign] →
     mem s' = <[bd := <[i := Some d']> ld]> (mem s) →
     (o = Ret tt → ValueSemantics T W → d' = v) →
     (o = Throw → ∃ d0 v0 w, (T_copy_assign d0 v0 w).1.1 = false) → Q o s') →
  sat (assign_copy (Ptr bd i) (Ptr bs j)) s Q.
Proof.
  intros Hd Hi Hs Hj HQ. unfold assign_copy.
  apply sat_bind. eapply sat_load; [done..|].
  apply sat_bind. eapply sat_load; [done..|].
  apply sat_bind, sat_elem.
  destruct (T_copy_assign d v (env s)) as [[ok d'] w'] eqn:E. cbn [fst snd].
  apply sat_bind. eapply sat_put_slot; [done | by eapply lookup_lt_Some |]. st.
  destruct ok.
  - apply sat_ret. apply (HQ _ d'); st; [done..| |done].
    intros _ HV. by eapply copy_assign_value.
  - apply sat_throw. apply (HQ _ d'); st; [done..| |].
    + done.
    + intros _. exists d, v, (env s). by rewrite E.
Qed.

Lemma sat_Vector_at this v b i (s : state) (Q : outcome ptr → state → Prop) :
  objs s !! this = Some v → buffer_ (data_ v) = Ptr b 0 →
  i < size_ v → size_ v ≤ capacity_ (data_ v) →
  Q (Ret (Ptr b i)) s → sat (Vector_at this i) s Q.
Proof.
  intros Hv Hb Hi Hle HQ. unfold Vector_at. apply sat_bind.
  eapply sat_this; [done|]. apply sat_bind, sat_assert.
  { apply bool_decide_eq_true. lia. }
  unfold RawMemory_at. apply sat_bind, sat_assert.
  { apply bool_decide_eq_true. lia. }
  apply sat_ret. by rewrite Hb.
Qed.

Lemma sat_assign_prefix this rhs vt vr bt br Z : ∀ D' D Z' postT postR (s : state)
    (Q : outcome unit → state → Prop),
  bt ≠ br →
  objs s !! this = Some vt → objs s !! rhs = Some vr →
  buffer_ (data_ vt) = Ptr bt 0 → buffer_ (data_ vr) = Ptr br 0 →
  length D' = length Z' → length D = length Z →
  length D' + length D ≤ size_ vt → size_ vt ≤ capacity_ (data_ vt) →
  length D' + length D ≤ size_ vr → size_ vr ≤ capacity_ (data_ vr) →
  mem s !! bt = Some ((Some <$> D') ++ (Some <$> D) ++ postT) →
  mem s !! br = Some ((Some <$> Z') ++ (Some <$> Z) ++ postR) →
  (∀ s' E, length E = length D → objs s' = objs s →
     trace s' = trace s ++ replicate (length D) EvCopyAssign →
     mem s' = <[bt := (Some <$> D') ++ (Some <$> E) ++ postT]> (mem s) →
     (ValueSemantics T W → E = Z) → Q (Ret tt) s') →
  (∀ s' E, length E = length D → objs s' = objs s →
     mem s' = <[bt := (Some <$> D') ++ (Some <$> E) ++ postT]> (mem s) →
     (∃ d0 v0 w, (T_copy_assign d0 v0 w).1.1 = false) → Q Throw s') →
  sat (assign_prefix this rhs (length D') (length D)) s Q.
Proof.
  induction Z as [|z Z IH];
    intros D' D Z' postT postR s Q Hne Hvt Hvr Hbt Hbr Hl' Hl Hst Hct Hsr Hcr Ht Hr HR HT.
  - destruct D; [|done]. apply sat_ret. apply (HR s []); [done | done | | | done].
    + by rewrite app_nil_r.
    + by rewrite insert_id.
  - destruct D as [|d D]; [done|]. cbn [length] in *.
    cbn [assign_prefix]. rewrite !fmap_cons in *. cbn [app] in *.
    apply sat_bind. eapply sat_Vector_at; [done | done | lia | done |].
    apply sat_bind. eapply sat_Vector_at; [done | done | lia | done |].
    apply sat_bind.
    eapply sat_assign_copy_cross;
      [exact Ht | by apply lookup_live0 | exact Hr | by apply lookup_live0 |].
    intros s1 d1 o Ho Ho1 Ht1 Hm1 Hv1 Hthrow.
    rewrite insert_live0 in Hm1 by done.
    destruct o as [[]| |]; [| |done].
    + replace (S (length D')) with (length (D' ++ [d1]))
        by (rewrite length_app; cbn; lia).
      eapply (IH (D' ++ [d1]) D (Z' ++ [z]) postT postR);
        [ done | by rewrite Ho1 | by rewrite Ho1 | done | done
        | by rewrite !length_app, Hl' | lia
        | rewrite length_app; cbn; lia | done
        | rewrite length_app; cbn; lia | done
        | by rewrite Hm1, lookup_insert_eq
        | rewrite Hm1, lookup_insert_ne by done;
          by rewrite fmap_app, <-app_assoc | |].
      * intros s' E HlE Ho' Ht' Hm' Hval. apply (HR s' (d1 :: E)).
        -- cbn. lia.
        -- congruence.
        -- rewrite Ht', Ht1, <-app_assoc. done.
        -- rewrite Hm', Hm1, insert_insert_eq. rewrite fmap_app, <-app_assoc. done.
        -- intros HV. by rewrite (Hval HV), (Hv1 eq_refl HV).
      * intros s' E HlE Ho' Hm' Hc. apply (HT s' (d1 :: E)).
        -- cbn. lia.
        -- congruence.
        -- rewrite Hm', Hm1, insert_insert_eq. rewrite fmap_app, <-app_assoc. done.
        -- done.
    + apply (HT s1 (d1 :: D)); [done | done | | by apply Hthrow].
      rewrite Hm1. by rewrite fmap_app, <-app_assoc.
Qed.


Lemma Rep_put this (data : RawMemory) bt ys (s' : state) :
  buffer_ data = Ptr bt 0 → length ys ≤ capacity_ data →
  objs s' !! this = Some (mkVector data (length ys)) →
  mem s' !! bt = Some ((Some <$> ys) ++ replicate (capacity_ data - length ys) None) →
  Rep s' this ys (capacity_ data).
Proof.
  intros Hb Hle Ho Hm. exists (mkVector data (length ys)). cbn.
  rewrite Hb. done.
Qed.

Lemma Rep_untouched this rhs v bt zs c' (s s' : state) :
  Rep s rhs zs c' → objs s !! this = Some v → buffer_ (data_ v) = Ptr bt 0 →
  disjoint_storage s this rhs →
  objs s' !! rhs = objs s !! rhs →
  (∀ b, b ≠ bt → mem s' !! b = mem s !! b) →
  Rep s' rhs zs c'.
Proof.
  intros HR Hv Hb Hdis Ho Hm. eapply Rep_frame; [done..|].
  intros vr b off Hvr Hbr. apply Hm. specialize (Hdis v vr Hv Hvr).
  rewrite Hb, Hbr in Hdis. done.
Qed.

Lemma Vector_assign_in_place_sat this rhs xs zs c c' (s : state) :
  Rep s this xs c → Rep s rhs zs c' → this ≠ rhs →
  disjoint_storage s this rhs → length zs ≤ c →
  sat (Vector_assign this rhs) s (λ o s',
    match o with
    | Ret _ =>
        ∃ ys, length ys = length zs ∧ (ValueSemantics T W → ys = zs) ∧
              Rep s' this ys c ∧ Rep s' rhs zs c'
    | Throw =>
        (relocation_can_throw ∨ ∃ d v w, (T_copy_assign d v w).1.1 = false) ∧
        (∃ ys, (length ys = length xs ∨ length ys = length zs) ∧
               Rep s' this ys c) ∧
        Rep s' rhs zs c'
    | Undef => False
    end).
Proof.
  intros HR HRr Hne Hdis Hle.
  pose proof HR as (v & Hv & _). pose proof HRr as (r & Hr & _).
  destruct (Rep_block _ _ _ _ _ HR Hv) as (Hsz & Hcap & Hlec & Hblk).
  destruct (Rep_block _ _ _ _ _ HRr Hr) as (Hszr & Hcapr & Hlecr & _).
  unfold Vector_assign. rewrite decide_False by done.
  apply sat_bind. eapply sat_this; [exact Hv|].
  apply sat_bind. eapply sat_this; [exact Hr|].
  rewrite Hcap, Hsz, Hszr. rewrite decide_False by lia.
  apply sat_bind. unfold GetAddress.
  destruct (buffer_ (data_ v)) as [|bt off] eqn:Hbt.
  { apply block_at_null_inv in Hblk as [-> ->]; [|done].
    destruct zs; [|cbn in Hle; lia]. cbn [length].
    rewrite decide_False by lia. cbn [Nat.sub destroy_n].
    apply sat_ret. apply sat_bind. eapply sat_put_size; [done|].
    cbn [Nat.min assign_prefix]. apply sat_ret. exists [].
    split; [done|]. split; [done|]. split.
    - exists (mkVector (data_ v) 0). st. rewrite lookup_insert_eq. cbn.
      by rewrite Hbt.
    - eapply Rep_frame; [done | by st; rewrite lookup_insert_ne | done]. }
  destruct Hblk as [-> Hm]. cbn [ptr_add Nat.add].
  assert (∀ (s' : state) ys, length ys ≤ c →
            objs s' = <[this := mkVector (data_ v) (length ys)]> (objs s) →
            mem s' = <[bt := (Some <$> ys) ++ replicate (c - length ys) None]> (mem s) →
            Rep s' this ys c ∧ Rep s' rhs zs c') as Hfin.
  { intros s' ys Hly Ho' Hm'. split.
    - rewrite <-Hcap. eapply (Rep_put this (data_ v) bt);
        [done | lia | by rewrite Ho', lookup_insert_eq |].
      by rewrite Hm', lookup_insert_eq, Hcap.
    - eapply (Rep_untouched this rhs v bt);
        [done | done | done | done | by rewrite Ho', lookup_insert_ne |].
      intros b Hb. by rewrite Hm', lookup_insert_ne. }
  destruct (decide (length xs < length zs)) as [Hlt|Hge].
  - (* rhs is longer: construct the tail, then assign the common prefix *)
    destruct (Rep_nonempty_block _ _ _ _ _ HRr Hr ltac:(lia)) as (br & Hbr & Hmr).
    assert (bt ≠ br) as Hbne.
    { specialize (Hdis v r Hv Hr). by rewrite Hbt, Hbr in Hdis. }
    rewrite Hbr. cbn [ptr_add Nat.add].
    set (Z1 := take (length xs) zs). set (Z2 := drop (length xs) zs).
    assert (zs = Z1 ++ Z2) as Hzs by (subst Z1 Z2; by rewrite take_drop).
    assert (length Z1 = length xs) as HZ1 by (subst Z1; rewrite length_take; lia).
    assert (length Z2 = length zs - length xs) as HZ2
      by (subst Z2; rewrite length_drop; lia).
    unfold uninitialized_copy_n. cbn [ptr_add].
    eapply (sat_uninitialized_copy_at (length xs) (length xs) 0 _ Z2 [] []
              (Some <$> Z1) (replicate (c' - length zs) None)
              (Some <$> xs) (replicate (c - length zs) None) br bt);
      [ by rewrite length_fmap | by rewrite length_fmap | done | done | done | done
      | | | |].
    + rewrite Hmr. rewrite Hzs at 1. by rewrite fmap_app, <-app_assoc.
    + rewrite Hm. cbn [fmap list_fmap app]. rewrite <-replicate_add.
      do 3 f_equal. lia.
    + intros s1 Z2' Hl1 Hm1 Ho1 Hv1. cbn [app] in Hm1.
      apply sat_bind. eapply sat_put_size; [by rewrite Ho1|].
      rewrite Nat.min_l by lia.
      eapply (sat_assign_prefix this rhs (mkVector (data_ v) (length zs)) r bt br
                Z1 [] xs [] ((Some <$> Z2') ++ replicate (c - length zs) None)
                ((Some <$> Z2) ++ replicate (c' - length zs) None)); st;
        [ done | by rewrite lookup_insert_eq
        | by rewrite lookup_insert_ne, Ho1 by done
        | done | done | done | done | cbn; lia | cbn; lia | cbn; lia | lia
        | by rewrite Hm1, lookup_insert_eq
        | rewrite Hm1, lookup_insert_ne by done; rewrite Hmr;
          rewrite Hzs at 1; by rewrite fmap_app, <-app_assoc
        | |].
      * intros s2 E HlE Ho2 _ Hm2 Hv2. st. cbn [fmap list_fmap app] in Hm2.
        exists (E ++ Z2'). rewrite length_app.
        split; [lia|]. split.
        { intros HV. by rewrite (Hv2 HV), (Hv1 HV). }
        apply Hfin.
        -- rewrite length_app. lia.
        -- rewrite Ho2, Ho1, length_app. do 3 f_equal. lia.
        -- rewrite Hm2, Hm1, insert_insert_eq. rewrite fmap_app, <-app_assoc.
           do 4 f_equal. rewrite length_app. lia.
      * intros s2 E HlE Ho2 Hm2 Hc. st. cbn [fmap list_fmap app] in Hm2.
        split; [by right|].
        assert (Rep s2 this (E ++ Z2') c ∧ Rep s2 rhs zs c') as [H1 H2].
        { apply Hfin.
          -- rewrite length_app. lia.
          -- rewrite Ho2, Ho1, length_app. do 3 f_equal. lia.
          -- rewrite Hm2, Hm1, insert_insert_eq. rewrite fmap_app, <-app_assoc.
             do 4 f_equal. rewrite length_app. lia. }
        split; [|done]. exists (E ++ Z2'). split; [|done].
        right. rewrite length_app. lia.
    + intros s1 Hc Hm1 Ho1. split; [by left|].
      assert (mem s1 = mem s) as Hmem.
      { rewrite Hm1. apply insert_id. rewrite Hm. cbn [app length Nat.add].
        rewrite <-replicate_add. do 3 f_equal. lia. }
      split; [exists xs; split; [by left|]|]; by eapply Rep_same.
  - (* rhs is not longer: destroy the excess, then assign the prefix *)
    set (X1 := take (length zs) xs). set (X2 := drop (length zs) xs).
    assert (xs = X1 ++ X2) as Hxs by (subst X1 X2; by rewrite take_drop).
    assert (length X1 = length zs) as HX1 by (subst X1; rewrite length_take; lia).
    assert (length X2 = length xs - length zs) as HX2
      by (subst X2; rewrite length_drop; lia).
    rewrite <-HX2.
    replace (Ptr bt (length zs)) with (Ptr bt (length (Some <$> X1)))
      by (by rewrite length_fmap, HX1).
    eapply (sat_destroy_n X2 (Some <$> X1) (replicate (c - length xs) None)).
    { rewrite Hm. rewrite Hxs at 1. by rewrite fmap_app, <-app_assoc. }
    intros s1 Hm1 Ho1.
    apply sat_bind. eapply sat_put_size; [by rewrite Ho1|].
    rewrite Nat.min_r by lia.
    destruct (decide (length zs = 0)) as [Hz|Hz].
    + rewrite Hz. cbn [assign_prefix]. apply sat_ret. st.
      destruct zs; [|done]. destruct X1; [|done]. exists [].
      split; [done|]. split; [done|]. apply Hfin.
      * cbn. lia.
      * st. by rewrite Ho1.
      * st. rewrite Hm1. cbn [fmap list_fmap app length]. rewrite <-replicate_add.
        do 3 f_equal. lia.
    + destruct (Rep_nonempty_block _ _ _ _ _ HRr Hr ltac:(lia)) as (br & Hbr & Hmr).
      assert (bt ≠ br) as Hbne.
      { specialize (Hdis v r Hv Hr). by rewrite Hbt, Hbr in Hdis. }
      replace (assign_prefix this rhs 0 (length zs))
        with (assign_prefix this rhs (length (@nil T)) (length X1))
        by (by rewrite HX1).
      eapply (sat_assign_prefix this rhs (mkVector (data_ v) (length zs)) r bt br
                zs [] X1 []
                (replicate (length X2) None ++ replicate (c - length xs) None)
                (replicate (c' - length zs) None)); st;
        [ done | by rewrite lookup_insert_eq
        | by rewrite lookup_insert_ne, Ho1 by done
        | done | done | done | done | cbn; lia | cbn; lia | cbn; lia | lia
        | by rewrite Hm1, lookup_insert_eq
        | by rewrite Hm1, lookup_insert_ne by done
        | |].
      * intros s2 E HlE Ho2 _ Hm2 Hv2. st. cbn [fmap list_fmap app] in Hm2.
        exists E. split; [lia|]. split; [done|].
        apply Hfin.
        -- lia.
        -- rewrite Ho2, Ho1. by replace (length E) with (length zs) by lia.
        -- rewrite Hm2, Hm1, insert_insert_eq. rewrite <-replicate_add.
           do 4 f_equal. lia.
      * intros s2 E HlE Ho2 Hm2 Hc. st. cbn [fmap list_fmap app] in Hm2.
        split; [by right|].
        assert (Rep s2 this E c ∧ Rep s2 rhs zs c') as [H1 H2].
        { apply Hfin.
          -- lia.
          -- rewrite Ho2, Ho1. by replace (length E) with (length zs) by lia.
          -- rewrite Hm2, Hm1, insert_insert_eq. rewrite <-replicate_add.
             do 4 f_equal. lia. }
        split; [|done]. exists E. split; [|done]. right. lia.
Qed.


Lemma sat_and {A} (m : M A) (s : state) (Q1 Q2 : outcome A → state → Prop) :
  sat m s Q1 → sat m s Q2 → sat m s (λ o s', Q1 o s' ∧ Q2 o s').
Proof. by unfold sat. Qed.

Lemma Vector_copy_throw_sat (this other : loc) (xs : list T) (c : nat) (s : state) :
  Rep s other xs c → this ≠ other → fits (length xs) →
  sat (Vector_copy this other) s (λ o s',
    o = Throw →
    mem s' = mem s ∧ (objs s' = delete this (objs s) ∨ objs s' = objs s)).
Proof.
  intros (v & Hv & Hsz & Hcap & Hle & Hblk) Hne Hfit.
  unfold Vector_copy. apply sat_bind. eapply sat_this; [done|].
  rewrite Hsz. apply sat_bind.
  unfold uninitialized_move_n_const, uninitialized_copy_n, GetAddress.
  destruct xs as [|x xs].
  - apply sat_RawMemory_new_0. apply sat_bind, sat_modify, sat_unwind.
    cbn [uninitialized_loop length].
    destruct (_ || _); by apply sat_ret.
  - destruct (buffer_ (data_ v)) as [|b off] eqn:Hbuf.
    { by apply block_at_null_inv in Hblk as [? _]. }
    destruct Hblk as [-> Hblk].
    apply sat_RawMemory_new; [done | done | by intros; split; [|right] |].
    intros s1 bd Hfresh Hm1 Ho1 _.
    assert (b ≠ bd) as Hb by congruence.
    apply sat_bind, sat_modify, sat_unwind. cbn [buffer_].
    destruct (_ || _);
      (apply (sat_uninitialized_copy (x :: xs) [] [] []
                (replicate (c - length (x :: xs)) None) [] [] b bd); st;
       [ done | done
       | rewrite Hm1, lookup_insert_ne by done; exact Hblk
       | rewrite Hm1, lookup_insert_eq; cbn [app fmap list_fmap]; by rewrite app_nil_r
       | done
       | intros s2 Hc Hm2 Ho2; apply sat_bind; unfold RawMemory_delete; cbn [buffer_];
         eapply sat_Deallocate; [by rewrite Hm2, lookup_insert_eq|];
         unfold drop_this; apply sat_modify; st; intros _;
         rewrite Hm2, Hm1, Ho2, Ho1; st;
         rewrite !delete_insert_eq; split; [by apply delete_id|by left] ]).
Qed.


Lemma sat_of_run {A} (m : M A) (s s' : state) o (Q : outcome A → state → Prop) :
  m s = (o, s') → Q o s' → sat m s Q.
Proof. unfold sat. by intros ->. Qed.

Lemma Vector_assign_grow_sat this rhs xs zs c c' (s : state) :
  Rep s this xs c → Rep s rhs zs c' → this ≠ rhs →
  disjoint_storage s this rhs → c < length zs → fits (length zs) →
  sat (Vector_assign this rhs) s (λ o s',
    match o with
    | Ret _ =>
        ∃ ys, length ys = length zs ∧ (ValueSemantics T W → ys = zs) ∧
              Rep s' this ys (length zs) ∧ Rep s' rhs zs c' ∧
              dom (objs s') = dom (objs s)
    | Throw =>
        (relocation_can_throw ∨ allocation_fails (length zs) s) ∧
        mem s' = mem s ∧ objs s' = objs s
    | Undef => False
    end).
Proof.
  intros HR HRr Hne Hdis Hlt Hfit.
  pose proof HR as (v & Hv & _). pose proof HRr as (r & Hr & _).
  destruct (Rep_block _ _ _ _ _ HR Hv) as (Hsz & Hcap & Hlec & Hblk).
  destruct (Rep_block _ _ _ _ _ HRr Hr) as (Hszr & Hcapr & Hlecr & Hblkr).
  unfold Vector_assign. rewrite decide_False by done.
  apply sat_bind. eapply sat_this; [exact Hv|].
  apply sat_bind. eapply sat_this; [exact Hr|].
  rewrite Hcap, Hszr. rewrite decide_True by lia.
  apply sat_bind, sat_gets.
  set (rc := fresh (dom (objs s))).
  assert (objs s !! rc = None) as Hrc.
  { apply not_elem_of_dom. apply is_fresh. }
  assert (rc ≠ this) as Hrct by congruence.
  assert (rc ≠ rhs) as Hrcr by congruence.
  apply sat_bind.
  eapply sat_mono;
    [apply sat_and;
       [by apply (Vector_copy_sat rc rhs zs c') | by apply (Vector_copy_throw_sat rc rhs zs c')]|].
  intros [[]| |] s1; lazy beta iota; [| |intros [[] _]].
  - intros [(ys & data & Hl & Hval & Ho1 & Hcd & Hbuf) _].
    destruct (buffer_ data) as [|bd off] eqn:Hbd.
    { destruct Hbuf as [-> _]. cbn in Hlt. lia. }
    destruct Hbuf as (-> & Hfresh & Hm1).
    apply sat_bind.
    eapply sat_of_run.
    { apply (Swap_run this rc v (mkVector data (length zs)));
        [by rewrite Ho1, lookup_insert_ne | by rewrite Ho1, lookup_insert_eq | done]. }
    set (s2 := set_objs _ s1).
    assert (Rep s2 rc xs c) as HR2.
    { exists v. subst s2. st. rewrite lookup_insert_eq.
      split; [done|]. split; [done|]. split; [done|]. split; [done|].
      rewrite Hm1. by apply block_at_insert. }
    destruct (Vector_destroy_sat rc xs c s2 v HR2) as (s3 & Hrun & Ho3 & Hm3 & _).
    { subst s2. st. by rewrite lookup_insert_eq. }
    eapply sat_of_run; [exact Hrun|]. subst s2. st.
    assert (objs s3 = <[this := mkVector data (length zs)]> (objs s)) as Ho3'.
    { rewrite Ho3, Ho1. rewrite delete_insert_eq.
      rewrite delete_insert_ne by done. rewrite delete_insert_eq.
      by rewrite delete_id. }
    pose proof (block_at_other _ _ _ bd Hblk Hfresh) as Hother.
    exists ys. split; [done|]. split; [done|]. split; [|split].
    + exists (mkVector data (length zs)). rewrite Ho3', lookup_insert_eq. cbn.
      rewrite Hl, Hbd, Nat.sub_diag. cbn [replicate]. rewrite app_nil_r.
      split; [done|]. split; [done|]. split; [done|]. split; [done|].
      split; [done|]. rewrite Hm3, Hm1, lookup_drop_block_ne by done.
      apply lookup_insert_eq.
    + eapply Rep_frame; [done | by rewrite Ho3', lookup_insert_ne |].
      intros vr br off Hvr Hbr. assert (vr = r) as -> by congruence.
      rewrite Hbr in Hblkr. destruct Hblkr as [-> Hmr].
      rewrite Hm3, Hm1. rewrite lookup_drop_block_ne.
      * apply lookup_insert_ne. congruence.
      * specialize (Hdis v r Hv Hr). rewrite Hbr in Hdis.
        destruct (buffer_ (data_ v)); [done|]. cbn. congruence.
    + rewrite Ho3', dom_insert_L. apply elem_of_dom_2 in Hv.
      apply subseteq_union_1_L. by apply singleton_subseteq_l.
  - intros [Hrel Hthrow]. destruct (Hthrow eq_refl) as [Hm1 [Ho1|Ho1]].
    + split; [done|]. split; [done|]. rewrite Ho1. by apply delete_id.
    + done.
Qed.


(** ** Runs that let no exception out *)

Lemma nothrow_bind {A B} (m : M A) (k : A → M B) (s : state) :
  (m s).1 ≠ Throw →
  (∀ a s1, m s = (Ret a, s1) → (k a s1).1 ≠ Throw) →
  (bind m k s).1 ≠ Throw.
Proof. unfold bind. destruct (m s) as [[a| |] s1]; cbn; eauto. Qed.

Lemma load_nothrow p (s : state) : (load p s).1 ≠ Throw.
Proof. unfold load. by repeat case_match. Qed.

Lemma put_slot_nothrow p x (s : state) : (put_slot p x s).1 ≠ Throw.
Proof. unfold put_slot. by repeat case_match. Qed.

Lemma elem_nothrow {A} e (f : W → A * W) (s : state) : (elem e f s).1 ≠ Throw.
Proof. unfold elem. by destruct (f (env s)). Qed.

Lemma this_nothrow this (s : state) : (this_ this s).1 ≠ Throw.
Proof. unfold this_. by case_match. Qed.

Lemma put_size_nothrow this n (s : state) : (put_size this n s).1 ≠ Throw.
Proof.
  unfold put_size. apply nothrow_bind; [apply this_nothrow|]. by intros.
Qed.

Lemma ptr_distance_nothrow p q (s : state) : (ptr_distance p q s).1 ≠ Throw.
Proof. unfold ptr_distance. by repeat case_match. Qed.

Lemma destroy_n_nothrow n : ∀ p (s : state), (destroy_n p n s).1 ≠ Throw.
Proof.
  induction n as [|n IH]; intros p s; [done|]. cbn [destroy_n].
  apply nothrow_bind; [|by intros]. unfold destroy_at.
  apply nothrow_bind; [apply load_nothrow|intros v s1 _].
  apply nothrow_bind; [apply elem_nothrow|intros [] s2 _].
  apply put_slot_nothrow.
Qed.

Lemma assign_move_nothrow `{!Noexcept T W} dst src (s : state) :
  is_nothrow_move_assignable = true → (assign_move dst src s).1 ≠ Throw.
Proof.
  intros Hflag. unfold assign_move.
  apply nothrow_bind; [apply load_nothrow|intros d s1 _].
  apply nothrow_bind; [apply load_nothrow|intros v s2 _].
  apply nothrow_bind; [apply elem_nothrow|intros r s3 Hr].
  apply nothrow_bind; [apply put_slot_nothrow|intros [] s4 _].
  apply nothrow_bind; [apply put_slot_nothrow|intros [] s5 _].
  unfold elem in Hr. pose proof (nothrow_move_assign Hflag d v (env s2)) as Hok.
  destruct (T_move_assign d v (env s2)) as [[[ok d'] r'] w]. simplify_eq.
  cbn in *. by rewrite Hok.
Qed.

Lemma assign_forward_nothrow `{!Noexcept T W} n : ∀ first d_first (s : state),
  is_nothrow_move_assignable = true →
  (assign_forward assign_move first d_first n s).1 ≠ Throw.
Proof.
  induction n as [|n IH]; intros first d_first s Hflag; [done|].
  cbn [assign_forward]. apply nothrow_bind; [by apply assign_move_nothrow|].
  intros [] s1 _. by apply IH.
Qed.


Lemma Emplace_inserted `{!ValueSemantics T W} this d (a : args T W) xs c
    (s : state) v :
  Rep s this xs c → objs s !! this = Some v → d ≤ length xs →
  (length xs = c → fits (grown c)) →
  match Emplace this (ptr_add (buffer_ (data_ v)) d) a s with
  | (Ret p, s') =>
      ∃ y, (args_run a (env s)).1 = Some y ∧
           load p s' = (Ret y, s') ∧
           Rep s' this (take d xs ++ y :: drop d xs)
             (if decide (length xs = c) then grown c else c)
  | (Throw, _) => True
  | (Undef, _) => False
  end.
Proof.
  intros HR Hv Hd Hfit.
  pose proof (Emplace_sat this d a xs c s v HR Hv Hd Hfit) as Hsat.
  unfold sat, Emplace_post in Hsat.
  destruct (Emplace this _ a s) as [[p| |] s']; cbn in Hsat; [|done..].
  destruct Hsat as (ys & y & v' & Hy & Hv' & Hp & Hl & Hval & HR' & _).
  rewrite (Hval _) in HR'. exists y. split; [done|]. split; [|done]. subst p.
  eapply Rep_load; [done..|].
  apply list_lookup_middle. rewrite length_take. lia.
Qed.

Lemma sat_throws {A} (m : M A) (s : state) :
  sat m s (λ o s', o = Throw ∧ s' = s) → m s = (Throw, s).
Proof. unfold sat. destruct (m s) as [o s']. cbn. by intros [-> ->]. Qed.

(** A request whose bytes wrap is for fewer slots than were asked for. *)
Lemma slots_wrap k : ¬ fits k → slots_of (bytes_of k) < k.
Proof.
  unfold fits, slots_of, bytes_of. intros Hk.
  assert ((N.of_nat k * N.pos sizeof_T) `mod` size_max < size_max)%N as Hmod
    by (by apply N.mod_lt).
  assert (((N.of_nat k * N.pos sizeof_T) `mod` size_max) `div` N.pos sizeof_T
          < N.of_nat k)%N as Hdiv.
  { apply N.Div0.div_lt_upper_bound. lia. }
  lia.
Qed.

Lemma PushBack_with_fails this a xs c (s : state) :
  Rep s this xs c → length xs = c → allocation_fails (grown c) s →
  PushBack_with this a s = (Throw, s).
Proof.
  intros (v & Hv & Hsz & Hcap & Hle & Hblk) Hfull Hnew. apply sat_throws.
  unfold PushBack_with. apply sat_bind. eapply sat_this; [done|].
  apply sat_bind. rewrite Hsz, Hcap, decide_True by done.
  fold (grown (length xs)). rewrite Hfull.
  apply sat_bind, sat_RawMemory_new_fails; [unfold grown; case_decide; lia|done..].
Qed.

Lemma EmplaceBack_fails this a xs c (s : state) :
  Rep s this xs c → length xs = c → allocation_fails (grown c) s →
  EmplaceBack this a s = (Throw, s).
Proof.
  intros (v & Hv & Hsz & Hcap & Hle & Hblk) Hfull Hnew. apply sat_throws.
  unfold EmplaceBack. apply sat_bind. eapply sat_this; [done|].
  apply sat_bind. rewrite Hsz, Hcap, decide_True by done.
  fold (grown (length xs)). rewrite Hfull.
  apply sat_bind, sat_RawMemory_new_fails; [unfold grown; case_decide; lia|done..].
Qed.

Lemma Reserve_fails this k xs c (s : state) :
  Rep s this xs c → c < k → allocation_fails k s →
  Reserve this k s = (Throw, s).
Proof.
  intros (v & Hv & Hsz & Hcap & Hle & Hblk) Hk Hnew. apply sat_throws.
  unfold Reserve. apply sat_bind. eapply sat_this; [done|].
  rewrite Hcap, decide_False by lia.
  apply sat_bind, sat_RawMemory_new_fails; [lia|done..].
Qed.

(** [Emplace] up to the point where it asks for storage. *)
Lemma Emplace_fails this d a xs c (s : state) v :
  Rep s this xs c → objs s !! this = Some v → d ≤ length xs →
  (if decide (length xs = c) then allocation_fails (grown c) s
   else d < length xs ∧ allocation_fails 1 s) →
  Emplace this (ptr_add (buffer_ (data_ v)) d) a s = (Throw, s).
Proof.
  intros HR Hv Hd Hnew. pose proof HR as (v0 & Hv0 & Hsz & Hcap & Hle & Hblk).
  assert (v0 = v) as -> by congruence. clear Hv0. apply sat_throws.
  assert (length xs = c → allocation_fails (grown c) s) as Hgrow.
  { intros Hfull. by rewrite decide_True in Hnew. }
  assert (length xs ≠ c → d < length xs ∧ allocation_fails 1 s) as Hhold.
  { intros Hroom. by rewrite decide_False in Hnew. }
  clear Hnew.
  assert (length xs = c →
          sat ((_ <- EmplaceBack this a ;; ret tt) ;;;
               v' <- this_ this ;; ret (ptr_add (GetAddress (data_ v')) d)) s
            (λ o s', o = Throw ∧ s' = s)) as Hend.
  { intros Hfull. apply sat_bind, sat_bind.
    eapply sat_of_run; [by eapply EmplaceBack_fails; [| |apply Hgrow]|]. done. }
  unfold Emplace. apply sat_bind. unfold begin_, end_.
  apply sat_bind. eapply sat_this; [done|]. apply sat_ret. unfold GetAddress.
  destruct (buffer_ (data_ v)) as [|bb off] eqn:Hbuf.
  - apply block_at_null_inv in Hblk as [-> ->]; [|done].
    cbn in Hd. assert (d = 0) as -> by lia. cbn [ptr_add].
    apply sat_bind, sat_ret. apply sat_bind, sat_bind.
    eapply sat_this; [done|]. apply sat_ret. rewrite Hbuf. cbn [ptr_add].
    apply sat_bind, sat_ret. rewrite decide_True by done. by apply Hend.
  - destruct Hblk as [-> Hblk]. cbn [ptr_add]. rewrite Nat.add_0_l.
    apply sat_bind, sat_ptr_distance; [lia|]. rewrite Nat.sub_0_r.
    apply sat_bind, sat_bind. eapply sat_this; [done|]. apply sat_ret.
    rewrite Hbuf, Hsz. cbn [ptr_add]. rewrite Nat.add_0_l.
    apply sat_bind, sat_ptr_distance; [lia|].
    case_decide as Hpos.
    + assert (length xs = c) as Hfull.
      { destruct (decide (length xs = c)) as [|Hne]; [done|].
        destruct (Hhold Hne) as [Hlt _]. lia. }
      assert (d = length xs) as -> by lia. by apply Hend.
    + apply sat_bind, sat_bind. eapply sat_this; [done|]. apply sat_bind.
      rewrite Hsz, Hcap. case_decide as Hfull.
      * fold (grown (length xs)). rewrite Hfull.
        apply sat_bind, sat_RawMemory_new_fails;
          [unfold grown; case_decide; lia | by apply Hgrow | done].
      * destruct (Hhold Hfull) as [_ Hnew].
        by apply sat_bind, sat_RawMemory_new_fails.
Qed.

End OperationLogic.

(** * Further properties of the operations *)

Section Operations.
Context {T W : Type} `{Element T W}.
Local Abbreviation M := (@M T W).
Local Abbreviation state := (@state T W).

(** X1.  [PopBack] always returns.  On an empty array it changes nothing;
    otherwise it destroys the last element, and only that one: the
    elements before it and the capacity stay. *)
Theorem PopBack_removes_last (this : loc) (xs : list T) (c : nat) (s : state) :
  Rep s this xs c →
  ∃ s', PopBack this s = (Ret tt, s') ∧
        Rep s' this (take (length xs - 1) xs) c ∧
        (xs = [] → s' = s) ∧
        (xs ≠ [] → trace s' = trace s ++ [EvDestroy]).
Proof.
  intros HR. destruct xs as [|x xs _] using rev_ind.
  - exists s. split; [by eapply PopBack_empty|]. done.
  - pose proof HR as (v & Hv & _).
    destruct (PopBack_sat this xs x c s v HR Hv) as (s' & Hrun & HR' & _ & Ht).
    exists s'. split; [done|]. rewrite length_app. cbn [length].
    rewrite Nat.add_sub, take_app_length. split; [done|].
    split; [|done]. intros Hnil. by apply app_eq_nil in Hnil as [_ ?].
Qed.

(** X2.  [PushBack] followed by [PopBack] gives back the elements the
    array had (for an element type whose copy and move yield the value of
    their source); the capacity stays what [PushBack] made it.  [PushBack]
    throws only when the constructor of the new element, a relocation or
    [operator new] does. *)
Theorem PushBack_then_PopBack `{!ValueSemantics T W} (this : loc)
    (a : args T W) (xs : list T) (c : nat) (s : state) :
  Rep s this xs c → (length xs = c → fits (grown c)) →
  match PushBack_with this a s with
  | (Ret _, s1) =>
      ∃ s2, PopBack this s1 = (Ret tt, s2) ∧
            Rep s2 this xs (if decide (length xs = c) then grown c else c)
  | (Throw, _) =>
      (args_run a (env s)).1 = None ∨ relocation_can_throw ∨
      (length xs = c ∧ allocation_fails (grown c) s)
  | (Undef, _) => False
  end.
Proof.
  intros HR Hfit. pose proof (PushBack_with_sat this a xs c s HR Hfit) as Hsat.
  unfold sat in Hsat. destruct (PushBack_with this a s) as [[[]| |] s1];
    cbn in Hsat; [| by destruct Hsat | done].
  destruct Hsat as (ys & y & _ & _ & Hval & HR1). rewrite (Hval _) in HR1.
  pose proof HR1 as (v1 & Hv1 & _).
  destruct (PopBack_sat this xs y _ s1 v1 HR1 Hv1) as (s2 & Hrun & HR2 & _).
  by exists s2.
Qed.

(** X3.  [PushBack] on an array with spare capacity constructs the new
    element in the first raw slot and does nothing else: the buffer and
    so every iterator stay, no element is relocated, and when the
    constructor throws the heap and the object are what they were, for
    every element type. *)
Theorem PushBack_with_spare_capacity (this : loc) (a : args T W)
    (xs : list T) (c : nat) (s : state) (v : Vector) :
  Rep s this xs c → objs s !! this = Some v → length xs < c →
  match PushBack_with this a s with
  | (Ret _, s') =>
      ∃ y, (args_run a (env s)).1 = Some y ∧
           Rep s' this (xs ++ [y]) c ∧
           begin_ this s' = (Ret (buffer_ (data_ v)), s') ∧
           trace s' = trace s ++ [args_event a]
  | (Throw, s') =>
      (args_run a (env s)).1 = None ∧ mem s' = mem s ∧ objs s' = objs s
  | (Undef, _) => False
  end.
Proof.
  intros HR Hv Hlt.
  pose proof (PushBack_with_room this a xs c s v HR Hv Hlt) as Hsat.
  unfold sat in Hsat. destruct (PushBack_with this a s) as [[[]| |] s'];
    cbn in Hsat; [|done..].
  destruct Hsat as (y & Hy & HR' & Ho' & Ht'). exists y.
  split; [done|]. split; [done|]. split; [|done].
  unfold begin_, bind, this_. by rewrite Ho', lookup_insert_eq.
Qed.

(** X4.  As long as the size plus the number of appended values stays
    within the capacity, which is what a call of [Reserve] is for, a
    series of [PushBack(const T&)] never moves the array: [begin()] and
    the capacity are unchanged, and the only element operations are the
    copy constructions of the new elements. *)
Theorem PushBack_within_capacity (this : loc) (vs xs : list T) (c : nat)
    (s : state) (v : Vector) :
  Rep s this xs c → objs s !! this = Some v → length xs + length vs ≤ c →
  match PushBack_all this vs s with
  | (Ret _, s') =>
      ∃ ys, length ys = length vs ∧ (ValueSemantics T W → ys = vs) ∧
            Rep s' this (xs ++ ys) c ∧
            begin_ this s' = (Ret (buffer_ (data_ v)), s') ∧
            trace s' = trace s ++ replicate (length vs) EvCopy
  | (Throw, _) => ∃ z w, (T_copy z w).1 = None
  | (Undef, _) => False
  end.
Proof.
  intros HR Hv Hle.
  pose proof (PushBack_all_room this vs xs c s v HR Hv Hle) as Hsat.
  unfold sat in Hsat. destruct (PushBack_all this vs s) as [[[]| |] s'];
    cbn in Hsat; [|done..].
  destruct Hsat as (ys & Hl & Hval & HR' & Ho' & Ht'). exists ys.
  split; [done|]. split; [done|]. split; [done|]. split; [|done].
  unfold begin_, bind, this_. by rewrite Ho', lookup_insert_eq.
Qed.

(** X5.  [Swap] of two different arrays always returns and exchanges
    their elements and capacities without touching an element or the
    heap; a second [Swap] restores the state. *)
Theorem Swap_exchanges (x y : loc) (xs ys : list T) (c d : nat) (s : state) :
  Rep s x xs c → Rep s y ys d → x ≠ y →
  ∃ s', Swap x y s = (Ret tt, s') ∧
        Rep s' x ys d ∧ Rep s' y xs c ∧
        mem s' = mem s ∧ env s' = env s ∧ trace s' = trace s ∧
        Swap x y s' = (Ret tt, s).
Proof.
  intros (vx & Hx & Hxr) (vy & Hy & Hyr) Hne.
  eexists. split; [by apply Swap_run|]. st.
  split; [exists vy; st; by rewrite lookup_insert_ne, lookup_insert_eq|].
  split; [exists vx; st; by rewrite lookup_insert_eq|].
  split; [done|]. split; [done|]. split; [done|].
  erewrite Swap_run; [| st; by rewrite lookup_insert_ne, lookup_insert_eq
                      | st; by rewrite lookup_insert_eq | done].
  f_equal. destruct s as [m o w t]. unfold set_objs. st. f_equal.
  rewrite insert2_collapse by done.
  rewrite (insert_id o x) by done. by rewrite insert_id.
Qed.

(** X6.  The destructor always returns; it destroys every element once,
    gives the block back, ends the object, and touches no other block. *)
Theorem Vector_destroy_releases (this : loc) (xs : list T) (c : nat)
    (s : state) (v : Vector) :
  Rep s this xs c → objs s !! this = Some v →
  ∃ s', Vector_destroy this s = (Ret tt, s') ∧
        objs s' !! this = None ∧
        (∀ y, y ≠ this → objs s' !! y = objs s !! y) ∧
        mem s' = drop_block (buffer_ (data_ v)) (mem s) ∧
        trace s' = trace s ++ replicate (length xs) EvDestroy.
Proof.
  intros HR Hv.
  destruct (Vector_destroy_sat this xs c s v HR Hv) as (s' & Hrun & Ho & Hm & Ht).
  exists s'. split; [done|]. rewrite Ho.
  split; [apply lookup_delete_eq|]. split; [|done].
  intros y Hy. by apply lookup_delete_ne.
Qed.

(** X7.  [Vector(size)] at fresh storage, for [size] elements that take
    less than 2^64 bytes, either builds an array of [size]
    value-initialised elements with capacity [size], running [size]
    default constructions, or, when a default construction or
    [operator new] throws, ends with the exception and leaves the heap and
    the objects as they were: the elements already built are destroyed
    and the block is freed. *)
Theorem Vector_sized_constructs (this : loc) (n : nat) (s : state) :
  objs s !! this = None → fits n →
  match Vector_sized this n s with
  | (Ret _, s') =>
      ∃ ys, length ys = n ∧
            Forall (λ y, ∃ w, (T_default w).1 = Some y) ys ∧
            Rep s' this ys n ∧
            trace s' = trace s ++ replicate n EvDefault
  | (Throw, s') =>
      ((∃ w, (T_default w).1 = None) ∨ allocation_fails n s) ∧
      mem s' = mem s ∧ objs s' = objs s
  | (Undef, _) => False
  end.
Proof.
  intros Hfresh Hfit. pose proof (Vector_sized_sat this n s Hfit) as Hsat.
  unfold sat in Hsat. destruct (Vector_sized this n s) as [[[]| |] s'];
    cbn in Hsat; [| |done].
  - destruct Hsat as (ys & data & Hl & Hall & Ho & Hcap & Ht & Hbuf).
    exists ys. split; [done|]. split; [done|]. split; [|done].
    exists (mkVector data n). rewrite Ho, lookup_insert_eq. cbn.
    rewrite Hl, Nat.sub_diag. cbn [replicate]. rewrite app_nil_r.
    split; [done|]. split; [done|]. split; [done|]. split; [done|].
    destruct (buffer_ data) as [|bd off].
    + destruct Hbuf as [-> _]. by destruct ys.
    + destruct Hbuf as (-> & _ & ->). split; [done|]. apply lookup_insert_eq.
  - destruct Hsat as (Hm & [[Hc Ho]|[Hc Ho]]).
    + split; [by left|]. split; [done|]. rewrite Ho. by apply delete_id.
    + split; [by right|]. done.
Qed.

(** X8.  An array built by [Vector(size)], for [size] elements that take
    less than 2^64 bytes, and then destroyed leaves the heap and the
    objects as they were before the construction; every element that was
    constructed has been destroyed.  So does a construction that
    throws. *)
Theorem Vector_sized_then_destroyed (this : loc) (n : nat) (s : state) :
  objs s !! this = None → fits n →
  match Vector_sized this n s with
  | (Ret _, s1) =>
      ∃ s2, Vector_destroy this s1 = (Ret tt, s2) ∧
            mem s2 = mem s ∧ objs s2 = objs s ∧
            trace s2 = trace s ++ replicate n EvDefault ++ replicate n EvDestroy
  | (Throw, s1) => mem s1 = mem s ∧ objs s1 = objs s
  | (Undef, _) => False
  end.
Proof.
  intros Hfresh Hfit. pose proof (Vector_sized_sat this n s Hfit) as Hsat.
  unfold sat in Hsat. destruct (Vector_sized this n s) as [[[]| |] s1];
    cbn in Hsat; [| |done].
  - destruct Hsat as (ys & data & Hl & Hall & Ho & Hcap & Ht & Hbuf).
    assert (Rep s1 this ys n) as HR1.
    { exists (mkVector data n). rewrite Ho, lookup_insert_eq. cbn.
      rewrite Hl, Nat.sub_diag. cbn [replicate]. rewrite app_nil_r.
      split; [done|]. split; [done|]. split; [done|]. split; [done|].
      destruct (buffer_ data) as [|bd off].
      + destruct Hbuf as [-> _]. by destruct ys.
      + destruct Hbuf as (-> & _ & ->). split; [done|]. apply lookup_insert_eq. }
    destruct (Vector_destroy_sat this ys n s1 (mkVector data n) HR1)
      as (s2 & Hrun & Ho2 & Hm2 & Ht2); [by rewrite Ho, lookup_insert_eq|].
    exists s2. split; [done|]. cbn [data_] in Hm2.
    split; [|split].
    + rewrite Hm2. destruct (buffer_ data) as [|bd off].
      * by destruct Hbuf as [_ ->].
      * destruct Hbuf as (_ & Hnone & ->). cbn. by apply delete_insert_id.
    + rewrite Ho2, Ho, delete_insert_eq. by apply delete_id.
    + by rewrite Ht2, Ht, Hl, <-app_assoc.
  - destruct Hsat as (Hm & [[_ Ho]|[_ Ho]]); [|done].
    split; [done|]. rewrite Ho. by apply delete_id.
Qed.

(** X9.  [Resize(n)] with [n <= Size()] always returns: it keeps the first
    [n] elements, destroys the others, and keeps the capacity and the
    buffer. *)
Theorem Resize_shrinks (this : loc) (n : nat) (xs : list T) (c : nat)
    (s : state) (v : Vector) :
  Rep s this xs c → objs s !! this = Some v → n ≤ length xs →
  ∃ s', Resize this n s = (Ret tt, s') ∧
        Rep s' this (take n xs) c ∧
        begin_ this s' = (Ret (buffer_ (data_ v)), s') ∧
        trace s' = trace s ++ replicate (length xs - n) EvDestroy.
Proof.
  intros HR Hv Hn.
  destruct (Resize_shrink_sat this n xs c s v HR Hv Hn)
    as (s' & Hrun & HR' & Ho' & Ht').
  exists s'. split; [done|]. split; [done|]. split; [|done].
  unfold begin_, bind, this_. by rewrite Ho', lookup_insert_eq.
Qed.

(** X10.  [Resize(n)] with [n > Size()], for [n] elements that take less
    than 2^64 bytes, that returns leaves the old elements in place,
    followed by [n - Size()] value-initialised ones; the capacity is the
    old one when it suffices and exactly [n] otherwise.  When it throws (a
    relocation, a default construction or [operator new] failed) and [T]
    has a [noexcept] move constructor or is copy-constructible, the array
    still has its old elements; only the capacity may have grown to
    [n]. *)
Theorem Resize_grows (this : loc) (n : nat) (xs : list T) (c : nat)
    (s : state) :
  Rep s this xs c → length xs < n → (c < n → fits n) →
  match Resize this n s with
  | (Ret _, s') =>
      ∃ ys zs, length ys = length xs ∧ (ValueSemantics T W → ys = xs) ∧
               length zs = n - length xs ∧
               Forall (λ y, ∃ w, (T_default w).1 = Some y) zs ∧
               Rep s' this (ys ++ zs) (c `max` n)
  | (Throw, s') =>
      (relocation_can_throw ∨ (∃ w, (T_default w).1 = None) ∨
       allocation_fails n s) ∧
      (Noexcept T W →
       is_nothrow_move_constructible = true ∨ is_copy_constructible = true →
       ∃ ys, length ys = length xs ∧ (ValueSemantics T W → ys = xs) ∧
             (Rep s' this ys c ∨ Rep s' this ys n))
  | (Undef, _) => False
  end.
Proof.
  intros HR Hlt Hfit.
  pose proof (Resize_grow_sat this n xs c s HR Hlt Hfit) as Hsat.
  unfold sat in Hsat. by destruct (Resize this n s) as [[[]| |] s'].
Qed.

(** X11.  [Erase] at the position of element [d] that returns gives back
    that position; the elements before [d] are untouched, the elements
    after [d] have moved one slot to the left by [Size() - 1 - d]
    assignments (move assignments exactly when the move assignment of [T]
    is [noexcept], copy assignments otherwise), one destructor has run,
    and the capacity and the buffer stay.  When an assignment throws, the
    array still holds [Size()] live elements. *)
Theorem Erase_removes (this : loc) (d : nat) (xs : list T) (c : nat)
    (s : state) (v : Vector) :
  Rep s this xs c → objs s !! this = Some v → d < length xs →
  match Erase this (ptr_add (buffer_ (data_ v)) d) s with
  | (Ret p, s') =>
      p = ptr_add (buffer_ (data_ v)) d ∧
      begin_ this s' = (Ret (buffer_ (data_ v)), s') ∧
      ∃ ys, length ys = length xs - 1 - d ∧
            (ValueSemantics T W → ys = drop (S d) xs) ∧
            Rep s' this (take d xs ++ ys) c ∧
            trace s' = trace s ++
              replicate (length xs - 1 - d)
                (if is_nothrow_move_assignable then EvMoveAssign
                 else EvCopyAssign) ++ [EvDestroy]
  | (Throw, s') => ∃ ys, length ys = length xs ∧ Rep s' this ys c
  | (Undef, _) => False
  end.
Proof.
  intros HR Hv Hd. pose proof (Erase_sat this d xs c s v HR Hv Hd) as Hsat.
  unfold sat in Hsat.
  destruct (Erase this (ptr_add (buffer_ (data_ v)) d) s) as [[p| |] s'];
    cbn in Hsat; [|done..].
  destruct Hsat as (Hp & ys & Hl & Hval & HR' & Ho' & Ht').
  split; [done|]. split.
  - unfold begin_, bind, this_. by rewrite Ho', lookup_insert_eq.
  - by exists ys.
Qed.

(** X12.  [Erase] is declared [noexcept(is_nothrow_move_assignable_v<T>)]:
    when the move assignment of [T] is [noexcept], no run of [Erase],
    whatever the position, ends with an exception. *)
Theorem Erase_respects_noexcept `{!Noexcept T W} (this : loc) (pos : ptr)
    (s : state) :
  is_nothrow_move_assignable = true → (Erase this pos s).1 ≠ Throw.
Proof.
  intros Hflag. unfold Erase. rewrite Hflag.
  apply nothrow_bind.
  { unfold end_. apply nothrow_bind; [apply this_nothrow|]. by intros. }
  intros e s1 _. apply nothrow_bind.
  { unfold std_move. apply nothrow_bind; [apply ptr_distance_nothrow|].
    intros n s2 _. by apply assign_forward_nothrow. }
  intros [] s2 _. apply nothrow_bind; [apply this_nothrow|intros v s3 _].
  apply nothrow_bind; [apply put_size_nothrow|intros [] s4 _].
  apply nothrow_bind; [apply destroy_n_nothrow|]. by intros.
Qed.

(** X13.  [Emplace] at a position followed by [Erase] of the iterator it
    returned gives back the elements the array had, and [Erase] returns
    the same iterator (for an element type whose copy, move and
    assignments yield the value of their source, and a doubled block, when
    the array is full, of less than 2^64 bytes). *)
Theorem Emplace_then_Erase `{!ValueSemantics T W} (this : loc) (d : nat)
    (a : args T W) (xs : list T) (c : nat) (s : state) (v : Vector) :
  Rep s this xs c → objs s !! this = Some v → d ≤ length xs →
  (length xs = c → fits (grown c)) →
  match Emplace this (ptr_add (buffer_ (data_ v)) d) a s with
  | (Ret p, s1) =>
      match Erase this p s1 with
      | (Ret q, s2) =>
          q = p ∧
          Rep s2 this xs (if decide (length xs = c) then grown c else c)
      | (Throw, s2) =>
          ∃ ys, length ys = S (length xs) ∧
                Rep s2 this ys (if decide (length xs = c) then grown c else c)
      | (Undef, _) => False
      end
  | (Throw, _) => True
  | (Undef, _) => False
  end.
Proof.
  intros HR Hv Hd Hfit.
  pose proof (Emplace_sat this d a xs c s v HR Hv Hd Hfit) as Hsat.
  unfold sat, Emplace_post in Hsat.
  destruct (Emplace this _ a s) as [[p| |] s1]; cbn in Hsat; [|done..].
  destruct Hsat as (ys & y & v' & Hy & Hv' & Hp & Hl & Hval & HR1 & _).
  rewrite (Hval _) in HR1. subst p.
  assert (length (take d xs ++ y :: drop d xs) = S (length xs)) as Hlen.
  { rewrite length_app, length_take. cbn [length]. rewrite length_drop. lia. }
  pose proof (Erase_sat this d _ _ s1 v' HR1 Hv' ltac:(lia)) as Hsat.
  unfold sat in Hsat.
  destruct (Erase this _ s1) as [[q| |] s2]; cbn in Hsat; [| |done].
  - destruct Hsat as (Hq & zs & _ & Hzs & HR2 & _). split; [done|].
    rewrite (Hzs _) in HR2.
    assert (length (take d xs) = d) as Htake by (rewrite length_take; lia).
    rewrite take_app_length' in HR2 by done.
    rewrite cons_middle, app_assoc in HR2.
    rewrite drop_app_length' in HR2 by (rewrite length_app; cbn; lia).
    by rewrite take_drop in HR2.
  - destruct Hsat as (zs & Hlz & HR2). exists zs. by rewrite Hlz, Hlen.
Qed.

(** X14.  [operator[]] checks the index against the size, not against the
    capacity: for [i < Size()] it yields the address of slot [i], where
    element [i] lives; for every [i >= Size()], also one within the
    capacity, its assertion fails. *)
Theorem Vector_at_bounds (this : loc) (xs : list T) (c : nat) (s : state)
    (v : Vector) :
  Rep s this xs c → objs s !! this = Some v →
  (∀ i x, xs !! i = Some x →
     Vector_at this i s = (Ret (ptr_add (buffer_ (data_ v)) i), s) ∧
     load (ptr_add (buffer_ (data_ v)) i) s = (Ret x, s)) ∧
  (∀ i, length xs ≤ i → Vector_at this i s = (Undef, s)).
Proof.
  intros HR Hv.
  destruct (Rep_block _ _ _ _ _ HR Hv) as (Hsz & Hcap & Hle & _). split.
  - intros i x Hi. pose proof (lookup_lt_Some _ _ _ Hi) as Hlt.
    split; [|by eapply Rep_load].
    unfold Vector_at, RawMemory_at, bind, this_, assert, ret.
    rewrite Hv, Hsz, Hcap. by rewrite !bool_decide_eq_true_2 by lia.
  - intros i Hi. unfold Vector_at, bind, this_, assert, undef.
    rewrite Hv, Hsz. by rewrite bool_decide_eq_false_2 by lia.
Qed.

(** X15.  Copy assignment from another array whose size fits the capacity
    reuses the buffer: when it returns the target holds the elements of
    the source (for an element type whose copy and copy assignment yield
    the value of their source), its capacity is unchanged and the source
    is unchanged.  When a copy construction or a copy assignment throws,
    the target is still a well-formed array, of its old or of the new
    size, and the source is unchanged. *)
Theorem Vector_assign_reuses_storage (this rhs : loc) (xs zs : list T)
    (c c' : nat) (s : state) :
  Rep s this xs c → Rep s rhs zs c' → this ≠ rhs →
  disjoint_storage s this rhs → length zs ≤ c →
  match Vector_assign this rhs s with
  | (Ret _, s') =>
      ∃ ys, length ys = length zs ∧ (ValueSemantics T W → ys = zs) ∧
            Rep s' this ys c ∧ Rep s' rhs zs c'
  | (Throw, s') =>
      (relocation_can_throw ∨ ∃ d v w, (T_copy_assign d v w).1.1 = false) ∧
      (∃ ys, (length ys = length xs ∨ length ys = length zs) ∧
             Rep s' this ys c) ∧
      Rep s' rhs zs c'
  | (Undef, _) => False
  end.
Proof.
  intros HR HRr Hne Hdis Hle.
  pose proof (Vector_assign_in_place_sat this rhs xs zs c c' s HR HRr Hne Hdis Hle)
    as Hsat.
  unfold sat in Hsat. by destruct (Vector_assign this rhs s) as [[[]| |] s'].
Qed.

(** X16.  Copy assignment from a source with more elements than the
    target's capacity (elements that take less than 2^64 bytes) goes
    through a temporary copy: when it returns the target holds the
    elements of the source with capacity exactly the source's size, the
    source is unchanged and the temporary is gone; when the copy throws,
    because an element copy or [operator new] does, the heap and the
    objects are what they were. *)
Theorem Vector_assign_reallocates (this rhs : loc) (xs zs : list T)
    (c c' : nat) (s : state) :
  Rep s this xs c → Rep s rhs zs c' → this ≠ rhs →
  disjoint_storage s this rhs → c < length zs → fits (length zs) →
  match Vector_assign this rhs s with
  | (Ret _, s') =>
      ∃ ys, length ys = length zs ∧ (ValueSemantics T W → ys = zs) ∧
            Rep s' this ys (length zs) ∧ Rep s' rhs zs c' ∧
            dom (objs s') = dom (objs s)
  | (Throw, s') =>
      (relocation_can_throw ∨ allocation_fails (length zs) s) ∧
      mem s' = mem s ∧ objs s' = objs s
  | (Undef, _) => False
  end.
Proof.
  intros HR HRr Hne Hdis Hlt Hfit.
  pose proof (Vector_assign_grow_sat this rhs xs zs c c' s HR HRr Hne Hdis Hlt Hfit)
    as Hsat.
  unfold sat in Hsat. by destruct (Vector_assign this rhs s) as [[[]| |] s'].
Qed.

(** X17.  Move assignment into an empty target is sound: the target takes
    the elements and the capacity of the source, and the source becomes
    an empty array with the target's old buffer and capacity; no element
    is touched. *)
Theorem move_assignment_into_empty (this rhs : loc) (ys : list T)
    (c c' : nat) (s : state) :
  Rep s this [] c → Rep s rhs ys c' → this ≠ rhs →
  ∃ s', Vector_assign_move this rhs s = (Ret tt, s') ∧
        Rep s' this ys c' ∧ Rep s' rhs [] c ∧
        mem s' = mem s ∧ trace s' = trace s.
Proof.
  intros (v & Hv & Hsz & Hvr) (u & Hu & Hur) Hne.
  set (s1 := set_objs (insert this (mkVector (data_ v) 0)) s).
  assert (Vector_assign_move this rhs s = Swap this rhs s1) as ->.
  { unfold Vector_assign_move. rewrite decide_False by done.
    unfold put_size, bind, this_, set_this, modify. by rewrite Hv. }
  erewrite Swap_run; [| by apply lookup_insert_eq
                      | by subst s1; st; rewrite lookup_insert_ne | done].
  eexists. split; [done|]. subst s1. st.
  split; [exists u; st; by rewrite lookup_insert_ne, lookup_insert_eq|].
  split; [|done].
  exists (mkVector (data_ v) 0). st. by rewrite lookup_insert_eq.
Qed.

(** X18.  [EmplaceBack] that returns gives a reference to the new element:
    the slot holds the value the constructor call made, and it is the
    last element, one before [end()].  [EmplaceBack] throws only when the
    constructor of the new element, a relocation or [operator new]
    does. *)
Theorem EmplaceBack_returns_last (this : loc) (a : args T W) (xs : list T)
    (c : nat) (s : state) :
  Rep s this xs c → (length xs = c → fits (grown c)) →
  match EmplaceBack this a s with
  | (Ret p, s') =>
      ∃ y, (args_run a (env s)).1 = Some y ∧
           load p s' = (Ret y, s') ∧
           end_ this s' = (Ret (ptr_add p 1), s') ∧
           Size this s' = (Ret (S (length xs)), s')
  | (Throw, _) =>
      (args_run a (env s)).1 = None ∨ relocation_can_throw ∨
      (length xs = c ∧ allocation_fails (grown c) s)
  | (Undef, _) => False
  end.
Proof.
  intros HR Hfit. pose proof (EmplaceBack_sat this a xs c s HR Hfit) as Hsat.
  unfold sat in Hsat. destruct (EmplaceBack this a s) as [[p| |] s'];
    cbn in Hsat; [| by destruct Hsat | done].
  destruct Hsat as (ys & y & v' & Hv' & Hp & Hy & Hl & _ & HR').
  exists y. split; [done|]. subst p.
  destruct (Rep_block _ _ _ _ _ HR' Hv') as (Hsz & Hcap & Hle & _).
  rewrite length_app in Hsz, Hle. cbn [length] in Hsz, Hle.
  destruct (Rep_nonempty_block _ _ _ _ _ HR' Hv' ltac:(lia)) as (b & Hb & _).
  split; [|split].
  - eapply Rep_load; [done..|]. rewrite <-Hl. by apply list_lookup_middle.
  - unfold end_, bind, this_, GetAddress. by rewrite Hv', Hb, Hsz, Hl.
  - unfold Size, bind, this_. by rewrite Hv', Hsz, Hl, Nat.add_1_r.
Qed.

(** X19.  A copy made by the copy constructor at fresh storage, of
    elements that take less than 2^64 bytes, leaves nothing behind: when
    the copy throws, because an element copy or [operator new] does, the
    heap and the objects are what they were; when it returns and the copy
    is later destroyed, the heap and the objects are again what they were
    before the copy. *)
Theorem Vector_copy_leaves_nothing (this other : loc) (xs : list T) (c : nat)
    (s : state) :
  Rep s other xs c → this ≠ other → objs s !! this = None →
  fits (length xs) →
  match Vector_copy this other s with
  | (Ret _, s1) =>
      ∃ s2, Vector_destroy this s1 = (Ret tt, s2) ∧
            mem s2 = mem s ∧ objs s2 = objs s
  | (Throw, s1) =>
      (relocation_can_throw ∨ allocation_fails (length xs) s) ∧
      mem s1 = mem s ∧ objs s1 = objs s
  | (Undef, _) => False
  end.
Proof.
  intros HR Hne Hfresh Hfit.
  pose proof (sat_and _ _ _ _ (Vector_copy_sat this other xs c s HR Hne Hfit)
                (Vector_copy_throw_sat this other xs c s HR Hne Hfit)) as Hsat.
  unfold sat in Hsat. destruct (Vector_copy this other s) as [[[]| |] s1];
    cbn in Hsat; [| |by destruct Hsat].
  - destruct Hsat as [(ys & data & Hl & _ & Ho & Hcap & Hbuf) _].
    assert (Rep s1 this ys (length xs)) as HR1.
    { exists (mkVector data (length xs)). rewrite Ho, lookup_insert_eq. cbn.
      rewrite Hl, Nat.sub_diag. cbn [replicate]. rewrite app_nil_r.
      split; [done|]. split; [done|]. split; [done|]. split; [done|].
      destruct (buffer_ data) as [|bd off].
      + destruct Hbuf as [-> _]. by destruct ys.
      + destruct Hbuf as (-> & _ & ->). split; [done|]. apply lookup_insert_eq. }
    destruct (Vector_destroy_sat this ys _ s1 (mkVector data (length xs)) HR1)
      as (s2 & Hrun & Ho2 & Hm2 & _); [by rewrite Ho, lookup_insert_eq|].
    exists s2. split; [done|]. cbn [data_] in Hm2. split.
    + rewrite Hm2. destruct (buffer_ data) as [|bd off].
      * by destruct Hbuf as [_ ->].
      * destruct Hbuf as (_ & Hnone & ->). cbn. by apply delete_insert_id.
    + rewrite Ho2, Ho, delete_insert_eq. by apply delete_id.
  - destruct Hsat as [Hrel Hthrow]. destruct (Hthrow eq_refl) as [Hm [Ho|Ho]].
    + split; [done|]. split; [done|]. rewrite Ho. by apply delete_id.
    + done.
Qed.

(** X20.  An array that was the source of a move construction can be
    destroyed at no cost: its destructor touches no element and frees no
    block, and the array that took the elements keeps them. *)
Theorem moved_from_is_destructible (this other : loc) (xs : list T) (c : nat)
    (s : state) :
  Rep s other xs c → this ≠ other →
  ∃ s1 s2, Vector_move this other s = (Ret tt, s1) ∧
           Vector_destroy other s1 = (Ret tt, s2) ∧
           Rep s2 this xs c ∧ objs s2 !! other = None ∧
           mem s2 = mem s ∧ trace s2 = trace s.
Proof.
  intros (v & Hv & Hvr) Hne.
  pose proof (Vector_move_run this other v s Hv Hne) as Hmove.
  set (s1 := set_objs _ s) in Hmove.
  assert (Rep s1 other [] 0) as HR1.
  { exists (mkVector RawMemory_default 0). subst s1. st.
    by rewrite lookup_insert_eq. }
  destruct (Vector_destroy_sat other [] 0 s1 (mkVector RawMemory_default 0) HR1)
    as (s2 & Hrun & Ho2 & Hm2 & Ht2); [by subst s1; st; rewrite lookup_insert_eq|].
  exists s1, s2. split; [done|]. split; [done|]. subst s1. st.
  split; [|split; [by rewrite Ho2, lookup_delete_eq|split]].
  - exists v. rewrite Ho2, Hm2. rewrite delete_insert_eq.
    rewrite lookup_delete_ne by done. by rewrite lookup_insert_eq.
  - by rewrite Hm2.
  - by rewrite Ht2, app_nil_r.
Qed.

(** X21.  [Swap] of an array with itself returns and changes nothing. *)
Theorem Swap_self (x : loc) (xs : list T) (c : nat) (s : state) :
  Rep s x xs c → Swap x x s = (Ret tt, s).
Proof.
  intros (v & Hv & _).
  destruct (sat_returns (Swap x x) s (λ _ s', s' = s)) as ([] & s' & Hrun & ->);
    [|done].
  unfold Swap. apply sat_bind. eapply sat_this; [done|].
  apply sat_bind. eapply sat_this; [done|].
  apply sat_bind. eapply sat_put_size; [done|].
  apply sat_bind. eapply sat_put_size; [by st; rewrite lookup_insert_eq|].
  apply sat_bind. eapply sat_this; [by st; rewrite lookup_insert_eq|].
  apply sat_bind. eapply sat_this; [by st; rewrite lookup_insert_eq|].
  apply sat_bind. eapply sat_put_data; [by st; rewrite lookup_insert_eq|].
  eapply sat_put_data; [by st; rewrite lookup_insert_eq|].
  destruct s as [m o w t]. unfold set_objs. st. f_equal.
  rewrite !insert_insert_eq. apply insert_id. by destruct v.
Qed.

(** X22.  [Insert(pos, value)], by copy or by move, at the position of
    index [d] that returns makes the array the old one with [value]
    inserted at index [d]; the iterator returned refers to [value] (for
    an element type whose copy, move and assignments yield the value of
    their source).  It never leaves the contract for [d <= Size()], as
    long as the doubled block, when the array is full, takes less than
    2^64 bytes. *)
Theorem Insert_inserts_value `{!ValueSemantics T W} (this : loc) (d : nat)
    (x : T) (xs : list T) (c : nat) (s : state) (v : Vector) :
  Rep s this xs c → objs s !! this = Some v → d ≤ length xs →
  (length xs = c → fits (grown c)) →
  match Insert this (ptr_add (buffer_ (data_ v)) d) x s with
  | (Ret p, s') =>
      load p s' = (Ret x, s') ∧
      Rep s' this (take d xs ++ x :: drop d xs)
        (if decide (length xs = c) then grown c else c)
  | (Throw, _) => True
  | (Undef, _) => False
  end ∧
  match Insert_rvalue this (ptr_add (buffer_ (data_ v)) d) x s with
  | (Ret p, s') =>
      load p s' = (Ret x, s') ∧
      Rep s' this (take d xs ++ x :: drop d xs)
        (if decide (length xs = c) then grown c else c)
  | (Throw, _) => True
  | (Undef, _) => False
  end.
Proof.
  intros HR Hv Hd Hfit. unfold Insert, Insert_rvalue. split.
  - pose proof (Emplace_inserted this d (ByCopy x) xs c s v HR Hv Hd Hfit) as Hins.
    destruct (Emplace this _ (ByCopy x) s) as [[p| |] s']; [|done..].
    destruct Hins as (y & Hy & Hload & HR').
    apply (args_run_value (ByCopy x)) in Hy as ->. done.
  - pose proof (Emplace_inserted this d (ByMove x) xs c s v HR Hv Hd Hfit) as Hins.
    destruct (Emplace this _ (ByMove x) s) as [[p| |] s']; [|done..].
    destruct Hins as (y & Hy & Hload & HR').
    apply (args_run_value (ByMove x)) in Hy as ->. done.
Qed.

(** X23.  [PushBack(value)], by copy or by move, that returns appends
    [value]: the array is the old one followed by [value], with the old
    capacity when there was room and the grown one, of less than 2^64
    bytes, otherwise (for an element type whose copy and move yield the
    value of their source).  It throws only when the constructor of the
    new element, a relocation or [operator new] does. *)
Theorem PushBack_appends `{!ValueSemantics T W} (this : loc) (x : T)
    (xs : list T) (c : nat) (s : state) :
  Rep s this xs c → (length xs = c → fits (grown c)) →
  match PushBack this x s with
  | (Ret _, s') =>
      Rep s' this (xs ++ [x]) (if decide (length xs = c) then grown c else c)
  | (Throw, _) =>
      (T_copy x (env s)).1 = None ∨ relocation_can_throw ∨
      (length xs = c ∧ allocation_fails (grown c) s)
  | (Undef, _) => False
  end ∧
  match PushBack_rvalue this x s with
  | (Ret _, s') =>
      Rep s' this (xs ++ [x]) (if decide (length xs = c) then grown c else c)
  | (Throw, _) =>
      (T_move x (env s)).1.1 = None ∨ relocation_can_throw ∨
      (length xs = c ∧ allocation_fails (grown c) s)
  | (Undef, _) => False
  end.
Proof.
  intros HR Hfit. unfold PushBack, PushBack_rvalue. split.
  - pose proof (PushBack_with_sat this (ByCopy x) xs c s HR Hfit) as Hsat.
    unfold sat in Hsat.
    destruct (PushBack_with this (ByCopy x) s) as [[[]| |] s']; cbn in Hsat;
      [| |done].
    + destruct Hsat as (ys & y & Hy & _ & Hval & HR').
      rewrite (Hval _) in HR'. by apply (args_run_value (ByCopy x)) in Hy as ->.
    + by destruct Hsat as [Hc _].
  - pose proof (PushBack_with_sat this (ByMove x) xs c s HR Hfit) as Hsat.
    unfold sat in Hsat.
    destruct (PushBack_with this (ByMove x) s) as [[[]| |] s']; cbn in Hsat;
      [| |done].
    + destruct Hsat as (ys & y & Hy & _ & Hval & HR').
      rewrite (Hval _) in HR'. by apply (args_run_value (ByMove x)) in Hy as ->.
    + by destruct Hsat as [Hc _].
Qed.

(** X24.  The observers agree with each other: [Size()] is the number of
    elements, [Capacity()] the number of slots, and [end()] is [begin()]
    advanced by [Size()], also for an array without storage. *)
Theorem observers_agree (this : loc) (xs : list T) (c : nat) (s : state) :
  Rep s this xs c →
  ∃ b e, begin_ this s = (Ret b, s) ∧ end_ this s = (Ret e, s) ∧
         e = ptr_add b (length xs) ∧
         ptr_distance b e s = (Ret (length xs), s) ∧
         Size this s = (Ret (length xs), s) ∧
         Capacity this s = (Ret c, s).
Proof.
  intros (v & Hv & Hsz & Hcap & Hle & Hblk).
  exists (buffer_ (data_ v)), (ptr_add (buffer_ (data_ v)) (length xs)).
  unfold begin_, end_, Size, Capacity, bind, this_, ret, GetAddress.
  rewrite Hv, Hsz, Hcap. split; [done|]. split; [done|]. split; [done|].
  split; [|done].
  destruct (buffer_ (data_ v)) as [|b off].
  - apply block_at_null_inv in Hblk as [-> _]; done.
  - cbn. rewrite decide_True by lia. unfold ret. do 3 f_equal. lia.
Qed.

(** X25.  [Reserve] does not check that [new_capacity * sizeof(T)] fits
    [size_t].  When the product wraps and the memory system grants the
    bytes that are left, [Reserve] on an array without elements returns
    and reports the capacity asked for, on a block of fewer slots: the
    array is not well formed any more. *)
Theorem Reserve_overflow (this : loc) (c k : nat) (s : state) :
  Rep s this [] c → c < k → ¬ fits k →
  operator_new (bytes_of k) (env s) = true →
  ∃ s' b, Reserve this k s = (Ret tt, s') ∧
          Capacity this s' = (Ret k, s') ∧ Size this s' = (Ret 0, s') ∧
          begin_ this s' = (Ret (Ptr b 0), s') ∧
          mem s' !! b = Some (replicate (slots_of (bytes_of k)) None) ∧
          slots_of (bytes_of k) < k ∧
          ¬ well_formed s' this.
Proof.
  intros (v & Hv & Hsz & Hcap & Hle & Hblk) Hk Hwrap Hnew.
  pose proof (slots_wrap k Hwrap) as Hslots.
  cbn [length fmap list_fmap app] in *. rewrite Nat.sub_0_r in Hblk.
  destruct (sat_returns (Reserve this k) s (λ _ s',
    ∃ b, objs s' !! this = Some (mkVector (mkRawMemory (Ptr b 0) k) 0) ∧
         mem s' !! b = Some (replicate (slots_of (bytes_of k)) None)))
    as ([] & s' & Hrun & b & Ho & Hm).
  { unfold Reserve. apply sat_bind. eapply sat_this; [done|].
    rewrite Hcap, decide_False by lia.
    apply sat_bind, sat_RawMemory_new_granted; [lia | done |].
    intros s1 bd Hfresh Hm1 Ho1.
    pose proof (block_at_other _ _ _ _ Hblk Hfresh) as Hother.
    assert (block_at (mem s1) (buffer_ (data_ v)) (replicate c None)) as Hb1.
    { rewrite Hm1. by apply block_at_insert_other. }
    apply sat_bind, sat_unwind. unfold GetAddress. cbn [buffer_]. rewrite Hsz.
    assert (sat (ret tt) s1 (λ o s2,
      match o with
      | Ret _ =>
          sat (destroy_n (buffer_ (data_ v)) 0 ;;;
               put_data this (mkRawMemory (Ptr bd 0) k) ;;;
               RawMemory_delete (data_ v)) s2
            (λ o s', match o with
                     | Ret _ =>
                         ∃ b, objs s' !! this =
                                Some (mkVector (mkRawMemory (Ptr b 0) k) 0) ∧
                              mem s' !! b =
                                Some (replicate (slots_of (bytes_of k)) None)
                     | _ => False
                     end)
      | _ => False
      end)) as Hrest.
    { apply sat_ret, sat_bind, sat_ret. apply sat_bind.
      eapply sat_set_data; [by rewrite Ho1|].
      intros s4 Hm4 Ho4. unfold RawMemory_delete.
      eapply sat_Deallocate_block; [by rewrite Hm4|].
      intros s5 Hm5 Ho5. exists bd. rewrite Ho5, Ho4, lookup_insert_eq, Hsz.
      split; [done|]. rewrite Hm5, Hm4, Hm1.
      by rewrite lookup_drop_block_ne, lookup_insert_eq. }
    unfold relocate_n, uninitialized_move_n, uninitialized_copy_n.
    cbn [uninitialized_loop].
    destruct (is_nothrow_move_constructible || negb is_copy_constructible);
      exact Hrest. }
  exists s', b. split; [done|].
  unfold Capacity, Size, begin_, bind, this_, GetAddress. rewrite Ho. cbn.
  split; [done|]. split; [done|]. split; [done|]. split; [done|].
  split; [done|].
  intros (ys & c' & v' & Hv' & Hsz' & Hcap' & _ & Hblk').
  rewrite Ho in Hv'. injection Hv' as <-. cbn in *. destruct ys; [|done].
  destruct Hblk' as [_ Hblk']. rewrite Hm in Hblk'. injection Hblk' as Heq.
  apply (f_equal length) in Heq. cbn in Heq. rewrite !length_replicate in Heq.
  lia.
Qed.

(** X26.  When the memory system refuses the block an operation asks for,
    the operation ends at once with the exception of [operator new]:
    nothing has been touched, and the state is the one before the call.
    This holds for [Reserve] and [Resize] beyond the capacity, for
    [PushBack] (both overloads), [EmplaceBack] and [Emplace] on a full
    array, for [Emplace] before [end()] of an array with room (the
    one-slot holder), and for the constructors [Vector(const Vector&)] and
    [Vector(size)]. *)
Theorem allocation_failure_propagates (this new : loc) (a : args T W) (x : T)
    (xs : list T) (c k d : nat) (s : state) (v : Vector) :
  Rep s this xs c → objs s !! this = Some v → d ≤ length xs →
  (c < k → allocation_fails k s →
     Reserve this k s = (Throw, s) ∧
     (length xs < k → Resize this k s = (Throw, s))) ∧
  (length xs = c → allocation_fails (grown c) s →
     PushBack this x s = (Throw, s) ∧
     PushBack_rvalue this x s = (Throw, s) ∧
     EmplaceBack this a s = (Throw, s) ∧
     Emplace this (ptr_add (buffer_ (data_ v)) d) a s = (Throw, s)) ∧
  (length xs < c → d < length xs → allocation_fails 1 s →
     Emplace this (ptr_add (buffer_ (data_ v)) d) a s = (Throw, s)) ∧
  (xs ≠ [] → allocation_fails (length xs) s →
     Vector_copy new this s = (Throw, s)) ∧
  (k ≠ 0 → allocation_fails k s → Vector_sized new k s = (Throw, s)).
Proof.
  intros HR Hv Hd. pose proof HR as (v0 & Hv0 & Hsz & Hcap & Hle & Hblk).
  assert (v0 = v) as -> by congruence. clear Hv0.
  split; [|split; [|split; [|split]]].
  - intros Hk Hnew. pose proof (Reserve_fails this k xs c s HR Hk Hnew) as Hres.
    split; [done|]. intros Hlt. apply sat_throws.
    unfold Resize. apply sat_bind. eapply sat_this; [done|].
    rewrite Hsz, Hcap, decide_True by done. apply sat_bind, sat_bind.
    rewrite decide_True by done. by eapply sat_of_run.
  - intros Hfull Hnew.
    split; [by eapply PushBack_with_fails|].
    split; [by eapply PushBack_with_fails|].
    split; [by eapply EmplaceBack_fails|].
    eapply Emplace_fails; [done..|]. by rewrite decide_True.
  - intros Hroom Hlt Hnew.
    eapply Emplace_fails; [done..|]. rewrite decide_False by lia. done.
  - intros Hne Hnew. apply sat_throws.
    unfold Vector_copy. apply sat_bind. eapply sat_this; [done|].
    rewrite Hsz. apply sat_bind, sat_RawMemory_new_fails; [|done..].
    by destruct xs.
  - intros Hk Hnew. apply sat_throws.
    unfold Vector_sized. by apply sat_bind, sat_RawMemory_new_fails.
Qed.

End Operations.

(** * The further properties on the sample clients *)

Section CountedOperations.
#[local] Existing Instance counted.
#[local] Existing Instance counted_noexcept.
#[local] Existing Instance counted_value_semantics.

Lemma counted_reserved_Rep : Rep counted_reserved 0 [] 4.
Proof. rep_by_run (mkVector (mkRawMemory (Ptr 0 0) 4) 0). Qed.

Lemma counted_two_Rep :
  Rep counted_two 0 [1; 2; 3] 4 ∧ Rep counted_two 1 [7; 8] 2.
Proof.
  split.
  - rep_by_run (mkVector (mkRawMemory (Ptr 2 0) 4) 3).
  - rep_by_run (mkVector (mkRawMemory (Ptr 4 0) 2) 2).
Qed.

Lemma counted_two_disjoint :
  disjoint_storage counted_two 0 1 ∧ disjoint_storage counted_two 1 0.
Proof.
  split; intros vx vy Hx Hy; vm_compute in Hx, Hy;
    injection Hx as <-; injection Hy as <-; cbn; lia.
Qed.

Lemma counted_123_object :
  objs counted_123 !! 0 = Some (mkVector (mkRawMemory (Ptr 2 0) 4) 3).
Proof. vm_compute. reflexivity. Qed.

(** [PopBack] on the array 1, 2, 3. *)
Lemma PopBack_removes_last_witness :
  Rep counted_123 0 [1; 2; 3] 4 ∧
  ∃ s', PopBack 0 counted_123 = (Ret tt, s') ∧
        Rep s' 0 (take (length [1; 2; 3] - 1) [1; 2; 3]) 4 ∧
        ([1; 2; 3] = [] → s' = counted_123) ∧
        ([1; 2; 3] ≠ [] → trace s' = trace counted_123 ++ [EvDestroy]).
Proof.
  split; [apply counted_123_Rep|].
  apply (PopBack_removes_last 0 [1; 2; 3] 4 counted_123 counted_123_Rep).
Defined.

(** [PushBack(5)] on the full array 1, 2, then [PopBack]. *)
Lemma PushBack_then_PopBack_witness :
  Rep counted_12 0 [1; 2] 2 ∧ fits (grown 2) ∧
  (PushBack_with 0 (ByCopy 5) counted_12).1 = Ret tt ∧
  match PushBack_with 0 (ByCopy 5) counted_12 with
  | (Ret _, s1) =>
      ∃ s2, PopBack 0 s1 = (Ret tt, s2) ∧
            Rep s2 0 [1; 2] (if decide (length [1; 2] = 2) then grown 2 else 2)
  | (Throw, _) =>
      (args_run (ByCopy 5) (env counted_12)).1 = None ∨ relocation_can_throw ∨
      (length [1; 2] = 2 ∧ allocation_fails (grown 2) counted_12)
  | (Undef, _) => False
  end.
Proof.
  split; [apply counted_12_Rep|]. split; [vm_compute; reflexivity|].
  split; [vm_compute; reflexivity|].
  apply (PushBack_then_PopBack 0 (ByCopy 5) [1; 2] 2 counted_12 counted_12_Rep).
  intros _. vm_compute. reflexivity.
Defined.

(** [PushBack(5)] on the array 1, 2, 3 of capacity 4. *)
Lemma PushBack_with_spare_capacity_witness :
  Rep counted_123 0 [1; 2; 3] 4 ∧
  objs counted_123 !! 0 = Some (mkVector (mkRawMemory (Ptr 2 0) 4) 3) ∧
  length [1; 2; 3] < 4 ∧
  (PushBack_with 0 (ByCopy 5) counted_123).1 = Ret tt ∧
  match PushBack_with 0 (ByCopy 5) counted_123 with
  | (Ret _, s') =>
      ∃ y, (args_run (ByCopy 5) (env counted_123)).1 = Some y ∧
           Rep s' 0 ([1; 2; 3] ++ [y]) 4 ∧
           begin_ 0 s' = (Ret (Ptr 2 0), s') ∧
           trace s' = trace counted_123 ++ [EvCopy]
  | (Throw, s') =>
      (args_run (ByCopy 5) (env counted_123)).1 = None ∧
      mem s' = mem counted_123 ∧ objs s' = objs counted_123
  | (Undef, _) => False
  end.
Proof.
  split; [apply counted_123_Rep|]. split; [apply counted_123_object|].
  split; [cbn; lia|]. split; [vm_compute; reflexivity|].
  apply (PushBack_with_spare_capacity 0 (ByCopy 5) [1; 2; 3] 4 counted_123
           (mkVector (mkRawMemory (Ptr 2 0) 4) 3)
           counted_123_Rep counted_123_object ltac:(cbn; lia)).
Defined.

(** Three appends after [Reserve(4)]. *)
Lemma PushBack_within_capacity_witness :
  Rep counted_reserved 0 [] 4 ∧
  objs counted_reserved !! 0 = Some (mkVector (mkRawMemory (Ptr 0 0) 4) 0) ∧
  length (@nil nat) + length [1; 2; 3] ≤ 4 ∧
  (PushBack_all 0 [1; 2; 3] counted_reserved).1 = Ret tt ∧
  match PushBack_all 0 [1; 2; 3] counted_reserved with
  | (Ret _, s') =>
      ∃ ys, length ys = length [1; 2; 3] ∧
            (ValueSemantics nat nat → ys = [1; 2; 3]) ∧
            Rep s' 0 ([] ++ ys) 4 ∧
            begin_ 0 s' = (Ret (Ptr 0 0), s') ∧
            trace s' = trace counted_reserved ++ replicate (length [1; 2; 3]) EvCopy
  | (Throw, _) => ∃ z w, (T_copy z w).1 = None
  | (Undef, _) => False
  end.
Proof.
  split; [apply counted_reserved_Rep|]. split; [vm_compute; reflexivity|].
  split; [cbn; lia|]. split; [vm_compute; reflexivity|].
  apply (PushBack_within_capacity 0 [1; 2; 3] [] 4 counted_reserved
           (mkVector (mkRawMemory (Ptr 0 0) 4) 0)
           counted_reserved_Rep ltac:(vm_compute; reflexivity) ltac:(cbn; lia)).
Defined.

(** [Swap] of the array 1 with an empty array. *)
Lemma Swap_exchanges_witness :
  Rep counted_pair 0 [1] 1 ∧ Rep counted_pair 1 [] 0 ∧ 0 ≠ 1 ∧
  ∃ s', Swap 0 1 counted_pair = (Ret tt, s') ∧
        Rep s' 0 [] 0 ∧ Rep s' 1 [1] 1 ∧
        mem s' = mem counted_pair ∧ env s' = env counted_pair ∧
        trace s' = trace counted_pair ∧
        Swap 0 1 s' = (Ret tt, counted_pair).
Proof.
  split; [apply counted_pair_Rep|]. split; [apply counted_pair_Rep|].
  split; [lia|].
  apply (Swap_exchanges 0 1 [1] [] 1 0 counted_pair);
    [apply counted_pair_Rep | apply counted_pair_Rep | lia].
Defined.

(** The end of the array 1, 2, 3. *)
Lemma Vector_destroy_releases_witness :
  Rep counted_123 0 [1; 2; 3] 4 ∧
  objs counted_123 !! 0 = Some (mkVector (mkRawMemory (Ptr 2 0) 4) 3) ∧
  ∃ s', Vector_destroy 0 counted_123 = (Ret tt, s') ∧
        objs s' !! 0 = None ∧
        (∀ y, y ≠ 0 → objs s' !! y = objs counted_123 !! y) ∧
        mem s' = drop_block (Ptr 2 0) (mem counted_123) ∧
        trace s' = trace counted_123 ++ replicate (length [1; 2; 3]) EvDestroy.
Proof.
  split; [apply counted_123_Rep|]. split; [apply counted_123_object|].
  apply (Vector_destroy_releases 0 [1; 2; 3] 4 counted_123
           (mkVector (mkRawMemory (Ptr 2 0) 4) 3)
           counted_123_Rep counted_123_object).
Defined.

(** [Vector<T> v(3);] in the empty store. *)
Lemma Vector_sized_constructs_witness :
  objs counted_fresh !! 0 = None ∧ fits 3 ∧
  (Vector_sized 0 3 counted_fresh).1 = Ret tt ∧
  match Vector_sized 0 3 counted_fresh with
  | (Ret _, s') =>
      ∃ ys, length ys = 3 ∧
            Forall (λ y, ∃ w, (T_default w).1 = Some y) ys ∧
            Rep s' 0 ys 3 ∧
            trace s' = trace counted_fresh ++ replicate 3 EvDefault
  | (Throw, s') =>
      ((∃ w : nat, (T_default w).1 = None) ∨ allocation_fails 3 counted_fresh) ∧
      mem s' = mem counted_fresh ∧ objs s' = objs counted_fresh
  | (Undef, _) => False
  end.
Proof.
  split; [reflexivity|]. split; [vm_compute; reflexivity|].
  split; [vm_compute; reflexivity|].
  apply (Vector_sized_constructs 0 3 counted_fresh);
    [reflexivity | vm_compute; reflexivity].
Defined.

(** [{ Vector<T> v(3); }] in the empty store. *)
Lemma Vector_sized_then_destroyed_witness :
  objs counted_fresh !! 0 = None ∧ fits 3 ∧
  (Vector_sized 0 3 counted_fresh).1 = Ret tt ∧
  match Vector_sized 0 3 counted_fresh with
  | (Ret _, s1) =>
      ∃ s2, Vector_destroy 0 s1 = (Ret tt, s2) ∧
            mem s2 = mem counted_fresh ∧ objs s2 = objs counted_fresh ∧
            trace s2 = trace counted_fresh ++
                         replicate 3 EvDefault ++ replicate 3 EvDestroy
  | (Throw, s1) => mem s1 = mem counted_fresh ∧ objs s1 = objs counted_fresh
  | (Undef, _) => False
  end.
Proof.
  split; [reflexivity|]. split; [vm_compute; reflexivity|].
  split; [vm_compute; reflexivity|].
  apply (Vector_sized_then_destroyed 0 3 counted_fresh);
    [reflexivity | vm_compute; reflexivity].
Defined.

(** [Resize(1)] on the array 1, 2, 3. *)
Lemma Resize_shrinks_witness :
  Rep counted_123 0 [1; 2; 3] 4 ∧
  objs counted_123 !! 0 = Some (mkVector (mkRawMemory (Ptr 2 0) 4) 3) ∧
  1 ≤ length [1; 2; 3] ∧
  ∃ s', Resize 0 1 counted_123 = (Ret tt, s') ∧
        Rep s' 0 (take 1 [1; 2; 3]) 4 ∧
        begin_ 0 s' = (Ret (Ptr 2 0), s') ∧
        trace s' = trace counted_123 ++
                     replicate (length [1; 2; 3] - 1) EvDestroy.
Proof.
  split; [apply counted_123_Rep|]. split; [apply counted_123_object|].
  split; [cbn; lia|].
  apply (Resize_shrinks 0 1 [1; 2; 3] 4 counted_123
           (mkVector (mkRawMemory (Ptr 2 0) 4) 3)
           counted_123_Rep counted_123_object ltac:(cbn; lia)).
Defined.

(** [Resize(6)] on the array 1, 2, 3 of capacity 4. *)
Lemma Resize_grows_witness :
  Rep counted_123 0 [1; 2; 3] 4 ∧ length [1; 2; 3] < 6 ∧ fits 6 ∧
  (Resize 0 6 counted_123).1 = Ret tt ∧
  match Resize 0 6 counted_123 with
  | (Ret _, s') =>
      ∃ ys zs, length ys = length [1; 2; 3] ∧
               (ValueSemantics nat nat → ys = [1; 2; 3]) ∧
               length zs = 6 - length [1; 2; 3] ∧
               Forall (λ y, ∃ w, (T_default w).1 = Some y) zs ∧
               Rep s' 0 (ys ++ zs) (4 `max` 6)
  | (Throw, s') =>
      (relocation_can_throw ∨ (∃ w : nat, (T_default w).1 = None) ∨
       allocation_fails 6 counted_123) ∧
      (Noexcept nat nat →
       is_nothrow_move_constructible = true ∨ is_copy_constructible = true →
       ∃ ys, length ys = length [1; 2; 3] ∧
             (ValueSemantics nat nat → ys = [1; 2; 3]) ∧
             (Rep s' 0 ys 4 ∨ Rep s' 0 ys 6))
  | (Undef, _) => False
  end.
Proof.
  split; [apply counted_123_Rep|]. split; [cbn; lia|].
  split; [vm_compute; reflexivity|]. split; [vm_compute; reflexivity|].
  apply (Resize_grows 0 6 [1; 2; 3] 4 counted_123 counted_123_Rep ltac:(cbn; lia)).
  intros _. vm_compute. reflexivity.
Defined.

(** [Erase(begin() + 1)] on the array 1, 2, 3. *)
Lemma Erase_removes_witness :
  Rep counted_123 0 [1; 2; 3] 4 ∧
  objs counted_123 !! 0 = Some (mkVector (mkRawMemory (Ptr 2 0) 4) 3) ∧
  1 < length [1; 2; 3] ∧
  (Erase 0 (Ptr 2 1) counted_123).1 = Ret (Ptr 2 1) ∧
  match Erase 0 (Ptr 2 1) counted_123 with
  | (Ret p, s') =>
      p = Ptr 2 1 ∧
      begin_ 0 s' = (Ret (Ptr 2 0), s') ∧
      ∃ ys, length ys = length [1; 2; 3] - 1 - 1 ∧
            (ValueSemantics nat nat → ys = drop 2 [1; 2; 3]) ∧
            Rep s' 0 (take 1 [1; 2; 3] ++ ys) 4 ∧
            trace s' = trace counted_123 ++
              replicate (length [1; 2; 3] - 1 - 1)
                (if is_nothrow_move_assignable then EvMoveAssign
                 else EvCopyAssign) ++ [EvDestroy]
  | (Throw, s') => ∃ ys, length ys = length [1; 2; 3] ∧ Rep s' 0 ys 4
  | (Undef, _) => False
  end.
Proof.
  split; [apply counted_123_Rep|]. split; [apply counted_123_object|].
  split; [cbn; lia|]. split; [vm_compute; reflexivity|].
  apply (Erase_removes 0 1 [1; 2; 3] 4 counted_123
           (mkVector (mkRawMemory (Ptr 2 0) 4) 3)
           counted_123_Rep counted_123_object ltac:(cbn; lia)).
Defined.

(** This element type has a [noexcept] move assignment. *)
Lemma Erase_respects_noexcept_witness :
  is_nothrow_move_assignable = true ∧
  (Erase 0 (Ptr 2 1) counted_123).1 ≠ Throw.
Proof.
  split; [reflexivity|].
  apply (Erase_respects_noexcept 0 (Ptr 2 1) counted_123). reflexivity.
Defined.

(** [Erase(Insert(begin() + 1, 9))] on the array 1, 2, 3. *)
Lemma Emplace_then_Erase_witness :
  Rep counted_123 0 [1; 2; 3] 4 ∧
  objs counted_123 !! 0 = Some (mkVector (mkRawMemory (Ptr 2 0) 4) 3) ∧
  1 ≤ length [1; 2; 3] ∧
  match Emplace 0 (Ptr 2 1) (ByCopy 9) counted_123 with
  | (Ret p, s1) =>
      match Erase 0 p s1 with
      | (Ret q, s2) =>
          q = p ∧
          Rep s2 0 [1; 2; 3]
            (if decide (length [1; 2; 3] = 4) then grown 4 else 4)
      | (Throw, s2) =>
          ∃ ys, length ys = S (length [1; 2; 3]) ∧
                Rep s2 0 ys (if decide (length [1; 2; 3] = 4) then grown 4 else 4)
      | (Undef, _) => False
      end
  | (Throw, _) => True
  | (Undef, _) => False
  end.
Proof.
  split; [apply counted_123_Rep|]. split; [apply counted_123_object|].
  split; [cbn; lia|].
  apply (Emplace_then_Erase 0 1 (ByCopy 9) [1; 2; 3] 4 counted_123
           (mkVector (mkRawMemory (Ptr 2 0) 4) 3)
           counted_123_Rep counted_123_object ltac:(cbn; lia)).
  cbn. lia.
Defined.

(** Indexing the array 1, 2, 3 of capacity 4: index 3 is within the
    capacity and outside the size. *)
Lemma Vector_at_bounds_witness :
  Rep counted_123 0 [1; 2; 3] 4 ∧
  objs counted_123 !! 0 = Some (mkVector (mkRawMemory (Ptr 2 0) 4) 3) ∧
  (Vector_at 0 2 counted_123 = (Ret (Ptr 2 2), counted_123) ∧
   load (Ptr 2 2) counted_123 = (Ret 3, counted_123)) ∧
  Vector_at 0 3 counted_123 = (Undef, counted_123).
Proof.
  split; [apply counted_123_Rep|]. split; [apply counted_123_object|].
  destruct (Vector_at_bounds 0 [1; 2; 3] 4 counted_123
              (mkVector (mkRawMemory (Ptr 2 0) 4) 3)
              counted_123_Rep counted_123_object) as [Hin Hout].
  split; [apply (Hin 2 3); reflexivity | apply (Hout 3); cbn; lia].
Defined.

(** [x = y] with [x] the array 1, 2, 3 of capacity 4 and [y] the array
    7, 8. *)
Lemma Vector_assign_reuses_storage_witness :
  Rep counted_two 0 [1; 2; 3] 4 ∧ Rep counted_two 1 [7; 8] 2 ∧ 0 ≠ 1 ∧
  disjoint_storage counted_two 0 1 ∧ length [7; 8] ≤ 4 ∧
  (Vector_assign 0 1 counted_two).1 = Ret tt ∧
  match Vector_assign 0 1 counted_two with
  | (Ret _, s') =>
      ∃ ys, length ys = length [7; 8] ∧
            (ValueSemantics nat nat → ys = [7; 8]) ∧
            Rep s' 0 ys 4 ∧ Rep s' 1 [7; 8] 2
  | (Throw, s') =>
      (relocation_can_throw ∨
       ∃ (d v : nat) (w : nat), (T_copy_assign d v w).1.1 = false) ∧
      (∃ ys, (length ys = length [1; 2; 3] ∨ length ys = length [7; 8]) ∧
             Rep s' 0 ys 4) ∧
      Rep s' 1 [7; 8] 2
  | (Undef, _) => False
  end.
Proof.
  split; [apply counted_two_Rep|]. split; [apply counted_two_Rep|].
  split; [lia|]. split; [apply counted_two_disjoint|]. split; [cbn; lia|].
  split; [vm_compute; reflexivity|].
  apply (Vector_assign_reuses_storage 0 1 [1; 2; 3] [7; 8] 4 2 counted_two);
    [ apply counted_two_Rep | apply counted_two_Rep | lia
    | apply counted_two_disjoint | cbn; lia ].
Defined.

(** [y = x] with [y] the array 7, 8 of capacity 2 and [x] the array
    1, 2, 3. *)
Lemma Vector_assign_reallocates_witness :
  Rep counted_two 1 [7; 8] 2 ∧ Rep counted_two 0 [1; 2; 3] 4 ∧ 1 ≠ 0 ∧
  disjoint_storage counted_two 1 0 ∧ 2 < length [1; 2; 3] ∧
  fits (length [1; 2; 3]) ∧
  (Vector_assign 1 0 counted_two).1 = Ret tt ∧
  match Vector_assign 1 0 counted_two with
  | (Ret _, s') =>
      ∃ ys, length ys = length [1; 2; 3] ∧
            (ValueSemantics nat nat → ys = [1; 2; 3]) ∧
            Rep s' 1 ys (length [1; 2; 3]) ∧ Rep s' 0 [1; 2; 3] 4 ∧
            dom (objs s') = dom (objs counted_two)
  | (Throw, s') =>
      (relocation_can_throw ∨
       allocation_fails (length [1; 2; 3]) counted_two) ∧
      mem s' = mem counted_two ∧ objs s' = objs counted_two
  | (Undef, _) => False
  end.
Proof.
  split; [apply counted_two_Rep|]. split; [apply counted_two_Rep|].
  split; [lia|]. split; [apply counted_two_disjoint|]. split; [cbn; lia|].
  split; [vm_compute; reflexivity|]. split; [vm_compute; reflexivity|].
  apply (Vector_assign_reallocates 1 0 [7; 8] [1; 2; 3] 2 4 counted_two);
    [ apply counted_two_Rep | apply counted_two_Rep | lia
    | apply counted_two_disjoint | cbn; lia | vm_compute; reflexivity ].
Defined.

(** [y = std::move(x)] with [y] empty and [x] the array 1. *)
Lemma move_assignment_into_empty_witness :
  Rep counted_pair 1 [] 0 ∧ Rep counted_pair 0 [1] 1 ∧ 1 ≠ 0 ∧
  ∃ s', Vector_assign_move 1 0 counted_pair = (Ret tt, s') ∧
        Rep s' 1 [1] 1 ∧ Rep s' 0 [] 0 ∧
        mem s' = mem counted_pair ∧ trace s' = trace counted_pair.
Proof.
  split; [apply counted_pair_Rep|]. split; [apply counted_pair_Rep|].
  split; [lia|].
  apply (move_assignment_into_empty 1 0 [1] 0 1 counted_pair);
    [apply counted_pair_Rep | apply counted_pair_Rep | lia].
Defined.

(** [EmplaceBack(5)] on the full array 1, 2. *)
Lemma EmplaceBack_returns_last_witness :
  Rep counted_12 0 [1; 2] 2 ∧ fits (grown 2) ∧
  (EmplaceBack 0 (ByCtor (λ w, (Some 5, w))) counted_12).1 = Ret (Ptr 2 2) ∧
  match EmplaceBack 0 (ByCtor (λ w, (Some 5, w))) counted_12 with
  | (Ret p, s') =>
      ∃ y, (args_run (ByCtor (λ w, (Some 5, w))) (env counted_12)).1 = Some y ∧
           load p s' = (Ret y, s') ∧
           end_ 0 s' = (Ret (ptr_add p 1), s') ∧
           Size 0 s' = (Ret (S (length [1; 2])), s')
  | (Throw, _) =>
      (args_run (ByCtor (λ w, (Some 5, w))) (env counted_12)).1 = None ∨
      relocation_can_throw ∨
      (length [1; 2] = 2 ∧ allocation_fails (grown 2) counted_12)
  | (Undef, _) => False
  end.
Proof.
  split; [apply counted_12_Rep|]. split; [vm_compute; reflexivity|].
  split; [vm_compute; reflexivity|].
  apply (EmplaceBack_returns_last 0 (ByCtor (λ w, (Some 5, w))) [1; 2] 2
           counted_12 counted_12_Rep).
  intros _. vm_compute. reflexivity.
Defined.

(** A copy of the array 1, 2, 3 that is destroyed again. *)
Lemma Vector_copy_leaves_nothing_witness :
  Rep counted_123 0 [1; 2; 3] 4 ∧ 1 ≠ 0 ∧ objs counted_123 !! 1 = None ∧
  fits (length [1; 2; 3]) ∧
  (Vector_copy 1 0 counted_123).1 = Ret tt ∧
  match Vector_copy 1 0 counted_123 with
  | (Ret _, s1) =>
      ∃ s2, Vector_destroy 1 s1 = (Ret tt, s2) ∧
            mem s2 = mem counted_123 ∧ objs s2 = objs counted_123
  | (Throw, s1) =>
      (relocation_can_throw ∨
       allocation_fails (length [1; 2; 3]) counted_123) ∧
      mem s1 = mem counted_123 ∧ objs s1 = objs counted_123
  | (Undef, _) => False
  end.
Proof.
  split; [apply counted_123_Rep|]. split; [lia|].
  split; [vm_compute; reflexivity|]. split; [vm_compute; reflexivity|].
  split; [vm_compute; reflexivity|].
  apply (Vector_copy_leaves_nothing 1 0 [1; 2; 3] 4 counted_123
           counted_123_Rep ltac:(lia) ltac:(vm_compute; reflexivity)
           ltac:(vm_compute; reflexivity)).
Defined.

(** Moving the array 1, 2, 3 into a new array and destroying the source. *)
Lemma moved_from_is_destructible_witness :
  Rep counted_123 0 [1; 2; 3] 4 ∧ 1 ≠ 0 ∧
  ∃ s1 s2, Vector_move 1 0 counted_123 = (Ret tt, s1) ∧
           Vector_destroy 0 s1 = (Ret tt, s2) ∧
           Rep s2 1 [1; 2; 3] 4 ∧ objs s2 !! 0 = None ∧
           mem s2 = mem counted_123 ∧ trace s2 = trace counted_123.
Proof.
  split; [apply counted_123_Rep|]. split; [lia|].
  apply (moved_from_is_destructible 1 0 [1; 2; 3] 4 counted_123);
    [apply counted_123_Rep | lia].
Defined.

(** [x.Swap(x)] on the array 1, 2, 3. *)
Lemma Swap_self_witness :
  Rep counted_123 0 [1; 2; 3] 4 ∧
  Swap 0 0 counted_123 = (Ret tt, counted_123).
Proof.
  split; [apply counted_123_Rep|].
  apply (Swap_self 0 [1; 2; 3] 4 counted_123 counted_123_Rep).
Defined.

(** [Insert(begin() + 1, 9)] on the array 1, 2, 3 of capacity 4. *)
Lemma Insert_inserts_value_witness :
  Rep counted_123 0 [1; 2; 3] 4 ∧
  objs counted_123 !! 0 = Some (mkVector (mkRawMemory (Ptr 2 0) 4) 3) ∧
  1 ≤ length [1; 2; 3] ∧
  (Insert 0 (Ptr 2 1) 9 counted_123).1 = Ret (Ptr 2 1) ∧
  match Insert 0 (Ptr 2 1) 9 counted_123 with
  | (Ret p, s') =>
      load p s' = (Ret 9, s') ∧
      Rep s' 0 (take 1 [1; 2; 3] ++ 9 :: drop 1 [1; 2; 3])
        (if decide (length [1; 2; 3] = 4) then grown 4 else 4)
  | (Throw, _) => True
  | (Undef, _) => False
  end.
Proof.
  split; [apply counted_123_Rep|]. split; [apply counted_123_object|].
  split; [cbn; lia|]. split; [vm_compute; reflexivity|].
  pose proof (Insert_inserts_value 0 1 9 [1; 2; 3] 4 counted_123
                (mkVector (mkRawMemory (Ptr 2 0) 4) 3)
                counted_123_Rep counted_123_object ltac:(cbn; lia)
                ltac:(cbn; lia))
    as [Hcopy _].
  exact Hcopy.
Defined.

(** [PushBack(5)] on the full array 1, 2. *)
Lemma PushBack_appends_witness :
  Rep counted_12 0 [1; 2] 2 ∧ fits (grown 2) ∧
  (PushBack 0 5 counted_12).1 = Ret tt ∧
  match PushBack 0 5 counted_12 with
  | (Ret _, s') =>
      Rep s' 0 ([1; 2] ++ [5])
        (if decide (length [1; 2] = 2) then grown 2 else 2)
  | (Throw, _) =>
      (T_copy 5 (env counted_12)).1 = None ∨ relocation_can_throw ∨
      (length [1; 2] = 2 ∧ allocation_fails (grown 2) counted_12)
  | (Undef, _) => False
  end ∧
  (PushBack_rvalue 0 5 counted_12).1 = Ret tt ∧
  match PushBack_rvalue 0 5 counted_12 with
  | (Ret _, s') =>
      Rep s' 0 ([1; 2] ++ [5])
        (if decide (length [1; 2] = 2) then grown 2 else 2)
  | (Throw, _) =>
      (T_move 5 (env counted_12)).1.1 = None ∨ relocation_can_throw ∨
      (length [1; 2] = 2 ∧ allocation_fails (grown 2) counted_12)
  | (Undef, _) => False
  end.
Proof.
  split; [apply counted_12_Rep|]. split; [vm_compute; reflexivity|].
  assert (length [1; 2] = 2 → fits (grown 2)) as Hfit
    by (intros _; vm_compute; reflexivity).
  pose proof (PushBack_appends 0 5 [1; 2] 2 counted_12 counted_12_Rep Hfit)
    as [Hcopy Hmove].
  split; [vm_compute; reflexivity|]. split; [exact Hcopy|].
  split; [vm_compute; reflexivity | exact Hmove].
Defined.

(** The observers of the array 1, 2, 3 of capacity 4. *)
Lemma observers_agree_witness :
  Rep counted_123 0 [1; 2; 3] 4 ∧
  ∃ b e, begin_ 0 counted_123 = (Ret b, counted_123) ∧
         end_ 0 counted_123 = (Ret e, counted_123) ∧
         e = ptr_add b (length [1; 2; 3]) ∧
         ptr_distance b e counted_123 = (Ret (length [1; 2; 3]), counted_123) ∧
         Size 0 counted_123 = (Ret (length [1; 2; 3]), counted_123) ∧
         Capacity 0 counted_123 = (Ret 4, counted_123).
Proof.
  split; [apply counted_123_Rep|].
  apply (observers_agree 0 [1; 2; 3] 4 counted_123 counted_123_Rep).
Defined.

End CountedOperations.

Section ScarceOperations.
#[local] Existing Instance scarce.

(** The array 1, 2 of capacity 2 on a memory system that grants no more
    than 12 bytes: [Reserve(6)], [Resize(6)] and every growing insertion
    end with the exception of [operator new] and change nothing. *)
Lemma allocation_failure_propagates_witness :
  Rep scarce_12 0 [1; 2] 2 ∧
  objs scarce_12 !! 0 = Some (mkVector (mkRawMemory (Ptr 1 0) 2) 2) ∧
  allocation_fails 6 scarce_12 ∧ allocation_fails (grown 2) scarce_12 ∧
  Reserve 0 6 scarce_12 = (Throw, scarce_12) ∧
  Resize 0 6 scarce_12 = (Throw, scarce_12) ∧
  PushBack 0 5 scarce_12 = (Throw, scarce_12) ∧
  PushBack_rvalue 0 5 scarce_12 = (Throw, scarce_12) ∧
  EmplaceBack 0 (ByCopy 5) scarce_12 = (Throw, scarce_12) ∧
  Emplace 0 (Ptr 1 1) (ByCopy 5) scarce_12 = (Throw, scarce_12) ∧
  Vector_sized 1 6 scarce_12 = (Throw, scarce_12).
Proof.
  assert (allocation_fails 6 scarce_12) as H6 by (vm_compute; reflexivity).
  assert (allocation_fails (grown 2) scarce_12) as H4
    by (vm_compute; reflexivity).
  assert (objs scarce_12 !! 0 = Some (mkVector (mkRawMemory (Ptr 1 0) 2) 2))
    as Hobj by (vm_compute; reflexivity).
  split; [apply scarce_12_Rep|]. split; [exact Hobj|].
  split; [exact H6|]. split; [exact H4|].
  destruct (allocation_failure_propagates 0 1 (ByCopy 5) 5 [1; 2] 2 6 1
              scarce_12 (mkVector (mkRawMemory (Ptr 1 0) 2) 2)
              scarce_12_Rep Hobj ltac:(cbn; lia))
    as (Hreserve & Hgrow & _ & _ & Hsized).
  destruct (Hreserve ltac:(lia) H6) as [Hres Hresize].
  destruct (Hgrow eq_refl H4) as (Hpush & Hpushr & Hback & Hemplace).
  split; [exact Hres|]. split; [apply Hresize; cbn; lia|].
  split; [exact Hpush|]. split; [exact Hpushr|]. split; [exact Hback|].
  split; [exact Hemplace|]. apply Hsized; [lia | exact H6].
Defined.

End ScarceOperations.

Section HugeOperations.
#[local] Existing Instance huge.

Lemma huge_empty_Rep : Rep huge_empty 0 [] 0.
Proof. rep_by_run (mkVector (mkRawMemory Null 0) 0). Qed.

(** [Vector<T> v; v.Reserve(4);] for a type of 2^62 bytes: the request is
    for 2^64 bytes, which is 0 in [size_t]; [operator new(0)] succeeds,
    and the array reports the capacity 4 on a block without a slot. *)
Lemma Reserve_overflow_witness :
  Rep huge_empty 0 [] 0 ∧ 0 < 4 ∧ ¬ fits 4 ∧
  operator_new (bytes_of 4) (env huge_empty) = true ∧
  ∃ s' b, Reserve 0 4 huge_empty = (Ret tt, s') ∧
          Capacity 0 s' = (Ret 4, s') ∧ Size 0 s' = (Ret 0, s') ∧
          begin_ 0 s' = (Ret (Ptr b 0), s') ∧
          mem s' !! b = Some [] ∧
          ¬ well_formed s' 0.
Proof.
  assert (¬ fits 4) as Hwrap by (intros Hfit; vm_compute in Hfit; discriminate Hfit).
  assert (operator_new (bytes_of 4) (env huge_empty) = true) as Hnew
    by (vm_compute; reflexivity).
  split; [apply huge_empty_Rep|]. split; [lia|]. split; [exact Hwrap|].
  split; [exact Hnew|].
  destruct (Reserve_overflow 0 0 4 huge_empty huge_empty_Rep ltac:(lia) Hwrap Hnew)
    as (s' & b & Hrun & Hcap & Hsize & Hbegin & Hmem & _ & Hbad).
  exists s', b. split; [exact Hrun|]. split; [exact Hcap|].
  split; [exact Hsize|]. split; [exact Hbegin|]. split; [exact Hmem|].
  exact Hbad.
Defined.

End HugeOperations.
